(** * Rainfall fern map: a shallow embedding of [src/main.js]

    The first part embeds the program in the order of the source file:
    the JavaScript value model, the fern (iterated function system)
    generator, the name normaliser and the alias tables, the two loaders,
    the rainfall table and its resolver, the fern meshes, the time stepper
    and the anchors, then the choice of projection, the outline, the
    labels and start-up.  The second part states and proves its
    properties.

    Conventions of the model.
    - A JavaScript Number is an extended rational: [NaN], the two
      infinities, or a finite value carried by a [Q].  Comparisons
      ([===], [<], [<=]) and the sign of a difference are exact on IEEE
      doubles, so they are modelled exactly; products and sums are taken
      over the rationals (rounding is not modelled).
    - A string is a [string] whose characters are read as the code units
      U+0000..U+00FF.
    - An object or [Map] keyed by strings is the list of its entries in
      insertion order; an array is a list.
    - The module-level variables form the record [App]; every function
      that assigns to them maps an [App] to an [App].  Meshes are objects
      shared between [fernsRoot.children] and [fernMeshes]: they live in a
      heap and both lists hold references.
    - [Math.random()] is a stream [rand : nat -> Q]; the state carries the
      number of draws consumed so far.
    - What belongs to the document or to the renderer only (the canvas of
      a sprite, materials, the camera, the timeline indicator) is left
      out; of the outline and the labels the vertex buffer and the
      positions are modelled.
    - Library calls whose code is not part of the repository
      (String-to-Number conversion, [THREE.Color], [topojson.feature],
      the centroid of [d3-geo]) are Section variables. *)

From Stdlib Require Import ZArith QArith Qabs Lqa Lia String Ascii List Sorted Bool.
From Stdlib Require OrderedTypeEx.
From stdpp Require Import base list strings.
Import ListNotations.
Open Scope string_scope.
Set Warnings "-abstract-large-number,-register-all".

(** ** JavaScript numbers and values *)

Inductive number : Type :=
  | NaN
  | NegInf
  | Fin (q : Q)
  | PosInf.

(** The values that flow through the functions modelled here. *)
Inductive value : Type :=
  | Undefined
  | Str (s : string)
  | Num (n : number).

(** [a === b] on Numbers. *)
Definition num_eqb (a b : number) : bool :=
  match a, b with
  | Fin p, Fin q => Qeq_bool p q
  | NegInf, NegInf => true
  | PosInf, PosInf => true
  | _, _ => false
  end.

(** [a <= b] on Numbers: false as soon as one side is NaN. *)
Definition num_leb (a b : number) : bool :=
  match a, b with
  | NaN, _ | _, NaN => false
  | NegInf, _ => true
  | _, PosInf => true
  | Fin p, Fin q => Qle_bool p q
  | _, _ => false
  end.

(** [a < b] on Numbers. *)
Definition num_ltb (a b : number) : bool :=
  match a, b with
  | NaN, _ | _, NaN => false
  | NegInf, NegInf => false
  | PosInf, PosInf => false
  | NegInf, _ => true
  | _, PosInf => true
  | Fin p, Fin q => negb (Qle_bool q p)
  | _, _ => false
  end.

(** [a - b] on Numbers. *)
Definition num_sub (a b : number) : number :=
  match a, b with
  | NaN, _ | _, NaN => NaN
  | Fin p, Fin q => Fin (p - q)
  | PosInf, PosInf => NaN
  | NegInf, NegInf => NaN
  | PosInf, _ => PosInf
  | NegInf, _ => NegInf
  | Fin _, PosInf => NegInf
  | Fin _, NegInf => PosInf
  end.

(** [Number.isFinite(v)]: false for every non-Number, NaN and both
    infinities. *)
Definition Number_isFinite (v : value) : bool :=
  match v with
  | Num (Fin _) => true
  | _ => false
  end.

(** [a === b] on values (no coercion). *)
Definition strict_eqb (a b : value) : bool :=
  match a, b with
  | Undefined, Undefined => true
  | Str s, Str t => String.eqb s t
  | Num m, Num n => num_eqb m n
  | _, _ => false
  end.

(** Property keys: [o[k]] converts [k] with ToString; only the cases that
    occur ([undefined] and strings) are needed. *)
Definition prop_key (k : option string) : string :=
  match k with
  | Some s => s
  | None => "undefined"
  end.

(** ** The fern generator: [chooseStyle], [IFS], [buildFernGeometryForValue] *)

Definition chooseStyle (v : value) : string * nat :=
  if negb (Number_isFinite v) then ("#555555", 5000%nat)
  else match v with
       | Num n =>
           if num_leb n (Fin 50) then ("#a56c34", 1000%nat)
           else if num_leb n (Fin 100) then ("#96ad2f", 2500%nat)
           else if num_leb n (Fin 200) then ("#3ba84d", 5000%nat)
           else if num_leb n (Fin 300) then ("#1f6e2c", 6000%nat)
           else ("#325c49", 7500%nat)
       | _ => ("#555555", 5000%nat)
       end.

(** One row of [IFS]: the six coefficients of an affine map and, in the
    seventh slot, its probability weight. *)
Record transform : Type := Transform {
  tr_a : Q; tr_b : Q; tr_c : Q; tr_d : Q; tr_e : Q; tr_f : Q; tr_p : Q
}.

Definition IFS : list transform := [
  Transform 0.00 0.00 0.00 0.16 0.00 0.00 0.01;
  Transform 0.85 0.04 (-0.04) 0.85 0.00 1.60 0.85;
  Transform 0.20 (-0.26) 0.23 0.22 0.00 1.60 0.07;
  Transform (-0.15) 0.28 0.26 0.24 0.00 0.44 0.07
].

(** [IFS[k]]; the indices used by the source are 0..3. *)
Definition IFS_at (k : nat) : transform :=
  nth k IFS (Transform 0 0 0 0 0 0 0).

Definition Qlt_bool (p q : Q) : bool := negb (Qle_bool q p).

(** The [if (r < IFS[0][6]) ... else if (r < 0.86) ...] chain. *)
Definition selectTransform (r : Q) : transform :=
  if Qlt_bool r (tr_p (IFS_at 0)) then IFS_at 0
  else if Qlt_bool r 0.86 then IFS_at 1
  else if Qlt_bool r 0.93 then IFS_at 2
  else IFS_at 3.

(** [nx = a*x + b*y + e; ny = c*x + d*y + f]. *)
Definition applyTransform (t : transform) (xy : Q * Q) : Q * Q :=
  let '(x, y) := xy in
  (tr_a t * x + tr_b t * y + tr_e t, tr_c t * x + tr_d t * y + tr_f t)%Q.

Definition SCALE : Q := 34.
Definition Y_OFF : Q := -40.

Record BufferGeometry : Type := {
  geo_position : list Q;   (* Float32Array, three slots per point *)
  geo_color : list Q
}.

Section Fern.
(** The successive results of [Math.random()]. *)
Variable rand : nat -> Q.
(** [new THREE.Color(hex)], read as its [(r, g, b)] components. *)
Variable THREE_Color : string -> Q * Q * Q.

(** The body of the [for] loop, run for [todo] more iterations from
    index [i]; [k] is the number of draws consumed before the call. *)
Fixpoint fernLoop (todo i k : nat) (rgb : Q * Q * Q) (xy : Q * Q)
    (positions colors : list Q) : list Q * list Q :=
  match todo with
  | O => (positions, colors)
  | S todo' =>
      let r := rand (k + i) in
      let xy' := applyTransform (selectTransform r) xy in
      let base := (i * 3)%nat in
      let positions := <[base + 0 := (fst xy' * SCALE)%Q]> positions in
      let positions := <[base + 1 := (snd xy' * SCALE + Y_OFF)%Q]> positions in
      let positions := <[base + 2 := 0%Q]> positions in
      let colors := <[base + 0 := fst (fst rgb)]> colors in
      let colors := <[base + 1 := snd (fst rgb)]> colors in
      let colors := <[base + 2 := snd rgb]> colors in
      fernLoop todo' (S i) k rgb xy' positions colors
  end.

(** [buildFernGeometryForValue(value)], started after [k] draws; returns
    the geometry and the new number of draws. *)
Definition buildFernGeometryForValue (v : value) (k : nat)
    : BufferGeometry * nat :=
  let '(hex, numPoints) := chooseStyle v in
  let color := THREE_Color hex in
  let positions := replicate (numPoints * 3) 0%Q in
  let colors := replicate (numPoints * 3) 0%Q in
  let '(positions, colors) :=
    fernLoop numPoints 0 k color (0%Q, 0%Q) positions colors in
  ({| geo_position := positions; geo_color := colors |}, (k + numPoints)%nat).

(** The running state after [n] iterations, as a recurrence. *)
Fixpoint fernState (k n : nat) : Q * Q :=
  match n with
  | O => (0%Q, 0%Q)
  | S n' => applyTransform (selectTransform (rand (k + n'))) (fernState k n')
  end.
End Fern.

(** ** The name normaliser [norm] *)

Definition code (c : ascii) : nat := nat_of_ascii c.

(** The class [\s] (also the characters removed by [trim]). *)
Definition is_space (c : ascii) : bool :=
  let n := code c in
  (((9 <=? n) && (n <=? 13)) || (n =? 32) || (n =? 160))%nat.

(** The class [\w]: [A-Za-z0-9_]. *)
Definition is_word (c : ascii) : bool :=
  let n := code c in
  (((48 <=? n) && (n <=? 57)) || ((65 <=? n) && (n <=? 90))
   || ((97 <=? n) && (n <=? 122)) || (n =? 95))%nat.

(** The class [[^\w& ]] is the complement of this one. *)
Definition is_kept (c : ascii) : bool :=
  is_word c || (code c =? 38)%nat || (code c =? 32)%nat.

Definition lower_char (c : ascii) : ascii :=
  let n := code c in
  if (((65 <=? n) && (n <=? 90))
      || ((192 <=? n) && (n <=? 222) && negb (n =? 215)))%nat
  then ascii_of_nat (n + 32) else c.

Fixpoint toLowerCase (s : string) : string :=
  match s with
  | EmptyString => EmptyString
  | String c s' => String (lower_char c) (toLowerCase s')
  end.

(** [.replace(/\s+/g, " ")]; [in_run] tells that the previous character
    belonged to the run being replaced. *)
Fixpoint collapse_from (in_run : bool) (s : string) : string :=
  match s with
  | EmptyString => EmptyString
  | String c s' =>
      if is_space c
      then (if in_run then collapse_from true s'
            else String " " (collapse_from true s'))
      else String c (collapse_from false s')
  end.

Definition collapse_spaces (s : string) : string := collapse_from false s.

(** [.replace(/[^\w& ]/g, "")]. *)
Fixpoint drop_punct (s : string) : string :=
  match s with
  | EmptyString => EmptyString
  | String c s' =>
      if is_kept c then String c (drop_punct s') else drop_punct s'
  end.

Fixpoint trim_start (s : string) : string :=
  match s with
  | EmptyString => EmptyString
  | String c s' => if is_space c then trim_start s' else s
  end.

Fixpoint trim_end (s : string) : string :=
  match s with
  | EmptyString => EmptyString
  | String c s' =>
      match trim_end s' with
      | EmptyString => if is_space c then EmptyString else String c EmptyString
      | t => String c t
      end
  end.

Definition trim (s : string) : string := trim_end (trim_start s).

(** [norm(s)]; [None] stands for a null or undefined argument. *)
Definition norm (s : option string) : string :=
  trim (drop_punct (collapse_spaces (toLowerCase (default "" s)))).

(** ** Objects and Maps with string keys

    An object (or a [Map] keyed by strings) is the list of its own entries
    in insertion order; writing an existing key keeps its place.
    [Object.entries] enumerates an object with the keys that are array
    indices first, in ascending order, and the other keys after them in
    insertion order.  (Properties inherited from [Object.prototype] are
    not modelled.) *)

Fixpoint entry_set {V : Type} (k : string) (v : V) (o : list (string * V))
    : list (string * V) :=
  match o with
  | [] => [(k, v)]
  | (k', v') :: o' =>
      if String.eqb k k' then (k, v) :: o' else (k', v') :: entry_set k v o'
  end.

Fixpoint entry_get {V : Type} (k : string) (o : list (string * V)) : option V :=
  match o with
  | [] => None
  | (k', v') :: o' => if String.eqb k k' then Some v' else entry_get k o'
  end.

(** An object literal [{ [k1]: v1, ... }] and [Object.fromEntries]: the
    entries are written one after the other. *)
Definition Object_fromEntries {V : Type} (es : list (string * V))
    : list (string * V) :=
  fold_left (fun o kv => entry_set (fst kv) (snd kv) o) es [].

(** The value of a numeral made of decimal digits only. *)
Fixpoint digits_value (s : string) (acc : N) : option N :=
  match s with
  | EmptyString => Some acc
  | String c s' =>
      let n := code c in
      if ((48 <=? n) && (n <=? 57))%nat
      then digits_value s' (acc * 10 + N.of_nat (n - 48))%N
      else None
  end.

(** A property key that is an array index: the canonical decimal numeral
    (no sign, no leading zero) of an integer below [2^32 - 1]. *)
Definition array_index (k : string) : option N :=
  match k with
  | EmptyString => None
  | String c rest =>
      if Ascii.eqb c "0"%char
      then (if String.eqb rest EmptyString then Some 0%N else None)
      else match digits_value k 0 with
           | Some n => if (n <? 4294967295)%N then Some n else None
           | None => None
           end
  end.

(** The entries whose key is an array index, in ascending order of the
    index. *)
Fixpoint insert_indexed {V : Type} (n : N) (kv : string * V)
    (l : list (N * (string * V))) : list (N * (string * V)) :=
  match l with
  | [] => [(n, kv)]
  | (m, kv') :: l' =>
      if (n <? m)%N then (n, kv) :: l else (m, kv') :: insert_indexed n kv l'
  end.

Fixpoint indexed_entries {V : Type} (o : list (string * V))
    : list (N * (string * V)) :=
  match o with
  | [] => []
  | kv :: o' =>
      match array_index (fst kv) with
      | Some n => insert_indexed n kv (indexed_entries o')
      | None => indexed_entries o'
      end
  end.

(** The entries whose key is not an array index, in insertion order. *)
Fixpoint named_entries {V : Type} (o : list (string * V)) : list (string * V) :=
  match o with
  | [] => []
  | kv :: o' =>
      match array_index (fst kv) with
      | Some _ => named_entries o'
      | None => kv :: named_entries o'
      end
  end.

(** [Object.entries(o)]. *)
Definition Object_entries {V : Type} (o : list (string * V))
    : list (string * V) :=
  (map snd (indexed_entries o) ++ named_entries o)%list.

Definition alias (a b : string) : string * string :=
  (norm (Some a), norm (Some b)).

Definition NAME_ALIASES : list (string * string) :=
  Object_fromEntries [
    alias "Andaman & Nicobar Islands" "1";
    alias "Arunachal Pradesh" "2";
    alias "Assam & Meghalaya" "3";
    alias "Naga Mani Mizo Tripura" "4";
    alias "Sub Himalayan West Bengal & Sikkim" "5";
    alias "Gangetic West Bengal" "6";
    alias "Orissa" "7";
    alias "Jharkhand" "8";
    alias "Bihar" "9";
    alias "East Uttar Pradesh" "10";
    alias "West Uttar Pradesh" "11";
    alias "Uttarakhand" "12";
    alias "Haryana Delhi & Chandigarh" "13";
    alias "Punjab" "14";
    alias "Himachal Pradesh" "15";
    alias "Jammu & Kashmir" "16";
    alias "West Rajasthan" "17";
    alias "East Rajasthan" "18";
    alias "West Madhya Pradesh" "19";
    alias "East Madhya Pradesh" "20";
    alias "Gujarat Region" "21";
    alias "Saurashtra & Kutch" "22";
    alias "Konkan & Goa" "23";
    alias "Madhya Maharashtra" "24";
    alias "Matathwada" "25";
    alias "Vidarbha" "26";
    alias "Chhattisgarh" "27";
    alias "Coastal Andhra Pradesh" "28";
    alias "Telangana" "29";
    alias "Rayalseema" "30";
    alias "Tamil Nadu" "31";
    alias "Coastal Karnataka" "32";
    alias "North Interior Karnataka" "33";
    alias "South Interior Karnataka" "34";
    alias "Kerala" "35";
    alias "Lakshadweep" "36"
  ].

(** [Object.fromEntries(Object.entries(fwd).map(([a, b]) => [b, a]))]. *)
Definition reverse_table (fwd : list (string * string)) : list (string * string) :=
  Object_fromEntries (map (fun kv => (snd kv, fst kv)) (Object_entries fwd)).

Definition REVERSE_ALIASES : list (string * string) :=
  reverse_table NAME_ALIASES.

Record Override : Type := {
  ov_x : Q; ov_y : Q; ov_scale : option Q
}.

Definition ANCHOR_OVERRIDES : list (string * Override) := Object_fromEntries [].

Definition DEFAULT_SCALE : Q := 0.25.

(** ** Loaders *)

(** A decoded JSON document.  The fields of an object are its own
    properties in enumeration order. *)
Inductive json : Type :=
  | JNull
  | JBool (b : bool)
  | JNumber (n : Q)
  | JString (s : string)
  | JArray (items : list json)
  | JObject (fields : list (string * json)).

Inductive error : Type :=
  | FailedToLoad (url : string) (status : Z)   (* 'Failed to load ...' *)
  | UnrecognizedDataType (type : option json)  (* 'Unrecognized data type: ...' *)
  | TypeError                                  (* property read on null/undefined *)
  | SyntaxError                                (* body is not JSON *)
  | NetworkError                               (* fetch rejected *)
  | LibraryError.                              (* thrown inside a library call *)

Inductive outcome (A : Type) : Type :=
  | Returned (a : A)
  | Thrown (e : error).
Arguments Returned {A} a.
Arguments Thrown {A} e.

(** What [fetch(url)] resolves to; [resp_json = None] when [resp.json()]
    rejects because the body is not valid JSON. *)
Record Response : Type := {
  resp_ok : bool;
  resp_status : Z;
  resp_json : option json
}.

(** [data.name] for a decoded document: reading a property of [null]
    throws, a missing property (or any property of a number, boolean,
    string or array other than an index or [length]) is [undefined]. *)
Definition json_prop (data : json) (name : string) : outcome (option json) :=
  match data with
  | JNull => Thrown TypeError
  | JObject fields => Returned (entry_get name fields)
  | _ => Returned None
  end.

(** [Object.keys(o)[0]] together with [o[Object.keys(o)[0]]]:
    [Object.keys] throws on [undefined] and [null]; an array or a string
    has its indices as keys; [o[undefined]] is [undefined] when [o] has no
    key at all. *)
Definition first_property (o : option json) : outcome (option json) :=
  match o with
  | None | Some JNull => Thrown TypeError
  | Some (JObject ((_, v) :: _)) => Returned (Some v)
  | Some (JArray (v :: _)) => Returned (Some v)
  | Some (JString (String c _)) => Returned (Some (JString (String c EmptyString)))
  | Some _ => Returned None
  end.

Definition is_type (t : option json) (name : string) : bool :=
  match t with
  | Some (JString s) => String.eqb s name
  | _ => false
  end.

Section Boundaries.
(** [topojson.feature(topology, object)]; the second argument is
    [undefined] when the topology names no object. *)
Variable topoFeature : json -> option json -> outcome json.

(** [loadBoundaries(url)], given what [fetch(url)] produced ([None]: the
    fetch itself was rejected). *)
Definition loadBoundaries (url : string) (fetched : option Response)
    : outcome json :=
  match fetched with
  | None => Thrown NetworkError
  | Some resp =>
      if negb (resp_ok resp) then Thrown (FailedToLoad url (resp_status resp))
      else match resp_json resp with
           | None => Thrown SyntaxError
           | Some data =>
               match json_prop data "type" with
               | Thrown e => Thrown e
               | Returned type =>
                   if is_type type "Topology" then
                     match json_prop data "objects" with
                     | Thrown e => Thrown e
                     | Returned objects =>
                         match first_property objects with
                         | Thrown e => Thrown e
                         | Returned object => topoFeature data object
                         end
                     end
                   else if is_type type "FeatureCollection" then Returned data
                   else Thrown (UnrecognizedDataType type)
               end
           end
  end.
End Boundaries.

(** A parsed CSV record: header name to field text. *)
Definition Row : Type := list (string * string).

(** [s.split(',')]. *)
Fixpoint split_commas (s : string) : list string :=
  match s with
  | EmptyString => [EmptyString]
  | String c s' =>
      if Ascii.eqb c ","%char then EmptyString :: split_commas s'
      else match split_commas s' with
           | field :: fields => String c field :: fields
           | [] => [String c EmptyString]
           end
  end.

Definition starts_with_newline (s : string) : bool :=
  match s with
  | String c _ => Ascii.eqb c (ascii_of_nat 10)
  | EmptyString => false
  end.

(** [text.split(/\r?\n/)]: a carriage return directly before a line feed
    belongs to the separator. *)
Fixpoint split_lines (s : string) : list string :=
  match s with
  | EmptyString => [EmptyString]
  | String c s' =>
      if Ascii.eqb c (ascii_of_nat 10) then EmptyString :: split_lines s'
      else if Ascii.eqb c (ascii_of_nat 13) && starts_with_newline s'
      then split_lines s'
      else match split_lines s' with
           | line :: lines => String c line :: lines
           | [] => [String c EmptyString]
           end
  end.

Definition nonempty (s : string) : bool := negb (String.eqb s EmptyString).

(** [function splitCSVLine(line)]. *)
Definition splitCSVLine (line : string) : list string :=
  map trim (split_commas line).

(** The inner loop [for (j ...) obj[headers[j]] = parts[j]], run when both
    lists have the same length.  On a plain object an assignment to the
    key [__proto__] goes to the setter inherited from [Object.prototype],
    which ignores a value that is not an object: a string assigned to that
    key creates no property. *)
Fixpoint fill_record (headers parts : list string) (obj : Row) : Row :=
  match headers, parts with
  | h :: headers', p :: parts' =>
      fill_record headers' parts'
        (if String.eqb h "__proto__" then obj else entry_set h p obj)
  | _, _ => obj
  end.

(** The outer loop over [lines[1..]]. *)
Fixpoint parse_lines (headers : list string) (lines : list string) : list Row :=
  match lines with
  | [] => []
  | line :: lines' =>
      let parts := splitCSVLine line in
      if negb (length parts =? length headers)%nat
      then parse_lines headers lines'
      else fill_record headers parts [] :: parse_lines headers lines'
  end.

(** [loadCSVRows(url)], given the fetched text. *)
Definition loadCSVRows (text : string) : outcome (list Row) :=
  let lines := List.filter nonempty (split_lines text) in
  match lines with
  | [] => Thrown TypeError               (* lines[0] is undefined *)
  | first :: rest =>
      let headers := map trim (split_commas first) in
      Returned (parse_lines headers rest)
  end.

(** ** Rainfall table, value resolver, fern meshes and time stepper *)

Definition MONTHS : list string :=
  ["JAN"; "FEB"; "MAR"; "APR"; "MAY"; "JUN";
   "JUL"; "AUG"; "SEP"; "OCT"; "NOV"; "DEC"].

Definition YEAR_COL : string := "YEAR".

Record Vector3 : Type := { vx : Q; vy : Q; vz : Q }.

(** [v.setScalar(s)]. *)
Definition setScalar (s : Q) : Vector3 := {| vx := s; vy := s; vz := s |}.

(** A [THREE.Points] object, with the two [userData] fields the program
    writes. *)
Record Mesh : Type := {
  mesh_geometry : BufferGeometry;
  mesh_position : Vector3;
  mesh_scale : Vector3;
  userData_subdivision : option string;
  userData_key : option string
}.

(** A boundary feature: its property bag (name fields hold strings). *)
Record Feature : Type := { feat_properties : list (string * string) }.

(** The module-level state.  Meshes live in [heap] and are referred to by
    index, as [fernsRoot.children] and [fernMeshes] hold the same
    objects. *)
Record App : Type := {
  geojson : option (list Feature);
  anchors : list (string * Vector3);
  scaleBySubdivision : list (string * Q);
  dataBySubdivision : list (string * list Row);
  subdivisionList : list string;
  yearList : list number;
  heap : list Mesh;
  fernsRoot_children : list nat;
  fernMeshes : list nat;
  monthIndex : Z;
  yearIndex : nat;
  tickMs : Q;
  lastTime : Q;
  draws : nat
}.

(** The state when the module has been evaluated. *)
Definition initial : App := {|
  geojson := None;
  anchors := [];
  scaleBySubdivision := [];
  dataBySubdivision := [];
  subdivisionList := [];
  yearList := [];
  heap := [];
  fernsRoot_children := [];
  fernMeshes := [];
  monthIndex := 0;
  yearIndex := 0;
  tickMs := 1200;
  lastTime := 0;
  draws := 0
|}.

(** [function getName(props)]: the first non-empty candidate field. *)
Definition NAME_FIELDS : list string :=
  ["SUBDIVISION"; "SUB-DIV"; "MET_SUBDIV"; "DIVISION";
   "NAME_1"; "NAME"; "name"; "subdivisio"].

Fixpoint first_truthy (props : list (string * string)) (names : list string)
    : string :=
  match names with
  | [] => EmptyString
  | n :: names' =>
      match entry_get n props with
      | Some s => if nonempty s then s else first_truthy props names'
      | None => first_truthy props names'
      end
  end.

Definition getName (props : list (string * string)) : string :=
  first_truthy props NAME_FIELDS.

(** [o[k]] used as a condition: the entry when it is there and not the
    empty string. *)
Definition truthy_entry (k : string) (o : list (string * string)) : option string :=
  match entry_get k o with
  | Some s => if nonempty s then Some s else None
  | None => None
  end.

(** The key computed as [NAME_ALIASES[norm(name)] ?? norm(name)]. *)
Definition topoKeyOf (name : string) : string :=
  default (norm (Some name)) (entry_get (norm (Some name)) NAME_ALIASES).

(** Array.prototype.sort with a comparator, as a stable insertion sort:
    for a consistent comparator every conforming engine returns this
    list.  A comparator result that is NaN counts as zero; where that
    makes the comparator inconsistent the order is left to the engine, and
    this is the order an insertion sort leaves. *)
Section Sort.
Context {A : Type}.
Variable cmp : A -> A -> number.

Fixpoint sort_insert (x : A) (l : list A) : list A :=
  match l with
  | [] => [x]
  | y :: l' =>
      if num_ltb (Fin 0) (cmp x y) then y :: sort_insert x l'
      else x :: y :: l'
  end.

Definition Array_sort (l : list A) : list A := foldr sort_insert [] l.
End Sort.

(** The default comparator of [sort()] on strings: code-unit order. *)
Definition string_cmp (s t : string) : number :=
  match String.compare s t with
  | Lt => Fin (-1)
  | Eq => Fin 0
  | Gt => Fin 1
  end.

(** [set.add(y)] on a [Set] of finite numbers. *)
Definition Set_add (y : number) (s : list number) : list number :=
  if existsb (num_eqb y) s then s else (s ++ [y])%list.

Section Program.
(** The conversion of a string to a Number ([Number(s)]). *)
Variable StringToNumber : string -> number.
Variable rand : nat -> Q.
Variable THREE_Color : string -> Q * Q * Q.
(** Whether [document.getElementById('yearSelect')] finds an element. *)
Variable has_yearSelect : bool.
(** [d3geo.geoPath(currentProjection).centroid(f)] for the viewport. *)
Variable path_centroid : Q -> Q -> list Feature -> Feature -> Q * Q.

(** [Number(v)]. *)
Definition ToNumber (v : value) : number :=
  match v with
  | Undefined => NaN
  | Str s => StringToNumber s
  | Num n => n
  end.

(** [row[k]]. *)
Definition field (row : Row) (k : string) : value :=
  match entry_get k row with
  | Some s => Str s
  | None => Undefined
  end.

(** [Number(row[YEAR_COL])]. *)
Definition yearOf (row : Row) : number := ToNumber (field row YEAR_COL).

(** The first loop of [ingestRainRows]: group the rows by region. *)
Fixpoint groupRows (rows : list Row) (tmp : list (string * list Row))
    : list (string * list Row) :=
  match rows with
  | [] => tmp
  | row :: rows' =>
      match entry_get "SUBDIVISION" row with
      | None => groupRows rows' tmp
      | Some sub =>
          if negb (nonempty sub) then groupRows rows' tmp
          else
            let tmp := match entry_get sub tmp with
                       | None => entry_set sub [] tmp
                       | Some _ => tmp
                       end in
            let arr := default [] (entry_get sub tmp) in
            groupRows rows' (entry_set sub (arr ++ [row])%list tmp)
      end
  end.

Definition byYear (a b : Row) : number := num_sub (yearOf a) (yearOf b).

(** The second loop: sort every group by year. *)
Fixpoint sortGroups (tmp data : list (string * list Row))
    : list (string * list Row) :=
  match tmp with
  | [] => data
  | (sub, arr) :: tmp' => sortGroups tmp' (entry_set sub (Array_sort byYear arr) data)
  end.

(** The loops that fill [yearSet]. *)
Fixpoint addYears (arr : list Row) (yearSet : list number) : list number :=
  match arr with
  | [] => yearSet
  | r :: arr' =>
      let y := yearOf r in
      addYears arr' (if Number_isFinite (Num y) then Set_add y yearSet else yearSet)
  end.

Fixpoint collectYears (data : list (string * list Row)) (yearSet : list number)
    : list number :=
  match data with
  | [] => yearSet
  | (_, arr) :: data' => collectYears data' (addYears arr yearSet)
  end.

(** [function valueFor(subdivision, y, m)]; an argument that is
    [undefined] is [None] (or [Undefined] for the year). *)
Fixpoint scanBack (arr : list Row) (y : value) (i : nat) : option Row :=
  match i with
  | O => None
  | S i' =>
      match arr !! i' with
      | Some r => if num_leb (yearOf r) (ToNumber y) then Some r
                  else scanBack arr y i'
      | None => scanBack arr y i'
      end
  end.

Definition valueFor (data : list (string * list Row))
    (subdivision : option string) (y : value) (m : option string) : number :=
  match subdivision ≫= (fun sub => entry_get sub data) with
  | None | Some [] => NaN
  | Some ((first :: _) as arr) =>
      let row :=
        match List.find (fun r => strict_eqb (Num (yearOf r)) y) arr with
        | Some r => r
        | None =>
            match scanBack arr y (length arr) with
            | Some r => r
            | None => first
            end
        end in
      ToNumber (field row (prop_key m))
  end.

(** [function createFernMesh(initialValue, pos, scale = 0.18)]. *)
Definition createFernMesh (initialValue : value) (pos : Vector3)
    (scale : option Q) (k : nat) : Mesh * nat :=
  let '(geom, k') := buildFernGeometryForValue rand THREE_Color initialValue k in
  ({| mesh_geometry := geom;
      mesh_position := pos;
      mesh_scale := setScalar (default 0.18%Q scale);
      userData_subdivision := None;
      userData_key := None |}, k').

(** [MONTHS[monthIndex]]. *)
Definition monthLabel (st : App) : option string :=
  if (monthIndex st <? 0)%Z then None else MONTHS !! Z.to_nat (monthIndex st).

(** The body of the loop of [buildAllFerns] for one subdivision. *)
Definition buildFern (sub : string) (st : App) (missing : nat) : App * nat :=
  let topoKey := topoKeyOf sub in
  let y := match yearList st !! yearIndex st with
           | Some y => y
           | None =>
               match entry_get sub (dataBySubdivision st) with
               | Some (first :: _) => yearOf first
               | _ => NaN
               end
           end in
  let m := monthLabel st in
  let v := valueFor (dataBySubdivision st) (Some sub) (Num y) m in
  let anchor := entry_get topoKey (anchors st) in
  let pos := default {| vx := 0; vy := 0; vz := 0 |} anchor in
  let sc := default DEFAULT_SCALE (entry_get topoKey (scaleBySubdivision st)) in
  let missing := match anchor with Some _ => missing | None => S missing end in
  let '(mesh, k') := createFernMesh (Num v) pos (Some sc) (draws st) in
  let mesh := {| mesh_geometry := mesh_geometry mesh;
                 mesh_position := mesh_position mesh;
                 mesh_scale := mesh_scale mesh;
                 userData_subdivision := Some sub;
                 userData_key := Some topoKey |} in
  let ref := length (heap st) in
  ({| geojson := geojson st;
      anchors := anchors st;
      scaleBySubdivision := scaleBySubdivision st;
      dataBySubdivision := dataBySubdivision st;
      subdivisionList := subdivisionList st;
      yearList := yearList st;
      heap := (heap st ++ [mesh])%list;
      fernsRoot_children := (fernsRoot_children st ++ [ref])%list;
      fernMeshes := (fernMeshes st ++ [ref])%list;
      monthIndex := monthIndex st;
      yearIndex := yearIndex st;
      tickMs := tickMs st;
      lastTime := lastTime st;
      draws := k' |}, missing).

Fixpoint buildLoop (subs : list string) (st : App) (missing : nat) : App * nat :=
  match subs with
  | [] => (st, missing)
  | sub :: subs' =>
      let '(st', missing') := buildFern sub st missing in
      buildLoop subs' st' missing'
  end.

(** [function buildAllFerns()]; the second component is the counter
    [missing] reported by the warning. *)
Definition buildAllFerns (st : App) : App * nat :=
  let cleared :=
    {| geojson := geojson st;
       anchors := anchors st;
       scaleBySubdivision := scaleBySubdivision st;
       dataBySubdivision := dataBySubdivision st;
       subdivisionList := subdivisionList st;
       yearList := yearList st;
       heap := heap st;
       fernsRoot_children := [];
       fernMeshes := [];
       monthIndex := monthIndex st;
       yearIndex := yearIndex st;
       tickMs := tickMs st;
       lastTime := lastTime st;
       draws := draws st |} in
  buildLoop (subdivisionList st) cleared 0.

(** [function setFernValue(mesh, value)] for the mesh at [ref]. *)
Definition setFernValue (ref : nat) (v : value) (st : App) : App :=
  match heap st !! ref with
  | None => st
  | Some mesh =>
      let '(geom, k') := buildFernGeometryForValue rand THREE_Color v (draws st) in
      let mesh := {| mesh_geometry := geom;
                     mesh_position := mesh_position mesh;
                     mesh_scale := mesh_scale mesh;
                     userData_subdivision := userData_subdivision mesh;
                     userData_key := userData_key mesh |} in
      {| geojson := geojson st;
         anchors := anchors st;
         scaleBySubdivision := scaleBySubdivision st;
         dataBySubdivision := dataBySubdivision st;
         subdivisionList := subdivisionList st;
         yearList := yearList st;
         heap := <[ref := mesh]> (heap st);
         fernsRoot_children := fernsRoot_children st;
         fernMeshes := fernMeshes st;
         monthIndex := monthIndex st;
         yearIndex := yearIndex st;
         tickMs := tickMs st;
         lastTime := lastTime st;
         draws := k' |}
  end.

(** The loop of [updateAllFerns], from index [i] for [todo] meshes. *)
Fixpoint updateLoop (todo i : nat) (y : value) (m : option string) (st : App)
    : App :=
  match todo with
  | O => st
  | S todo' =>
      let sub := subdivisionList st !! i in
      let v := valueFor (dataBySubdivision st) sub y m in
      let st' := match fernMeshes st !! i with
                 | Some ref => setFernValue ref (Num v) st
                 | None => st
                 end in
      updateLoop todo' (S i) y m st'
  end.

(** [function updateAllFerns()]. *)
Definition updateAllFerns (st : App) : App :=
  if (length (fernMeshes st) =? 0)%nat then st
  else
    let y := match yearList st !! yearIndex st with
             | Some y => Num y
             | None => Undefined
             end in
    updateLoop (length (fernMeshes st)) 0 y (monthLabel st) st.
(** [function buildYearSelect()], as far as the state goes: when the
    select element exists the year index moves to the last year. *)
Definition buildYearSelect (st : App) : App :=
  if negb has_yearSelect then st
  else
    {| geojson := geojson st;
       anchors := anchors st;
       scaleBySubdivision := scaleBySubdivision st;
       dataBySubdivision := dataBySubdivision st;
       subdivisionList := subdivisionList st;
       yearList := yearList st;
       heap := heap st;
       fernsRoot_children := fernsRoot_children st;
       fernMeshes := fernMeshes st;
       monthIndex := monthIndex st;
       yearIndex := Nat.max 0 (length (yearList st) - 1);
       tickMs := tickMs st;
       lastTime := lastTime st;
       draws := draws st |}.

(** [function ingestRainRows(rows)]; [buildTimeline] only touches the
    document. *)
Definition ingestRainRows (rows : list Row) (st : App) : App * nat :=
  let tmp := groupRows rows [] in
  let data := sortGroups tmp [] in
  let subs := Array_sort string_cmp (map fst data) in
  let yearSet := collectYears data [] in
  let years := Array_sort num_sub yearSet in
  let st1 :=
    {| geojson := geojson st;
       anchors := anchors st;
       scaleBySubdivision := scaleBySubdivision st;
       dataBySubdivision := data;
       subdivisionList := subs;
       yearList := years;
       heap := heap st;
       fernsRoot_children := fernsRoot_children st;
       fernMeshes := fernMeshes st;
       monthIndex := monthIndex st;
       yearIndex := yearIndex st;
       tickMs := tickMs st;
       lastTime := lastTime st;
       draws := draws st |} in
  let st2 := buildYearSelect st1 in
  let '(st3, missing) := buildAllFerns st2 in
  (updateAllFerns st3, missing).

(** The assignments of [step] when the tick is due; [updateAllFerns]
    follows. *)
Definition advanceMonth (now : Q) (st : App) : App :=
  {| geojson := geojson st;
     anchors := anchors st;
     scaleBySubdivision := scaleBySubdivision st;
     dataBySubdivision := dataBySubdivision st;
     subdivisionList := subdivisionList st;
     yearList := yearList st;
     heap := heap st;
     fernsRoot_children := fernsRoot_children st;
     fernMeshes := fernMeshes st;
     monthIndex := Z.rem (monthIndex st + 1) (Z.of_nat (length MONTHS));
     yearIndex := yearIndex st;
     tickMs := tickMs st;
     lastTime := now;
     draws := draws st |}.

(** The guard [now - lastTime >= tickMs && yearList.length]. *)
Definition tickDue (now : Q) (st : App) : bool :=
  Qle_bool (tickMs st) (now - lastTime st)
  && negb (length (yearList st) =? 0)%nat.

(** [function step(now)]; [updateTimelineIndicator] only touches the
    document. *)
Definition step (now : Q) (st : App) : App :=
  if tickDue now st then updateAllFerns (advanceMonth now st) else st.

(** The animation loop calls [step] once per frame. *)
Definition runFrames (nows : list Q) (st : App) : App :=
  fold_left (fun st now => step now st) nows st.

(** The number of frames of [nows] on which the month advanced. *)
Fixpoint advances (nows : list Q) (st : App) : nat :=
  match nows with
  | [] => 0
  | now :: nows' =>
      ((if tickDue now st then 1 else 0) + advances nows' (step now st))%nat
  end.

(** The click listener of the [i]-th timeline segment. *)
Definition onMonthClick (i : nat) (st : App) : App :=
  updateAllFerns
    {| geojson := geojson st;
       anchors := anchors st;
       scaleBySubdivision := scaleBySubdivision st;
       dataBySubdivision := dataBySubdivision st;
       subdivisionList := subdivisionList st;
       yearList := yearList st;
       heap := heap st;
       fernsRoot_children := fernsRoot_children st;
       fernMeshes := fernMeshes st;
       monthIndex := Z.of_nat i;
       yearIndex := yearIndex st;
       tickMs := tickMs st;
       lastTime := lastTime st;
       draws := draws st |}.

(** [yearList.indexOf(v)]. *)
Fixpoint indexOf (v : number) (l : list number) (i : nat) : option nat :=
  match l with
  | [] => None
  | y :: l' => if num_eqb y v then Some i else indexOf v l' (S i)
  end.

(** The change listener of the year select, [v = Number(sel.value)]. *)
Definition onYearChange (v : number) (st : App) : App :=
  match indexOf v (yearList st) 0 with
  | None => st
  | Some idx =>
      updateAllFerns
        {| geojson := geojson st;
           anchors := anchors st;
           scaleBySubdivision := scaleBySubdivision st;
           dataBySubdivision := dataBySubdivision st;
           subdivisionList := subdivisionList st;
           yearList := yearList st;
           heap := heap st;
           fernsRoot_children := fernsRoot_children st;
           fernMeshes := fernMeshes st;
           monthIndex := monthIndex st;
           yearIndex := idx;
           tickMs := tickMs st;
           lastTime := lastTime st;
           draws := draws st |}
  end.

(** The loop of [rebuildAnchorsFromMap]. *)
Definition overrideMap : list (string * Override) :=
  Object_fromEntries
    (map (fun kv => (norm (Some (fst kv)), snd kv)) (Object_entries ANCHOR_OVERRIDES)).

Fixpoint anchorLoop (w h : Q) (geo features : list Feature)
    (anchors : list (string * Vector3)) (scales : list (string * Q))
    : list (string * Vector3) * list (string * Q) :=
  match features with
  | [] => (anchors, scales)
  | f :: features' =>
      let rawName := getName (feat_properties f) in
      if negb (nonempty rawName) then anchorLoop w h geo features' anchors scales
      else
        let topoKey := norm (Some rawName) in
        let topoKey := default topoKey (truthy_entry topoKey NAME_ALIASES) in
        let '(cx, cy) := path_centroid w h geo f in
        let pos := {| vx := cx - w / 2; vy := - cy + h / 2; vz := 0 |}%Q in
        let csvKey := truthy_entry topoKey REVERSE_ALIASES in
        let ov := match entry_get topoKey overrideMap with
                  | Some ov => Some ov
                  | None => csvKey ≫= (fun k => entry_get k overrideMap)
                  end in
        match ov with
        | Some ov =>
            let pos := {| vx := ov_x ov; vy := ov_y ov; vz := 0 |} in
            let scales := match ov_scale ov with
                          | Some sc => entry_set topoKey sc scales
                          | None => scales
                          end in
            anchorLoop w h geo features' (entry_set topoKey pos anchors) scales
        | None =>
            anchorLoop w h geo features' (entry_set topoKey pos anchors) scales
        end
  end.

(** [function rebuildAnchorsFromMap(w, h)] (called once [geojson] is
    loaded). *)
Definition rebuildAnchorsFromMap (w h : Q) (st : App) : App :=
  let geo := default [] (geojson st) in
  let '(anchors', scales') := anchorLoop w h geo geo [] (scaleBySubdivision st) in
  {| geojson := geojson st;
     anchors := anchors';
     scaleBySubdivision := scales';
     dataBySubdivision := dataBySubdivision st;
     subdivisionList := subdivisionList st;
     yearList := yearList st;
     heap := heap st;
     fernsRoot_children := fernsRoot_children st;
     fernMeshes := fernMeshes st;
     monthIndex := monthIndex st;
     yearIndex := yearIndex st;
     tickMs := tickMs st;
     lastTime := lastTime st;
     draws := draws st |}.
(** [function applyAnchorsToFerns()]: the loop body for the mesh at
    [ref], then the loop. *)
Definition applyAnchor (ref : nat) (st : App) : App :=
  match heap st !! ref with
  | None => st
  | Some mesh =>
      let key := userData_key mesh in
      let pos := key ≫= (fun k => entry_get k (anchors st)) in
      let sc := key ≫= (fun k => entry_get k (scaleBySubdivision st)) in
      let mesh := {| mesh_geometry := mesh_geometry mesh;
                     mesh_position := default (mesh_position mesh) pos;
                     mesh_scale := match sc with
                                   | Some sc => setScalar sc
                                   | None => mesh_scale mesh
                                   end;
                     userData_subdivision := userData_subdivision mesh;
                     userData_key := userData_key mesh |} in
      {| geojson := geojson st;
         anchors := anchors st;
         scaleBySubdivision := scaleBySubdivision st;
         dataBySubdivision := dataBySubdivision st;
         subdivisionList := subdivisionList st;
         yearList := yearList st;
         heap := <[ref := mesh]> (heap st);
         fernsRoot_children := fernsRoot_children st;
         fernMeshes := fernMeshes st;
         monthIndex := monthIndex st;
         yearIndex := yearIndex st;
         tickMs := tickMs st;
         lastTime := lastTime st;
         draws := draws st |}
  end.

Definition applyAnchorsToFerns (st : App) : App :=
  fold_left (fun st ref => applyAnchor ref st) (fernMeshes st) st.

(** [function rebuildMap()] for a window of [w] by [h], as far as the
    state goes (the outlines and labels belong to the scene only). *)
Definition rebuildMap (w h : Q) (st : App) : App :=
  match geojson st with
  | None => st
  | Some _ => applyAnchorsToFerns (rebuildAnchorsFromMap w h st)
  end.

(** [geojson = await loadBoundaries(FILE_URL)] in [init]. *)
Definition setGeojson (features : list Feature) (st : App) : App :=
  {| geojson := Some features;
     anchors := anchors st;
     scaleBySubdivision := scaleBySubdivision st;
     dataBySubdivision := dataBySubdivision st;
     subdivisionList := subdivisionList st;
     yearList := yearList st;
     heap := heap st;
     fernsRoot_children := fernsRoot_children st;
     fernMeshes := fernMeshes st;
     monthIndex := monthIndex st;
     yearIndex := yearIndex st;
     tickMs := tickMs st;
     lastTime := lastTime st;
     draws := draws st |}.

(** The states the program can be in: [init] loads the boundaries and the
    rows, then resizes, frames and the two listeners follow in any
    order. *)
Inductive reachable : App -> Prop :=
  | reach_initial : reachable initial
  | reach_boundaries features st :
      reachable st -> reachable (setGeojson features st)
  | reach_ingest rows st :
      reachable st -> reachable (fst (ingestRainRows rows st))
  | reach_resize w h st :
      reachable st -> reachable (rebuildMap w h st)
  | reach_frame now st :
      reachable st -> reachable (step now st)
  | reach_month i st :
      (i < length MONTHS)%nat -> reachable st -> reachable (onMonthClick i st)
  | reach_year v st :
      reachable st -> reachable (onYearChange v st).
End Program.

(** A conversion used to run the model on examples.  It agrees with
    [Number(s)] on the inputs the examples use: the empty string, plain
    decimal numerals, and text that is no numeral at all (such as
    ["n/a"]).  Signs, fractions, exponents and surrounding blanks are
    outside it. *)
Fixpoint digitsValue (s : string) (acc : Z) : option Z :=
  match s with
  | EmptyString => Some acc
  | String c s' =>
      let n := code c in
      if ((48 <=? n) && (n <=? 57))%nat
      then digitsValue s' (acc * 10 + Z.of_nat (n - 48))
      else None
  end.

Definition decimalToNumber (s : string) : number :=
  match digitsValue s 0 with
  | Some z => Fin (inject_Z z)
  | None => NaN
  end.

(** ** Projection choice, outlines, labels and start-up *)

(** [Math.abs(n)]. *)
Definition Math_abs (n : number) : number :=
  match n with
  | NaN => NaN
  | NegInf | PosInf => PosInf
  | Fin q => Fin (Qabs q)
  end.

(** What [d3geo.geoBounds(geo)] returns: [[minX, minY], [maxX, maxY]]. *)
Record Bounds : Type := {
  minX : number; minY : number; maxX : number; maxY : number
}.

(** The test [isLonLat] of [chooseProjection]; on a Number the global
    [isFinite] is [Number.isFinite]. *)
Definition isLonLat (b : Bounds) : bool :=
  Number_isFinite (Num (minX b)) && Number_isFinite (Num (minY b))
  && num_leb (Math_abs (minX b)) (Fin 180)
  && num_leb (Math_abs (maxX b)) (Fin 180)
  && num_leb (Math_abs (minY b)) (Fin 90)
  && num_leb (Math_abs (maxY b)) (Fin 90).

(** The two projections [chooseProjection] builds, each fitted to the
    viewport by [fitSize]. *)
Inductive Projection : Type :=
  | geoMercator
  | geoIdentity_reflectY.

(** [function chooseProjection(geo, w, h)], given the bounds of [geo]. *)
Definition chooseProjection (b : Bounds) : Projection :=
  if isLonLat b then geoMercator else geoIdentity_reflectY.

(** The [geometry] of a feature: the two types that are drawn, with
    their rings of points, and any other type. *)
Inductive Geometry : Type :=
  | Polygon (coordinates : list (list (Q * Q)))
  | MultiPolygon (coordinates : list (list (list (Q * Q))))
  | OtherGeometry.

Section Outline.
(** The projection in use, as a function on points. *)
Variable projection : Q * Q -> Q * Q.
Variable width height : Q.

(** The inner [function project(lonlat)]. *)
Definition project (lonlat : Q * Q) : Q * Q :=
  let '(x, y) := projection lonlat in
  (x - width / 2, - y + height / 2)%Q.

(** The loop of [addRing] over [ring[1..]], then the closing segment. *)
Fixpoint ringLoop (points : list (Q * Q)) (first prev : Q * Q) (verts : list Q)
    : list Q :=
  match points with
  | [] => (verts ++ [fst prev; snd prev; 0%Q; fst first; snd first; 0%Q])%list
  | point :: points' =>
      let p := project point in
      ringLoop points' first p
        (verts ++ [fst prev; snd prev; 0%Q; fst p; snd p; 0%Q])%list
  end.

(** The inner [function addRing(ring)]: a ring of fewer than two points
    is left out. *)
Definition addRing (ring : list (Q * Q)) (verts : list Q) : list Q :=
  match ring with
  | [] => verts
  | p0 :: rest =>
      match rest with
      | [] => verts
      | _ :: _ => ringLoop rest (project p0) (project p0) verts
      end
  end.

(** The body of the loop over [geo.features], on the [geometry] of one
    feature ([None]: the feature has none). *)
Definition addGeometry (g : option Geometry) (verts : list Q) : list Q :=
  match g with
  | None => verts
  | Some (Polygon rings) => fold_left (fun v ring => addRing ring v) rings verts
  | Some (MultiPolygon polygons) =>
      fold_left
        (fun v polygon => fold_left (fun v ring => addRing ring v) polygon v)
        polygons verts
  | Some OtherGeometry => verts
  end.

(** [function buildOutlineGeometry(geo, projection, width, height)]: the
    numbers handed to the position attribute. *)
Definition buildOutlineGeometry (geometries : list (option Geometry)) : list Q :=
  fold_left (fun v g => addGeometry g v) geometries [].
End Outline.

(** [function anchorFor(name)]. *)
Definition anchorFor (name : string) (st : App) : Vector3 :=
  default {| vx := 0; vy := 0; vz := 0 |} (entry_get (topoKeyOf name) (anchors st)).

Definition FILE_URL : string := "./india_subdivisions.topo.json".

(** The loaded document read as the [Feature] records of the model.  A
    feature is its property bag, and of the bag the program reads name
    fields only: the fields of [f.properties] that hold a string, in their
    order ([f.properties] missing gives the empty bag, the default
    parameter of [getName]). *)
Definition string_fields (fields : list (string * json)) : list (string * string) :=
  flat_map (fun kv => match snd kv with
                      | JString s => [(fst kv, s)]
                      | _ => []
                      end) fields.

Definition propertiesOf (f : json) : list (string * string) :=
  match f with
  | JObject fields =>
      match entry_get "properties" fields with
      | Some (JObject ps) => string_fields ps
      | _ => []
      end
  | _ => []
  end.

(** [geojson.features]. *)
Definition featuresOf (doc : json) : list Feature :=
  match doc with
  | JObject fields =>
      match entry_get "features" fields with
      | Some (JArray items) =>
          map (fun f => {| feat_properties := propertiesOf f |}) items
      | _ => []
      end
  | _ => []
  end.

(** The documents [Feature] records stand for.  On these the loops of
    [rebuildMap] over [geo.features] read nothing that makes them throw:
    [features] is an array of objects; the [geometry] of a feature is
    missing or null, or an object whose [type] is a string and, for a
    Polygon or MultiPolygon, whose [coordinates] are arrays of rings of
    points that start with two numbers; its [properties] are missing or an
    object in which every candidate name field is missing or a string.
    (Outside: no [features] array, a feature or its [properties] that is
    null, a name that is a number.) *)
Definition is_point (p : json) : bool :=
  match p with
  | JArray (JNumber _ :: JNumber _ :: _) => true
  | _ => false
  end.

Definition is_ring (r : json) : bool :=
  match r with
  | JArray points => forallb is_point points
  | _ => false
  end.

Definition is_polygon (c : json) : bool :=
  match c with
  | JArray rings => forallb is_ring rings
  | _ => false
  end.

Definition typed_geometry (g : option json) : bool :=
  match g with
  | None | Some JNull => true
  | Some (JObject fields) =>
      match entry_get "type" fields with
      | Some (JString t) =>
          if String.eqb t "Polygon" then
            match entry_get "coordinates" fields with
            | Some c => is_polygon c
            | None => false
            end
          else if String.eqb t "MultiPolygon" then
            match entry_get "coordinates" fields with
            | Some (JArray polygons) => forallb is_polygon polygons
            | _ => false
            end
          else true
      | _ => false
      end
  | Some _ => false
  end.

Definition typed_name (v : option json) : bool :=
  match v with
  | None | Some (JString _) => true
  | Some _ => false
  end.

Definition typed_properties (p : option json) : bool :=
  match p with
  | None => true
  | Some (JObject ps) => forallb (fun n => typed_name (entry_get n ps)) NAME_FIELDS
  | Some _ => false
  end.

Definition typed_feature (f : json) : bool :=
  match f with
  | JObject fields =>
      typed_geometry (entry_get "geometry" fields)
      && typed_properties (entry_get "properties" fields)
  | _ => false
  end.

Definition typed_document (doc : json) : bool :=
  match doc with
  | JObject fields =>
      match entry_get "features" fields with
      | Some (JArray items) => forallb typed_feature items
      | _ => false
      end
  | _ => false
  end.

Section Startup.
Variable StringToNumber : string -> number.
Variable rand : nat -> Q.
Variable THREE_Color : string -> Q * Q * Q.
Variable has_yearSelect : bool.
Variable path_centroid : Q -> Q -> list Feature -> Feature -> Q * Q.
Variable topoFeature : json -> option json -> outcome json.

(** The loop of [makeLabelSprites]: the text and the position of each
    sprite, in the order they are added. *)
Fixpoint labelLoop (w h : Q) (geo features : list Feature)
    (labels : list (string * Vector3)) : list (string * Vector3) :=
  match features with
  | [] => labels
  | f :: features' =>
      let name := getName (feat_properties f) in
      if negb (nonempty name) then labelLoop w h geo features' labels
      else
        let '(cx, cy) := path_centroid w h geo f in
        let pos := {| vx := cx - w / 2; vy := - cy + h / 2; vz := 0 |}%Q in
        labelLoop w h geo features' (labels ++ [(name, pos)])%list
  end.

(** [function makeLabelSprites(geo, projection, width, height)]. *)
Definition makeLabelSprites (w h : Q) (geo : list Feature)
    : list (string * Vector3) :=
  labelLoop w h geo geo [].

(** The [init] function up to its call of [onResize]: the state the two
    [try] blocks leave, given what the two fetches produced ([None]: the
    fetch was rejected), and whether [init] goes on to [onResize] and
    [animate].  A failed boundary load returns before anything else is
    done; a failed rainfall load is caught.  The call of [onResize] that
    follows is outside any [try]: it is [rebuildMap] when the document is
    a [typed_document]; on another document it can throw, and [init] ends
    there. *)
Definition init (fetchedMap : option Response) (fetchedCsv : option string)
    : App * bool :=
  match loadBoundaries topoFeature FILE_URL fetchedMap with
  | Thrown _ => (initial, false)
  | Returned doc =>
      let st := setGeojson (featuresOf doc) initial in
      (match fetchedCsv with
       | None => st
       | Some text =>
           match loadCSVRows text with
           | Thrown _ => st
           | Returned rows =>
               fst (ingestRainRows StringToNumber rand THREE_Color
                      has_yearSelect rows st)
           end
       end, true)
  end.
End Startup.

(** ** Specification-side definitions *)

(** The style table as the specification words it: ordered thresholds
    with inclusive upper ends, and one style per bracket. *)
Definition THRESHOLDS : list Q := [50; 100; 200; 300]%Q.

Definition STYLES : list (string * nat) :=
  [("#a56c34", 1000%nat); ("#96ad2f", 2500%nat); ("#3ba84d", 5000%nat);
   ("#1f6e2c", 6000%nat); ("#325c49", 7500%nat)].

Definition UNKNOWN_STYLE : string * nat := ("#555555", 5000%nat).

(** The bracket of a finite value: how many thresholds lie strictly below
    it. *)
Definition bracket (q : Q) : nat :=
  length (List.filter (fun t => Qlt_bool t q) THRESHOLDS).

(** The words of the Boundary Loader's contract. *)
Definition fetch_succeeded (fetched : option Response) : bool :=
  match fetched with
  | Some resp => resp_ok resp
  | None => false
  end.

(** The discriminant: the [type] field of the decoded document. *)
Definition discriminant (data : json) : option json :=
  match data with
  | JObject fields => entry_get "type" fields
  | _ => None
  end.

Definition accepted_type (data : json) : bool :=
  is_type (discriminant data) "Topology"
  || is_type (discriminant data) "FeatureCollection".

Definition raises {A : Type} (r : outcome A) : Prop := exists e, r = Thrown e.

(** The first named geometry object of a topology document, when reading
    it does not throw. *)
Definition first_named_object (data : json) : outcome (option json) :=
  match json_prop data "objects" with
  | Thrown e => Thrown e
  | Returned objects => first_property objects
  end.

(** *** Keys of the normaliser *)

Fixpoint all_chars (p : ascii -> bool) (s : string) : bool :=
  match s with
  | EmptyString => true
  | String c s' => p c && all_chars p s'
  end.

(** A character [norm] leaves alone: kept by the punctuation filter and
    its own lower case. *)
Definition settled_char (c : ascii) : bool :=
  is_kept c && Ascii.eqb (lower_char c) c.

Definition starts_clean (s : string) : bool :=
  match s with
  | EmptyString => true
  | String c _ => negb (is_space c)
  end.

(** No white space at either end. *)
Definition trimmed (s : string) : Prop :=
  starts_clean s = true /\ trim_end s = s.

(** *** Regions, years and order of the rainfall table *)

(** The region a row is filed under: its [SUBDIVISION] field when that
    is a non-empty string. *)
Definition regionOf (row : Row) : option string :=
  match entry_get "SUBDIVISION" row with
  | Some s => if nonempty s then Some s else None
  | None => None
  end.

Definition in_region (sub : string) (row : Row) : bool :=
  match regionOf row with
  | Some s => String.eqb s sub
  | None => false
  end.

(** The table built by [ingestRainRows]. *)
Definition tableOf (StringToNumber : string -> number) (rows : list Row)
    : list (string * list Row) :=
  sortGroups StringToNumber (groupRows rows []) [].

(** The sequence of a region is ordered by year (the invariant recorded
    at the declaration of [dataBySubdivision]). *)
Definition sorted_by_year (StringToNumber : string -> number) (arr : list Row)
    : Prop :=
  forall i j ri rj, (i < j)%nat -> arr !! i = Some ri -> arr !! j = Some rj ->
    num_leb (yearOf StringToNumber ri) (yearOf StringToNumber rj) = true.

Definition is_finite (n : number) : Prop := exists q, n = Fin q.

(** A list of finite numbers, pairwise different. *)
Definition year_set (s : list number) : Prop :=
  Forall is_finite s /\ ForallOrdPairs (fun a b => num_eqb a b = false) s.

(** [sorts_after cmp x y]: the comparator returns a positive number for
    [(x, y)], so [x] is placed after [y]. *)
Definition sorts_after {A : Type} (cmp : A -> A -> number) (x y : A) : Prop :=
  num_ltb (Fin 0) (cmp x y) = true.

Definition newline : string := String (ascii_of_nat 10) EmptyString.

(** *** Relations between states *)

(** Frames that are at least one tick apart, the first one from [last]. *)
Fixpoint spaced (tick last : Q) (nows : list Q) : Prop :=
  match nows with
  | [] => True
  | now :: nows' => (tick <= now - last)%Q /\ spaced tick now nows'
  end.

(** [frame st st']: the two states differ at most in the geometry held by
    the meshes and in the number of random draws. *)
Definition frame (st st' : App) : Prop :=
  geojson st' = geojson st /\
  anchors st' = anchors st /\
  scaleBySubdivision st' = scaleBySubdivision st /\
  dataBySubdivision st' = dataBySubdivision st /\
  subdivisionList st' = subdivisionList st /\
  yearList st' = yearList st /\
  fernsRoot_children st' = fernsRoot_children st /\
  fernMeshes st' = fernMeshes st /\
  monthIndex st' = monthIndex st /\
  yearIndex st' = yearIndex st /\
  tickMs st' = tickMs st /\
  lastTime st' = lastTime st /\
  length (heap st') = length (heap st).

Definition origin : Vector3 := {| vx := 0; vy := 0; vz := 0 |}.

(** No scale is registered for a key that has no anchor: the only writer
    of [scaleBySubdivision] stores the anchor of the same key. *)
Definition scale_keys_anchored (st : App) : Prop :=
  forall k, entry_get k (anchors st) = None ->
            entry_get k (scaleBySubdivision st) = None.

(** The mesh [buildAllFerns] makes for [sub], geometry apart. *)
Definition placed (st : App) (sub : string) (mesh : Mesh) : Prop :=
  userData_subdivision mesh = Some sub /\
  userData_key mesh = Some (topoKeyOf sub) /\
  mesh_position mesh = default origin (entry_get (topoKeyOf sub) (anchors st)) /\
  mesh_scale mesh =
    setScalar (default DEFAULT_SCALE
                 (entry_get (topoKeyOf sub) (scaleBySubdivision st))).

Definition has_anchor (st : App) (sub : string) : bool :=
  match entry_get (topoKeyOf sub) (anchors st) with
  | Some _ => true
  | None => false
  end.

(** The data a state is built from; [buildAllFerns] leaves it alone. *)
Definition same_inputs (st st' : App) : Prop :=
  geojson st' = geojson st /\
  anchors st' = anchors st /\
  scaleBySubdivision st' = scaleBySubdivision st /\
  dataBySubdivision st' = dataBySubdivision st /\
  subdivisionList st' = subdivisionList st /\
  yearList st' = yearList st /\
  monthIndex st' = monthIndex st /\
  yearIndex st' = yearIndex st /\
  tickMs st' = tickMs st /\
  lastTime st' = lastTime st.

(** [refreshed mesh mesh' v]: [mesh'] is [mesh] after [setFernValue] with
    value [v]. *)
Definition refreshed (rand : nat -> Q) (THREE_Color : string -> Q * Q * Q)
    (mesh mesh' : Mesh) (v : value) : Prop :=
  (exists k, mesh_geometry mesh'
             = fst (buildFernGeometryForValue rand THREE_Color v k)) /\
  mesh_position mesh' = mesh_position mesh /\
  mesh_scale mesh' = mesh_scale mesh /\
  userData_subdivision mesh' = userData_subdivision mesh /\
  userData_key mesh' = userData_key mesh.

(** *** The random draws of an update *)

(** The number of points of the fern shown at index [j] of [subs] for the
    year [y] and the month [m]: one random draw each. *)
Definition pointsAt (StringToNumber : string -> number)
    (data : list (string * list Row)) (subs : list string)
    (y : value) (m : option string) (j : nat) : nat :=
  snd (chooseStyle (Num (valueFor StringToNumber data (subs !! j) y m))).

(** The draws consumed by the ferns at the indices below [i]. *)
Definition drawsBefore (StringToNumber : string -> number)
    (data : list (string * list Row)) (subs : list string)
    (y : value) (m : option string) (i : nat) : nat :=
  list_sum (map (pointsAt StringToNumber data subs y m) (seq 0 i)).

(** *** The envelope of the fern *)

(** A box the four maps of [IFS] send into itself. *)
Definition in_envelope (xy : Q * Q) : Prop :=
  (-4 <= fst xy <= 4)%Q /\ (-1 <= snd xy <= 12)%Q.

(** *** The alphabet of a key *)

(** [a-z], [0-9], [_], [&] and the space. *)
Definition key_char (c : ascii) : bool :=
  let n := code c in
  (((97 <=? n) && (n <=? 122)) || ((48 <=? n) && (n <=? 57))
   || (n =? 95) || (n =? 38) || (n =? 32))%nat.

(** Two white-space characters in a row. *)
Fixpoint has_space_run (s : string) : bool :=
  match s with
  | EmptyString => false
  | String c s' => (is_space c && negb (starts_clean s')) || has_space_run s'
  end.

(** *** The rainfall text *)

(** The text holds nothing but line breaks ([\n] or [\r\n]). *)
Fixpoint only_breaks (s : string) : bool :=
  match s with
  | EmptyString => true
  | String c s' =>
      if Ascii.eqb c (ascii_of_nat 10) then only_breaks s'
      else if Ascii.eqb c (ascii_of_nat 13) && starts_with_newline s'
      then only_breaks s'
      else false
  end.

Fixpoint count_commas (s : string) : nat :=
  match s with
  | EmptyString => 0
  | String c s' => ((if Ascii.eqb c ","%char then 1 else 0) + count_commas s')%nat
  end.

Definition not_comma (c : ascii) : bool := negb (Ascii.eqb c ","%char).

Definition not_line_feed (c : ascii) : bool := negb (Ascii.eqb c (ascii_of_nat 10)).

(** *** Outlines *)

(** One line segment of the outline: two vertices in the plane [z = 0]. *)
Definition segment (a b : Q * Q) : list Q :=
  [fst a; snd a; 0%Q; fst b; snd b; 0%Q].

(** The segments that join each point of a path to the next. *)
Fixpoint chain (pts : list (Q * Q)) : list Q :=
  match pts with
  | [] => []
  | a :: rest =>
      match rest with
      | [] => []
      | b :: _ => (segment a b ++ chain rest)%list
      end
  end.

(** A ring followed by its first point again. *)
Definition closed (ring : list (Q * Q)) : list (Q * Q) :=
  match ring with
  | [] => []
  | p0 :: _ => (ring ++ [p0])%list
  end.

(** The rings of a geometry that are drawn. *)
Definition rings_of (g : option Geometry) : list (list (Q * Q)) :=
  match g with
  | Some (Polygon rings) => rings
  | Some (MultiPolygon polygons) => concat polygons
  | _ => []
  end.

(** The number of segments a ring contributes. *)
Definition segments_of (ring : list (Q * Q)) : nat :=
  if (length ring <? 2)%nat then 0%nat else length ring.

(** *** Longitude and latitude *)

Definition within (limit : Q) (n : number) : Prop :=
  exists q, n = Fin q /\ (- limit <= q <= limit)%Q.

(** *** Candidate name fields *)

(** The field is missing from the property bag or holds the empty
    string. *)
Definition blank_field (props : list (string * string)) (n : string) : Prop :=
  entry_get n props = None \/ entry_get n props = Some EmptyString.

(** *** Anchors and labels *)

(** The key [rebuildAnchorsFromMap] files a name under. *)
Definition featureKey (name : string) : string :=
  default (norm (Some name)) (truthy_entry (norm (Some name)) NAME_ALIASES).

(** The key of a feature: none when the feature has no name. *)
Definition anchorKey (f : Feature) : option string :=
  if nonempty (getName (feat_properties f))
  then Some (featureKey (getName (feat_properties f)))
  else None.

(** The centroid of a feature, measured from the middle of the window
    with the y axis pointing up. *)
Definition centred (path_centroid : Q -> Q -> list Feature -> Feature -> Q * Q)
    (w h : Q) (geo : list Feature) (f : Feature) : Vector3 :=
  let '(cx, cy) := path_centroid w h geo f in
  {| vx := cx - w / 2; vy := - cy + h / 2; vz := 0 |}%Q.

(** *** Meshes and the selection *)

(** What [applyAnchorsToFerns] makes of a mesh, given the anchors and the
    registered scales. *)
Definition anchored (anchors : list (string * Vector3)) (scales : list (string * Q))
    (mesh : Mesh) : Mesh :=
  {| mesh_geometry := mesh_geometry mesh;
     mesh_position :=
       default (mesh_position mesh)
         (userData_key mesh ≫= (fun k => entry_get k anchors));
     mesh_scale :=
       match userData_key mesh ≫= (fun k => entry_get k scales) with
       | Some sc => setScalar sc
       | None => mesh_scale mesh
       end;
     userData_subdivision := userData_subdivision mesh;
     userData_key := userData_key mesh |}.

(** [yearList[yearIndex]], the year [updateAllFerns] asks for. *)
Definition currentYear (st : App) : value :=
  match yearList st !! yearIndex st with
  | Some y => Num y
  | None => Undefined
  end.

(** One fern mesh per subdivision, each mesh listed once, and the scene
    group holds the same meshes. *)
Definition ferns_aligned (st : App) : Prop :=
  length (fernMeshes st) = length (subdivisionList st) /\
  fernsRoot_children st = fernMeshes st /\
  NoDup (fernMeshes st).

(** The mesh at index [i] is the mesh of the [i]-th subdivision: it
    carries the name and the key of that subdivision and the default
    scale, and its position satisfies [Pos]. *)
Definition ferns_placed (Pos : string -> Vector3 -> Prop) (st : App) : Prop :=
  forall i sub, subdivisionList st !! i = Some sub ->
    exists ref mesh,
      fernMeshes st !! i = Some ref /\
      heap st !! ref = Some mesh /\
      userData_subdivision mesh = Some sub /\
      userData_key mesh = Some (topoKeyOf sub) /\
      mesh_scale mesh = setScalar DEFAULT_SCALE /\
      Pos sub (mesh_position mesh).

(** The geometry of the mesh at index [i] is a fern of the value of the
    [i]-th subdivision for the selected year and month. *)
Definition shows_selection (StringToNumber : string -> number) (rand : nat -> Q)
    (THREE_Color : string -> Q * Q * Q) (st : App) : Prop :=
  forall i sub ref mesh,
    subdivisionList st !! i = Some sub ->
    fernMeshes st !! i = Some ref ->
    heap st !! ref = Some mesh ->
    exists k,
      mesh_geometry mesh =
        fst (buildFernGeometryForValue rand THREE_Color
               (Num (valueFor StringToNumber (dataBySubdivision st) (Some sub)
                       (currentYear st) (monthLabel st))) k).

(** * Properties *)

(** ** Numbers *)

Lemma Qlt_bool_iff (p q : Q) : Qlt_bool p q = true <-> (p < q)%Q.
Proof.
  unfold Qlt_bool. rewrite negb_true_iff.
  destruct (Qle_bool q p) eqn:E.
  - apply Qle_bool_iff in E. split; [discriminate | intros; lra].
  - split; [intros _ | reflexivity].
    apply Qnot_le_lt. intros H. apply Qle_bool_iff in H. congruence.
Qed.

Lemma Qlt_bool_false_iff (p q : Q) : Qlt_bool p q = false <-> (q <= p)%Q.
Proof.
  unfold Qlt_bool. rewrite negb_false_iff. apply Qle_bool_iff.
Qed.

Lemma Qle_bool_false_iff (p q : Q) : Qle_bool p q = false <-> (q < p)%Q.
Proof.
  destruct (Qle_bool p q) eqn:E.
  - apply Qle_bool_iff in E. split; [discriminate | intros; lra].
  - split; [intros _ | reflexivity].
    apply Qnot_le_lt. intros H. apply Qle_bool_iff in H. congruence.
Qed.

Lemma num_eqb_Fin (a : number) (c : Q) :
  num_eqb a (Fin c) = true -> exists q, a = Fin q /\ (q == c)%Q.
Proof.
  destruct a as [| | q |]; cbn; try discriminate.
  intros H. exists q. split; [reflexivity | apply Qeq_bool_iff; exact H].
Qed.

Lemma num_leb_trans (a b c : number) :
  num_leb a b = true -> num_leb b c = true -> num_leb a c = true.
Proof.
  destruct a as [| | p |], b as [| | q |], c as [| | r |]; cbn;
    try discriminate; try reflexivity.
  rewrite !Qle_bool_iff. intros; lra.
Qed.

Lemma num_leb_refl_of_le (a b : number) :
  num_leb a b = true -> num_leb a a = true.
Proof.
  destruct a as [| | p |], b as [| | q |]; cbn; try discriminate; try reflexivity;
    intros _; apply Qle_bool_iff; lra.
Qed.

Lemma num_eqb_sym (a b : number) : num_eqb a b = num_eqb b a.
Proof.
  destruct a as [| | p |], b as [| | q |]; cbn; try reflexivity.
  destruct (Qeq_bool p q) eqn:E1, (Qeq_bool q p) eqn:E2; try reflexivity.
  - apply Qeq_bool_iff in E1. symmetry in E1. apply Qeq_bool_iff in E1. congruence.
  - apply Qeq_bool_iff in E2. symmetry in E2. apply Qeq_bool_iff in E2. congruence.
Qed.

Lemma num_eqb_refl_finite (a : number) : is_finite a -> num_eqb a a = true.
Proof. intros [q ->]. cbn. apply Qeq_bool_iff. reflexivity. Qed.

Lemma Number_isFinite_iff (n : number) :
  Number_isFinite (Num n) = true <-> is_finite n.
Proof.
  destruct n as [| | q |]; cbn; split; try discriminate;
    try (intros [q' H]; discriminate H).
  - intros _. exists q. reflexivity.
  - reflexivity.
Qed.

(** On numbers other than NaN, "the difference is positive" is the
    negation of [<=]. *)
Lemma difference_positive (a b : number) :
  a <> NaN -> b <> NaN ->
  num_ltb (Fin 0) (num_sub a b) = negb (num_leb a b).
Proof.
  intros Ha Hb. destruct a as [| | p |], b as [| | q |]; try congruence;
    cbn; try reflexivity.
  f_equal. destruct (Qle_bool (p - q) 0) eqn:E1, (Qle_bool p q) eqn:E2;
    try reflexivity.
  - apply Qle_bool_iff in E1. apply Qle_bool_false_iff in E2. lra.
  - apply Qle_bool_iff in E2. apply Qle_bool_false_iff in E1. lra.
Qed.

Lemma num_leb_total (a b : number) :
  a <> NaN -> b <> NaN -> num_leb a b = false -> num_leb b a = true.
Proof.
  intros Ha Hb. destruct a as [| | p |], b as [| | q |]; try congruence;
    cbn; try reflexivity; try discriminate.
  rewrite Qle_bool_false_iff, Qle_bool_iff. intros; lra.
Qed.

(** ** Lists *)

Lemma find_first {A : Type} (f : A -> bool) (l : list A) :
  match List.find f l with
  | Some x => exists i, l !! i = Some x /\ f x = true /\
                        forall j y, (j < i)%nat -> l !! j = Some y -> f y = false
  | None => forall x, In x l -> f x = false
  end.
Proof.
  induction l as [| a l IH]; cbn [List.find].
  - intros x [].
  - destruct (f a) eqn:Ea.
    + exists 0%nat. split; [reflexivity |]. split; [exact Ea |]. intros; lia.
    + destruct (List.find f l) as [x |].
      * destruct IH as (i & Hi & Hx & Hbefore).
        exists (S i). split; [exact Hi |]. split; [exact Hx |].
        intros [| j] y Hj Hy; [cbn in Hy; congruence |].
        apply (Hbefore j); [lia | exact Hy].
      * intros x [-> | Hx]; auto.
Qed.

Lemma StronglySorted_impl {A : Type} (R S : A -> A -> Prop) (l : list A) :
  (forall a b, R a b -> S a b) -> StronglySorted R l -> StronglySorted S l.
Proof.
  intros HRS. induction 1 as [| a l Hs IH Ha]; constructor; [exact IH |].
  eapply List.Forall_impl; [| exact Ha]. intros b. apply HRS.
Qed.

Lemma NoDup_ForallOrdPairs {A : Type} (l : list A) :
  NoDup l -> ForallOrdPairs (fun a b => a <> b) l.
Proof.
  induction 1 as [| a l Hnot Hnd IH]; constructor; [| exact IH].
  rewrite List.Forall_forall. intros y Hy ->.
  apply Hnot, list_elem_of_In, Hy.
Qed.

Lemma StronglySorted_lookup {A : Type} (R : A -> A -> Prop) (l : list A) :
  StronglySorted R l ->
  forall i j x y, (i < j)%nat -> l !! i = Some x -> l !! j = Some y -> R x y.
Proof.
  induction 1 as [| a l Hs IH Ha]; intros i j x y Hij Hi Hj; [discriminate Hi |].
  destruct j as [| j]; [lia |]. cbn in Hj.
  destruct i as [| i]; cbn in Hi.
  - injection Hi as <-. rewrite List.Forall_forall in Ha.
    apply Ha, list_elem_of_In, (list_elem_of_lookup_2 _ j), Hj.
  - apply (IH i j); [lia | assumption | assumption].
Qed.

Lemma ForallOrdPairs_snoc {A : Type} (R : A -> A -> Prop) (l : list A) (y : A) :
  ForallOrdPairs R l -> Forall (fun x => R x y) l -> ForallOrdPairs R (l ++ [y]).
Proof.
  induction 1 as [| a l Ha Hl IH]; cbn; intros Hy.
  - constructor; constructor.
  - inversion Hy as [| ? ? Hay Hy']; subst. constructor; [| apply IH, Hy'].
    apply Forall_app. split; [exact Ha | constructor; [exact Hay | constructor]].
Qed.

(** ** The fern generator *)

(** C4. [chooseStyle] depends only on the threshold bracket of its
    argument, and the upper end of a bracket belongs to it: a finite value
    gets the style of its bracket, 45 and 50 get the same style, 50.0001
    gets the next one, and every value that is undefined or not finite
    gets the unknown style, which no finite value gets. *)
Theorem chooseStyle_threshold_brackets :
  forall v : value,
    (Number_isFinite v = false -> chooseStyle v = UNKNOWN_STYLE) /\
    (Number_isFinite v = true ->
       chooseStyle v <> UNKNOWN_STYLE /\
       exists q, v = Num (Fin q) /\
                 chooseStyle v = nth (bracket q) STYLES UNKNOWN_STYLE /\
                 (bracket q < length STYLES)%nat) /\
    (forall p q, bracket p = bracket q ->
                 chooseStyle (Num (Fin p)) = chooseStyle (Num (Fin q))) /\
    bracket 45 = bracket 50 /\
    chooseStyle (Num (Fin 45)) = chooseStyle (Num (Fin 50)) /\
    bracket 50.0001 = S (bracket 50) /\
    chooseStyle (Num (Fin 50.0001)) = nth (S (bracket 50)) STYLES UNKNOWN_STYLE /\
    chooseStyle (Num (Fin 50.0001)) <> chooseStyle (Num (Fin 50)) /\
    ~ In UNKNOWN_STYLE STYLES.
Proof.
  assert (Hfin : forall q,
            chooseStyle (Num (Fin q)) = nth (bracket q) STYLES UNKNOWN_STYLE
            /\ (bracket q < length STYLES)%nat).
  { intros q. unfold chooseStyle, bracket, THRESHOLDS, Qlt_bool.
    cbn [Number_isFinite negb num_leb List.filter].
    destruct (Qle_bool q 50) eqn:E1; cbn [negb].
    - apply Qle_bool_iff in E1.
      assert (H2 : Qle_bool q 100 = true) by (apply Qle_bool_iff; lra).
      assert (H3 : Qle_bool q 200 = true) by (apply Qle_bool_iff; lra).
      assert (H4 : Qle_bool q 300 = true) by (apply Qle_bool_iff; lra).
      rewrite H2, H3, H4. cbn. split; [reflexivity | lia].
    - destruct (Qle_bool q 100) eqn:E2; cbn [negb].
      + apply Qle_bool_iff in E2.
        assert (H3 : Qle_bool q 200 = true) by (apply Qle_bool_iff; lra).
        assert (H4 : Qle_bool q 300 = true) by (apply Qle_bool_iff; lra).
        rewrite H3, H4. cbn. split; [reflexivity | lia].
      + destruct (Qle_bool q 200) eqn:E3; cbn [negb].
        * apply Qle_bool_iff in E3.
          assert (H4 : Qle_bool q 300 = true) by (apply Qle_bool_iff; lra).
          rewrite H4. cbn. split; [reflexivity | lia].
        * destruct (Qle_bool q 300) eqn:E4; cbn; (split; [reflexivity | lia]). }
  assert (Hnot : ~ In UNKNOWN_STYLE STYLES).
  { unfold UNKNOWN_STYLE, STYLES. cbn. intros H.
    repeat (destruct H as [H | H]; [discriminate H |]). exact H. }
  intros v.
  split; [| split; [| split; [| split; [| split; [| split; [| split; [| split]]]]]]].
  - destruct v as [| s | [| | q |]]; cbn; try reflexivity; discriminate.
  - intros H. destruct v as [| s | [| | q |]]; cbn in H; try discriminate H.
    destruct (Hfin q) as [Hq Hlt]. split.
    + rewrite Hq. intros Hu. apply Hnot. rewrite <- Hu. apply nth_In. exact Hlt.
    + exists q. auto.
  - intros p q Hpq. rewrite (proj1 (Hfin p)), (proj1 (Hfin q)), Hpq. reflexivity.
  - reflexivity.
  - reflexivity.
  - reflexivity.
  - reflexivity.
  - discriminate.
  - exact Hnot.
Qed.

Lemma chooseStyle_threshold_brackets_witness :
  chooseStyle (Num NaN) = UNKNOWN_STYLE /\
  chooseStyle (Num (Fin 45)) <> UNKNOWN_STYLE.
Proof.
  split.
  - apply (proj1 (chooseStyle_threshold_brackets (Num NaN))). reflexivity.
  - apply (proj1 (proj2 (chooseStyle_threshold_brackets (Num (Fin 45))))). reflexivity.
Defined.

(** Closes one direction of "this transform is chosen iff the selector is
    in this range", once the branch taken is known. *)
Ltac select_by_bounds :=
  let H := fresh "H" in
  intros H;
  first [ reflexivity
        | lra
        | exfalso; lra
        | exfalso; vm_compute in H; discriminate H ].

Section FernProofs.
Variable rand : nat -> Q.
Variable THREE_Color : string -> Q * Q * Q.

Lemma fernLoop_length todo : forall i k rgb xy positions colors,
  length (fst (fernLoop rand todo i k rgb xy positions colors)) = length positions.
Proof.
  induction todo as [| todo IH]; intros; cbn [fernLoop]; [reflexivity |].
  rewrite IH, !length_insert. reflexivity.
Qed.

(** The slots of the points before [i] are not written again. *)
Lemma fernLoop_below todo : forall i k rgb xy positions colors n,
  (n < i * 3)%nat ->
  fst (fernLoop rand todo i k rgb xy positions colors) !! n = positions !! n.
Proof.
  induction todo as [| todo IH]; intros i k rgb xy positions colors n Hn;
    cbn [fernLoop]; [reflexivity |].
  rewrite IH by lia.
  rewrite !list_lookup_insert_ne by lia. reflexivity.
Qed.

(** Loop invariant: entering iteration [i] with the state of the
    recurrence, every later point is written from the updated state. *)
Lemma fernLoop_point todo : forall i k rgb xy positions colors j,
  xy = fernState rand k i ->
  ((i + todo) * 3 <= length positions)%nat ->
  (i <= j < i + todo)%nat ->
  let out := fst (fernLoop rand todo i k rgb xy positions colors) in
  let xy' := fernState rand k (S j) in
  out !! (j * 3)%nat = Some (fst xy' * SCALE)%Q /\
  out !! (j * 3 + 1)%nat = Some (snd xy' * SCALE + Y_OFF)%Q /\
  out !! (j * 3 + 2)%nat = Some 0%Q.
Proof.
  induction todo as [| todo IH]; intros i k rgb xy positions colors j Hxy Hlen Hj;
    [lia |].
  cbn [fernLoop].
  destruct (decide (j = i)) as [-> | Hne].
  - cbn zeta. rewrite !fernLoop_below by lia.
    rewrite Nat.add_0_r. cbn [fernState]. rewrite <- Hxy.
    repeat split.
    + rewrite !list_lookup_insert_ne by lia.
      apply list_lookup_insert_eq. lia.
    + rewrite list_lookup_insert_ne by lia.
      apply list_lookup_insert_eq. rewrite length_insert. lia.
    + apply list_lookup_insert_eq. rewrite !length_insert. lia.
  - apply IH.
    + cbn [fernState]. rewrite Hxy. reflexivity.
    + rewrite !length_insert. lia.
    + lia.
Qed.

(** C3. In the point loop the transform is chosen by the selector alone:
    [IFS[0]] exactly below [IFS[0][6]], which is 0.01, [IFS[1]] from 0.01
    up to 0.86, [IFS[2]] from 0.86 up to 0.93, [IFS[3]] from 0.93 on; the
    chosen coefficients update the running state by
    [(x, y) -> (a*x + b*y + e, c*x + d*y + f)]; and point [i] of the
    geometry is written from the updated state (its x scaled by [SCALE],
    its y scaled and offset by [Y_OFF], its z zero). *)
Theorem fern_point_selection_and_update (v : value) (k i : nat) :
  (i < snd (chooseStyle v))%nat ->
  let r := rand (k + i) in
  let t := selectTransform r in
  let old := fernState rand k i in
  let new := fernState rand k (S i) in
  let positions :=
    geo_position (fst (buildFernGeometryForValue rand THREE_Color v k)) in
  tr_p (IFS_at 0) = 0.01%Q /\
  (t = IFS_at 0 <-> (r < tr_p (IFS_at 0))%Q) /\
  (t = IFS_at 1 <-> (0.01 <= r < 0.86)%Q) /\
  (t = IFS_at 2 <-> (0.86 <= r < 0.93)%Q) /\
  (t = IFS_at 3 <-> (0.93 <= r)%Q) /\
  new = ((tr_a t * fst old + tr_b t * snd old + tr_e t)%Q,
         (tr_c t * fst old + tr_d t * snd old + tr_f t)%Q) /\
  positions !! (i * 3)%nat = Some (fst new * SCALE)%Q /\
  positions !! (i * 3 + 1)%nat = Some (snd new * SCALE + Y_OFF)%Q /\
  positions !! (i * 3 + 2)%nat = Some 0%Q.
Proof.
  intros Hi r t old new positions.
  split; [reflexivity |].
  assert (Hsel : (t = IFS_at 0 <-> (r < 0.01)%Q) /\
                 (t = IFS_at 1 <-> (0.01 <= r < 0.86)%Q) /\
                 (t = IFS_at 2 <-> (0.86 <= r < 0.93)%Q) /\
                 (t = IFS_at 3 <-> (0.93 <= r)%Q)).
  { subst t. unfold selectTransform.
    change (tr_p (IFS_at 0)) with 0.01%Q.
    destruct (Qlt_bool r 0.01) eqn:E1;
      [apply Qlt_bool_iff in E1 | apply Qlt_bool_false_iff in E1].
    { repeat apply conj; select_by_bounds. }
    destruct (Qlt_bool r 0.86) eqn:E2;
      [apply Qlt_bool_iff in E2 | apply Qlt_bool_false_iff in E2].
    { repeat apply conj; select_by_bounds. }
    destruct (Qlt_bool r 0.93) eqn:E3;
      [apply Qlt_bool_iff in E3 | apply Qlt_bool_false_iff in E3];
      repeat apply conj; select_by_bounds. }
  destruct Hsel as (H0 & H1 & H2 & H3).
  split; [exact H0 |]. split; [exact H1 |]. split; [exact H2 |].
  split; [exact H3 |].
  split.
  { subst new old t r. cbn [fernState]. unfold applyTransform.
    destruct (fernState rand k i) as [x y]. reflexivity. }
  subst positions. unfold buildFernGeometryForValue.
  destruct (chooseStyle v) as [hex numPoints] eqn:Hstyle. cbn [snd] in Hi.
  destruct (fernLoop rand numPoints 0 k (THREE_Color hex) (0%Q, 0%Q)
              (replicate (numPoints * 3) 0%Q) (replicate (numPoints * 3) 0%Q))
    as [ps cs] eqn:Hloop.
  cbn [fst geo_position].
  pose proof (fernLoop_point numPoints 0 k (THREE_Color hex) (0%Q, 0%Q)
                (replicate (numPoints * 3) 0%Q) (replicate (numPoints * 3) 0%Q) i
                eq_refl) as Hpt.
  rewrite Hloop in Hpt. cbn [fst] in Hpt.
  apply Hpt.
  - rewrite length_replicate. lia.
  - lia.
Qed.
End FernProofs.

Lemma fern_point_selection_and_update_witness :
  let rand := fun i : nat => if Nat.even i then 0.5%Q else 0.005%Q in
  let color := fun _ : string => (1%Q, 1%Q, 1%Q) in
  (0 < snd (chooseStyle (Num (Fin 45))))%nat /\
  selectTransform (rand 0%nat) = IFS_at 1 /\
  geo_position (fst (buildFernGeometryForValue rand color (Num (Fin 45)) 0)) !! 2%nat
    = Some 0%Q.
Proof.
  intros rand color.
  assert (H : (0 < snd (chooseStyle (Num (Fin 45))))%nat) by (vm_compute; lia).
  pose proof (fern_point_selection_and_update rand color (Num (Fin 45)) 0 0 H)
    as (_ & _ & H1 & _ & _ & _ & _ & _ & Hz).
  split; [exact H |]. split.
  - apply H1. subst rand. cbn. lra.
  - exact Hz.
Defined.

(** ** The name normaliser *)

(** C2. Evaluating [norm] where punctuation stands between two spaces:
    the spaces are collapsed before the punctuation is dropped, so the key
    of ["a - b"] keeps two adjacent spaces and normalising that key again
    changes it.  Case and whitespace runs alone make no difference:
    ["Tamil  Nadu"] and ["tamil nadu"] get the same key. *)
Theorem norm_not_idempotent_on_spaced_punctuation :
  norm (Some "a - b") = "a  b" /\
  norm (Some (norm (Some "a - b"))) = "a b" /\
  norm (Some (norm (Some "a - b"))) <> norm (Some "a - b") /\
  norm (Some "Tamil  Nadu") = norm (Some "tamil nadu").
Proof.
  repeat apply conj; try reflexivity. vm_compute. discriminate.
Qed.

(** *** The keys of [norm] settle after a second pass *)

Lemma lower_char_idem (c : ascii) : lower_char (lower_char c) = lower_char c.
Proof. destruct c as [[] [] [] [] [] [] [] []]; vm_compute; reflexivity. Qed.

Lemma kept_space_is_blank (c : ascii) :
  is_kept c = true -> is_space c = true -> c = " "%char.
Proof. destruct c as [[] [] [] [] [] [] [] []]; vm_compute; intros; congruence. Qed.

Lemma all_chars_impl (p q : ascii -> bool) (s : string) :
  (forall c, p c = true -> q c = true) ->
  all_chars p s = true -> all_chars q s = true.
Proof.
  intros Hpq. induction s as [| c s IH]; cbn; [reflexivity |].
  rewrite !andb_true_iff. intros [Hc Hs]. auto.
Qed.

Lemma toLowerCase_lower (s : string) :
  all_chars (fun c => Ascii.eqb (lower_char c) c) (toLowerCase s) = true.
Proof.
  induction s as [| c s IH]; cbn; [reflexivity |].
  rewrite lower_char_idem, Ascii.eqb_refl, IH. reflexivity.
Qed.

Lemma toLowerCase_settled (s : string) :
  all_chars settled_char s = true -> toLowerCase s = s.
Proof.
  induction s as [| c s IH]; cbn; [reflexivity |].
  unfold settled_char at 1. rewrite !andb_true_iff. intros [[_ Hc] Hs].
  apply Ascii.eqb_eq in Hc. rewrite Hc, IH by exact Hs. reflexivity.
Qed.

Lemma collapse_all (p : ascii -> bool) (s : string) : forall b,
  p " "%char = true -> all_chars p s = true ->
  all_chars p (collapse_from b s) = true.
Proof.
  induction s as [| c s IH]; intros b Hsp; cbn; [reflexivity |].
  rewrite andb_true_iff. intros [Hc Hs].
  destruct (is_space c); [destruct b |]; cbn; rewrite ?Hsp, ?Hc, IH; auto.
Qed.

Lemma drop_punct_all (p : ascii -> bool) (s : string) :
  all_chars p s = true -> all_chars p (drop_punct s) = true.
Proof.
  induction s as [| c s IH]; cbn; [reflexivity |].
  rewrite andb_true_iff. intros [Hc Hs].
  destruct (is_kept c); cbn; rewrite ?Hc, IH; auto.
Qed.

Lemma drop_punct_kept (s : string) : all_chars is_kept (drop_punct s) = true.
Proof.
  induction s as [| c s IH]; cbn; [reflexivity |].
  destruct (is_kept c) eqn:E; cbn; rewrite ?E, IH; reflexivity.
Qed.

Lemma drop_punct_settled (s : string) :
  all_chars is_kept s = true -> drop_punct s = s.
Proof.
  induction s as [| c s IH]; cbn; [reflexivity |].
  rewrite andb_true_iff. intros [Hc Hs]. rewrite Hc, IH by exact Hs. reflexivity.
Qed.

Lemma trim_start_all (p : ascii -> bool) (s : string) :
  all_chars p s = true -> all_chars p (trim_start s) = true.
Proof.
  induction s as [| c s IH]; cbn; [reflexivity |].
  rewrite andb_true_iff. intros [Hc Hs].
  destruct (is_space c); [auto | cbn; rewrite Hc, Hs; reflexivity].
Qed.

Lemma trim_end_all (p : ascii -> bool) (s : string) :
  all_chars p s = true -> all_chars p (trim_end s) = true.
Proof.
  induction s as [| c s IH]; cbn; [reflexivity |].
  rewrite andb_true_iff. intros [Hc Hs]. specialize (IH Hs).
  destruct (trim_end s) as [| d t].
  - destruct (is_space c); cbn; rewrite ?Hc; reflexivity.
  - cbn in IH |- *. rewrite Hc, IH. reflexivity.
Qed.

Lemma trim_start_clean (s : string) : starts_clean (trim_start s) = true.
Proof.
  induction s as [| c s IH]; cbn; [reflexivity |].
  destruct (is_space c) eqn:E; [exact IH | cbn; rewrite E; reflexivity].
Qed.

Lemma trim_start_of_clean (s : string) : starts_clean s = true -> trim_start s = s.
Proof.
  destruct s as [| c s]; cbn; [reflexivity |].
  rewrite negb_true_iff. intros ->. reflexivity.
Qed.

Lemma trim_end_clean (s : string) :
  starts_clean s = true -> starts_clean (trim_end s) = true.
Proof.
  destruct s as [| c s]; cbn; [reflexivity |].
  rewrite negb_true_iff. intros E.
  destruct (trim_end s); rewrite ?E; cbn; rewrite E; reflexivity.
Qed.

Lemma trim_end_idem (s : string) : trim_end (trim_end s) = trim_end s.
Proof.
  induction s as [| c s IH]; cbn; [reflexivity |].
  destruct (trim_end s) as [| d t] eqn:E.
  - destruct (is_space c) eqn:Ec; cbn; rewrite ?Ec; reflexivity.
  - cbn [trim_end]. cbn [trim_end] in IH. rewrite IH. reflexivity.
Qed.

Lemma trim_trimmed (s : string) : trimmed (trim s).
Proof.
  unfold trimmed, trim. split.
  - apply trim_end_clean, trim_start_clean.
  - apply trim_end_idem.
Qed.

Lemma trim_of_trimmed (s : string) : trimmed s -> trim s = s.
Proof.
  intros [Hs He]. unfold trim. rewrite trim_start_of_clean by exact Hs. exact He.
Qed.

Lemma trim_end_cons_fixed (c : ascii) (s : string) :
  trim_end (String c s) = String c s ->
  (s = EmptyString /\ is_space c = false) \/ (s <> EmptyString /\ trim_end s = s).
Proof.
  cbn. destruct (trim_end s) as [| d t] eqn:E.
  - destruct (is_space c); [discriminate |]. intros [= <-]. left. auto.
  - intros [= <-]. right. split; [discriminate | reflexivity].
Qed.

Lemma collapse_nonempty (s : string) : forall b,
  trim_end s = s -> s <> EmptyString -> collapse_from b s <> EmptyString.
Proof.
  induction s as [| c s IH]; intros b Hfix Hne; [congruence |].
  cbn. destruct (is_space c) eqn:Ec; [| discriminate].
  destruct (trim_end_cons_fixed c s Hfix) as [[_ E] | [Hne' Hfix']]; [congruence |].
  destruct b; [apply IH; assumption | discriminate].
Qed.

Lemma collapse_trim_end (s : string) : forall b,
  trim_end s = s -> trim_end (collapse_from b s) = collapse_from b s.
Proof.
  induction s as [| c s IH]; intros b Hfix; [reflexivity |].
  destruct (trim_end_cons_fixed c s Hfix) as [[-> Ec] | [Hne Hfix']].
  - cbn. rewrite Ec. cbn. rewrite Ec. reflexivity.
  - assert (Hstep : forall x b', trim_end (String x (collapse_from b' s))
                                 = String x (collapse_from b' s)).
    { intros x b'. cbn [trim_end]. rewrite (IH b' Hfix').
      pose proof (collapse_nonempty s b' Hfix' Hne) as Hn.
      destruct (collapse_from b' s); [congruence | reflexivity]. }
    cbn [collapse_from]. destruct (is_space c); [destruct b |].
    + apply IH, Hfix'.
    + apply Hstep.
    + apply Hstep.
Qed.

Lemma collapse_clean (s : string) :
  starts_clean s = true -> starts_clean (collapse_spaces s) = true.
Proof.
  destruct s as [| c s]; cbn; [reflexivity |].
  rewrite negb_true_iff. intros E. rewrite E. cbn. rewrite E. reflexivity.
Qed.

Lemma collapse_idem (s : string) : forall b,
  collapse_from b (collapse_from b s) = collapse_from b s.
Proof.
  induction s as [| c s IH]; intros b; cbn; [reflexivity |].
  destruct (is_space c) eqn:Ec; [destruct b |]; cbn.
  - apply IH.
  - rewrite IH. reflexivity.
  - rewrite Ec, IH. reflexivity.
Qed.

(** The key of any name is made of settled characters and is trimmed. *)
Lemma norm_key (s : option string) :
  all_chars settled_char (norm s) = true /\ trimmed (norm s).
Proof.
  unfold norm. split; [| apply trim_trimmed].
  unfold trim. apply trim_end_all, trim_start_all.
  set (t := collapse_spaces (toLowerCase (default "" s))).
  assert (Hlow : all_chars (fun c => Ascii.eqb (lower_char c) c) t = true)
    by (apply collapse_all; [reflexivity | apply toLowerCase_lower]).
  generalize (drop_punct_kept t) (drop_punct_all _ t Hlow).
  generalize (drop_punct t) as d.
  induction d as [| c d IH]; cbn; [intros; reflexivity |].
  rewrite !andb_true_iff. intros [Hk Hks] [Hl Hls].
  split; [| apply IH; assumption].
  unfold settled_char. rewrite Hk, Hl. reflexivity.
Qed.

(** On such a key [norm] only collapses the runs of spaces that dropping
    punctuation has left. *)
Lemma norm_of_key (k : string) :
  all_chars settled_char k = true -> trimmed k ->
  norm (Some k) = collapse_spaces k.
Proof.
  intros Hset Htrim. unfold norm. cbn [default].
  rewrite toLowerCase_settled by exact Hset.
  assert (Hkept : all_chars is_kept (collapse_spaces k) = true).
  { apply collapse_all; [reflexivity |].
    apply (all_chars_impl settled_char); [| exact Hset].
    intros c. unfold settled_char. rewrite andb_true_iff. tauto. }
  rewrite drop_punct_settled by exact Hkept.
  apply trim_of_trimmed. destruct Htrim as [Hs He]. split.
  - apply collapse_clean, Hs.
  - apply collapse_trim_end, He.
Qed.

Lemma collapse_key (k : string) :
  all_chars settled_char k = true -> trimmed k ->
  all_chars settled_char (collapse_spaces k) = true /\ trimmed (collapse_spaces k).
Proof.
  intros Hset [Hs He]. split; [apply collapse_all; [reflexivity | exact Hset] |].
  split; [apply collapse_clean, Hs | apply collapse_trim_end, He].
Qed.

(** A second pass of [norm] may still change a key, a third never does;
    and a key without a run of spaces is already stable. *)
Lemma norm_settles (s : option string) :
  norm (Some (norm (Some (norm s)))) = norm (Some (norm s)) /\
  (collapse_spaces (norm s) = norm s -> norm (Some (norm s)) = norm s).
Proof.
  destruct (norm_key s) as [Hset Htrim].
  rewrite (norm_of_key (norm s) Hset Htrim).
  destruct (collapse_key (norm s) Hset Htrim) as [Hset' Htrim'].
  rewrite (norm_of_key _ Hset' Htrim'). split.
  - apply collapse_idem.
  - auto.
Qed.

(** ** Objects and the alias tables *)

Section Entries.
Context {V : Type}.
Implicit Types (o : list (string * V)) (k : string) (v : V).

Lemma entry_get_set_eq o k v : entry_get k (entry_set k v o) = Some v.
Proof.
  induction o as [| [k' v'] o IH]; cbn.
  - rewrite String.eqb_refl. reflexivity.
  - destruct (String.eqb k k') eqn:E; cbn; rewrite ?String.eqb_refl, ?E; auto.
Qed.

Lemma entry_get_set_ne o k k' v :
  k <> k' -> entry_get k' (entry_set k v o) = entry_get k' o.
Proof.
  intros Hne. induction o as [| [k0 v0] o IH]; cbn.
  - apply String.eqb_neq in Hne. rewrite String.eqb_sym, Hne. reflexivity.
  - destruct (String.eqb k k0) eqn:E; cbn.
    + apply String.eqb_eq in E. subst k0.
      assert (E' : String.eqb k' k = false) by (apply String.eqb_neq; congruence).
      rewrite E'. reflexivity.
    + rewrite IH. reflexivity.
Qed.

Lemma entry_get_None_not_In o k :
  entry_get k o = None <-> ~ In k (map fst o).
Proof.
  induction o as [| [k' v'] o IH]; cbn; [tauto |].
  destruct (String.eqb_spec k k') as [-> | Hne].
  - split; [discriminate | intros H; exfalso; apply H; auto].
  - rewrite IH. split; [intros H [E | HI]; [congruence | auto] | tauto].
Qed.

Lemma entry_get_Some_In o k v : entry_get k o = Some v -> In (k, v) o.
Proof.
  induction o as [| [k' v'] o IH]; cbn; [discriminate |].
  destruct (String.eqb_spec k k') as [-> | Hne].
  - intros [= ->]. auto.
  - auto.
Qed.

Lemma In_entry_get o k v :
  NoDup (map fst o) -> In (k, v) o -> entry_get k o = Some v.
Proof.
  induction o as [| [k' v'] o IH]; cbn; [tauto |].
  intros Hnd [E | HI]; inversion Hnd as [| ? ? Hnot Hnd']; subst;
    rewrite list_elem_of_In in Hnot.
  - inversion E; subst. rewrite String.eqb_refl. reflexivity.
  - destruct (String.eqb_spec k k') as [-> | Hne]; [| auto].
    exfalso. apply Hnot. apply (in_map fst) in HI. exact HI.
Qed.

(** Writing a key that is not there appends the entry. *)
Lemma entry_set_fresh o k v :
  entry_get k o = None -> entry_set k v o = (o ++ [(k, v)])%list.
Proof.
  induction o as [| [k' v'] o IH]; cbn; [reflexivity |].
  destruct (String.eqb k k'); [discriminate |].
  intros H. rewrite IH by exact H. reflexivity.
Qed.

Lemma entry_set_keys o k v :
  forall k', In k' (map fst (entry_set k v o)) <-> k' = k \/ In k' (map fst o).
Proof.
  induction o as [| [k0 v0] o IH]; cbn; intros k'.
  - intuition.
  - destruct (String.eqb_spec k k0) as [-> | Hne]; cbn.
    + intuition.
    + rewrite IH. intuition.
Qed.

Lemma entry_set_NoDup o k v :
  NoDup (map fst o) -> NoDup (map fst (entry_set k v o)).
Proof.
  induction o as [| [k0 v0] o IH]; cbn; intros Hnd.
  - constructor; [rewrite list_elem_of_In; intros [] | constructor].
  - inversion Hnd as [| ? ? Hnot Hnd']; subst.
    destruct (String.eqb_spec k k0) as [-> | Hne]; cbn.
    + constructor; assumption.
    + constructor; [| auto].
      rewrite list_elem_of_In in *.
      rewrite entry_set_keys. intros [E | HI]; [congruence | auto].
Qed.

(** Entries with pairwise distinct keys are stored as they come. *)
Lemma fold_entry_set_distinct (es : list (string * V)) : forall o,
  NoDup (map fst es) ->
  (forall k, In k (map fst es) -> entry_get k o = None) ->
  fold_left (fun o kv => entry_set (fst kv) (snd kv) o) es o = (o ++ es)%list.
Proof.
  induction es as [| [k v] es IH]; cbn; intros o Hnd Hfresh.
  - rewrite app_nil_r. reflexivity.
  - inversion Hnd as [| ? ? Hnot Hnd']; subst.
    rewrite list_elem_of_In in Hnot.
    rewrite entry_set_fresh by auto.
    rewrite IH; [rewrite <- app_assoc; reflexivity | exact Hnd' |].
    intros k' Hk'. apply entry_get_None_not_In.
    rewrite map_app. cbn. intros HI. apply in_app_or in HI.
    destruct HI as [HI | [E | []]].
    + specialize (Hfresh k' (or_intror Hk')).
      apply entry_get_None_not_In in Hfresh. auto.
    + subst k'. auto.
Qed.

Lemma Object_fromEntries_distinct (es : list (string * V)) :
  NoDup (map fst es) -> Object_fromEntries es = es.
Proof.
  intros Hnd. unfold Object_fromEntries.
  rewrite fold_entry_set_distinct; auto.
Qed.
End Entries.

Lemma entry_set_set {V : Type} (k : string) (v1 v2 : V) (o : list (string * V)) :
  entry_set k v2 (entry_set k v1 o) = entry_set k v2 o.
Proof.
  induction o as [| [k' v'] o IH]; cbn.
  - rewrite String.eqb_refl. reflexivity.
  - destruct (String.eqb k k') eqn:E; cbn; rewrite ?String.eqb_refl, ?E; congruence.
Qed.

Lemma entry_get_set {V : Type} (k k' : string) (v : V) (o : list (string * V)) :
  entry_get k' (entry_set k v o) = if String.eqb k k' then Some v else entry_get k' o.
Proof.
  destruct (String.eqb_spec k k') as [-> | Hne].
  - apply entry_get_set_eq.
  - apply entry_get_set_ne, Hne.
Qed.

Lemma entry_get_map_values {V W : Type} (f : V -> W) (k : string)
    (o : list (string * V)) :
  entry_get k (map (fun kv => (fst kv, f (snd kv))) o) = option_map f (entry_get k o).
Proof.
  induction o as [| [k' v'] o IH]; cbn; [reflexivity |].
  destruct (String.eqb k k'); [reflexivity | exact IH].
Qed.

Lemma entry_get_Some_keys {V : Type} (k : string) (o : list (string * V)) :
  In k (map fst o) <-> exists v, entry_get k o = Some v.
Proof.
  destruct (entry_get k o) as [v |] eqn:E.
  - split; [intros _; eauto |]. intros _.
    apply entry_get_Some_In in E. apply (in_map fst) in E. exact E.
  - apply entry_get_None_not_In in E. split; [tauto | intros [v Hv]; discriminate Hv].
Qed.

Lemma insert_indexed_Permutation {V : Type} (n : N) (kv : string * V)
    (l : list (N * (string * V))) :
  Permutation (map snd (insert_indexed n kv l)) (kv :: map snd l).
Proof.
  induction l as [| [m kv'] l IH]; cbn [insert_indexed map snd]; [reflexivity |].
  destruct (n <? m)%N; cbn [map snd]; [reflexivity |].
  rewrite IH. apply perm_swap.
Qed.

(** [Object.entries] lists every entry once. *)
Lemma Object_entries_Permutation {V : Type} (o : list (string * V)) :
  Permutation (Object_entries o) o.
Proof.
  unfold Object_entries.
  induction o as [| kv o IH]; cbn [indexed_entries named_entries]; [reflexivity |].
  destruct (array_index (fst kv)).
  - rewrite insert_indexed_Permutation. cbn [app]. rewrite IH. reflexivity.
  - rewrite <- Permutation_middle, IH. reflexivity.
Qed.

Lemma Object_entries_In {V : Type} (o : list (string * V)) (kv : string * V) :
  In kv (Object_entries o) <-> In kv o.
Proof.
  split; apply Permutation_in;
    [| symmetry]; apply Object_entries_Permutation.
Qed.

(** Without array indices among the keys the order is the insertion
    order. *)
Lemma Object_entries_named {V : Type} (o : list (string * V)) :
  (forall kv, In kv o -> array_index (fst kv) = None) -> Object_entries o = o.
Proof.
  unfold Object_entries. induction o as [| kv o IH]; intros Hnone; [reflexivity |].
  cbn [indexed_entries named_entries].
  rewrite (Hnone kv (or_introl eq_refl)).
  assert (Hrest : forall kv0, In kv0 o -> array_index (fst kv0) = None)
    by (intros kv0 Hin; apply Hnone; right; exact Hin).
  specialize (IH Hrest).
  destruct (indexed_entries o) as [| e es] eqn:E.
  - cbn [map app] in IH |- *. rewrite IH. reflexivity.
  - exfalso. cbn [map app] in IH.
    assert (Hin : In (snd e) o) by (rewrite <- IH; left; reflexivity).
    assert (Hidx : forall (o0 : list (string * V)) e0,
              In e0 (indexed_entries o0) -> array_index (fst (snd e0)) <> None).
    { clear. induction o0 as [| kv0 o0 IH0]; intros e0; cbn [indexed_entries];
        [intros [] |].
      destruct (array_index (fst kv0)) as [n |] eqn:E0; [| apply IH0].
      intros Hin.
      assert (Hcases : forall l, In e0 (insert_indexed n kv0 l) ->
                                 e0 = (n, kv0) \/ In e0 l).
      { induction l as [| [m kv'] l IHl]; cbn [insert_indexed].
        - intros [<- | []]. left. reflexivity.
        - destruct (n <? m)%N; cbn [In].
          + intros [<- | H]; auto.
          + intros [<- | H]; [right; left; reflexivity |].
            destruct (IHl H) as [-> | H']; auto. }
      destruct (Hcases _ Hin) as [-> | H]; [cbn; congruence | apply IH0, H]. }
    apply (Hidx o e); [rewrite E; left; reflexivity | apply Hrest, Hin].
Qed.

Lemma reverse_table_distinct (fwd : list (string * string)) :
  NoDup (map snd (Object_entries fwd)) ->
  reverse_table fwd = map (fun kv => (snd kv, fst kv)) (Object_entries fwd).
Proof.
  intros Hnd. unfold reverse_table.
  apply Object_fromEntries_distinct.
  rewrite map_map. cbn. exact Hnd.
Qed.

(** C5. Alias round trip: in a forward table without duplicate targets,
    the reverse table built from it sends the target of every key back to
    that key; [NAME_ALIASES] has no duplicate target, so every CSV key it
    maps is found again through [REVERSE_ALIASES]. *)
Theorem alias_round_trip :
  (forall fwd : list (string * string),
     NoDup (map snd (Object_entries fwd)) ->
     forall a b, entry_get a fwd = Some b ->
                 entry_get b (reverse_table fwd) = Some a) /\
  NoDup (map snd (Object_entries NAME_ALIASES)) /\
  (forall a b, entry_get a NAME_ALIASES = Some b ->
               entry_get b REVERSE_ALIASES = Some a).
Proof.
  assert (Hgen : forall fwd : list (string * string),
     NoDup (map snd (Object_entries fwd)) ->
     forall a b, entry_get a fwd = Some b ->
                 entry_get b (reverse_table fwd) = Some a).
  { intros fwd Hnd a b Hab.
    rewrite reverse_table_distinct by exact Hnd.
    apply In_entry_get.
    - rewrite map_map. cbn. exact Hnd.
    - apply entry_get_Some_In, Object_entries_In in Hab.
      apply (in_map (fun kv => (snd kv, fst kv))) in Hab. exact Hab. }
  assert (Hnd : NoDup (map snd (Object_entries NAME_ALIASES))).
  { apply (bool_decide_unpack _). vm_compute. reflexivity. }
  split; [exact Hgen |]. split; [exact Hnd |].
  intros a b. apply Hgen. exact Hnd.
Qed.

Lemma alias_round_trip_witness :
  entry_get "31" REVERSE_ALIASES = Some "tamil nadu".
Proof.
  apply (proj2 (proj2 alias_round_trip) "tamil nadu" "31"). reflexivity.
Defined.

(** ** The boundary loader *)

Section BoundaryProofs.
Variable topoFeature : json -> option json -> outcome json.

Lemma loadBoundaries_decoded url resp data :
  resp_ok resp = true -> resp_json resp = Some data ->
  loadBoundaries topoFeature url (Some resp) =
    if is_type (discriminant data) "Topology" then
      match first_named_object data with
      | Thrown e => Thrown e
      | Returned object => topoFeature data object
      end
    else if is_type (discriminant data) "FeatureCollection" then Returned data
    else match data with
         | JNull => Thrown TypeError
         | _ => Thrown (UnrecognizedDataType (discriminant data))
         end.
Proof.
  intros Hok Hjson. unfold loadBoundaries, first_named_object.
  rewrite Hok, Hjson. cbn [negb].
  destruct data; reflexivity.
Qed.

(** C7, as the code has it.  [loadBoundaries] raises when the fetch does
    not succeed and when the discriminant is neither ['Topology'] nor
    ['FeatureCollection']; on ['FeatureCollection'] it returns the
    document unchanged; on ['Topology'] it returns what the extraction
    makes of the first named geometry object, and raises when there is
    no [objects] field to read or when the extraction raises.  Every
    error is one of these, or a body that does not decode. *)
Theorem loadBoundaries_outcomes (url : string) (fetched : option Response) :
  (fetch_succeeded fetched = false ->
     raises (loadBoundaries topoFeature url fetched)) /\
  (forall resp data,
     fetched = Some resp -> resp_ok resp = true -> resp_json resp = Some data ->
     (accepted_type data = false ->
        raises (loadBoundaries topoFeature url fetched)) /\
     (is_type (discriminant data) "FeatureCollection" = true ->
        loadBoundaries topoFeature url fetched = Returned data) /\
     (is_type (discriminant data) "Topology" = true ->
        loadBoundaries topoFeature url fetched =
          match first_named_object data with
          | Thrown e => Thrown e
          | Returned object => topoFeature data object
          end)) /\
  (raises (loadBoundaries topoFeature url fetched) ->
     fetch_succeeded fetched = false \/
     exists resp, fetched = Some resp /\
       (resp_json resp = None \/
        exists data, resp_json resp = Some data /\
          (accepted_type data = false \/
           is_type (discriminant data) "Topology" = true /\
           (raises (first_named_object data) \/
            exists object, first_named_object data = Returned object /\
                           raises (topoFeature data object))))).
Proof.
  split; [| split].
  - destruct fetched as [resp |]; cbn.
    + intros ->. cbn. eexists; reflexivity.
    + intros _. eexists; reflexivity.
  - intros resp data -> Hok Hjson.
    rewrite (loadBoundaries_decoded url resp data Hok Hjson).
    unfold accepted_type.
    destruct (is_type (discriminant data) "Topology") eqn:ET;
      destruct (is_type (discriminant data) "FeatureCollection") eqn:EF;
      cbn [orb]; repeat apply conj; intros H; try discriminate H; try reflexivity.
    + destruct (discriminant data) as [[]|]; cbn in ET, EF; try discriminate.
      apply String.eqb_eq in ET, EF. congruence.
    + destruct data; eexists; reflexivity.
  - intros Hr. destruct fetched as [resp |]; [| left; reflexivity].
    destruct (resp_ok resp) eqn:Hok; [| left; exact Hok].
    right. exists resp. split; [reflexivity |].
    destruct (resp_json resp) as [data |] eqn:Hjson; [| left; reflexivity].
    right. exists data. split; [reflexivity |].
    rewrite (loadBoundaries_decoded url resp data Hok Hjson) in Hr.
    unfold accepted_type.
    destruct (is_type (discriminant data) "Topology") eqn:ET.
    + right. split; [reflexivity |].
      destruct (first_named_object data) as [object | e].
      * right. exists object. split; [reflexivity | exact Hr].
      * left. eexists; reflexivity.
    + destruct (is_type (discriminant data) "FeatureCollection") eqn:EF.
      * destruct Hr as [e He]. discriminate He.
      * left. reflexivity.
Qed.
End BoundaryProofs.

Lemma loadBoundaries_outcomes_witness :
  let doc := JObject [("type", JString "FeatureCollection"); ("features", JArray [])] in
  let extract := fun (data : json) (_ : option json) => Returned data in
  loadBoundaries extract "map.json"
    (Some {| resp_ok := true; resp_status := 200; resp_json := Some doc |})
  = Returned doc /\
  raises (loadBoundaries extract "map.json"
    (Some {| resp_ok := false; resp_status := 404; resp_json := None |})).
Proof.
  intros doc extract. split.
  - apply (proj1 (proj2 (proj1 (proj2
      (loadBoundaries_outcomes extract "map.json"
         (Some {| resp_ok := true; resp_status := 200; resp_json := Some doc |})))
      _ doc eq_refl eq_refl eq_refl))).
    reflexivity.
  - apply (proj1 (loadBoundaries_outcomes extract "map.json"
      (Some {| resp_ok := false; resp_status := 404; resp_json := None |}))).
    reflexivity.
Defined.

(** C7 as stated fails: a document whose type is ['Topology'] but which
    has no [objects] field is fetched and decoded successfully, carries an
    accepted discriminant, and still makes [loadBoundaries] raise. *)
Lemma loadBoundaries_raises_on_topology_without_objects :
  let doc := JObject [("type", JString "Topology")] in
  let fetched :=
    Some {| resp_ok := true; resp_status := 200; resp_json := Some doc |} in
  let extract := fun (data : json) (_ : option json) => Returned data in
  fetch_succeeded fetched = true /\
  accepted_type doc = true /\
  loadBoundaries extract "map.json" fetched = Thrown TypeError /\
  ~ (raises (loadBoundaries extract "map.json" fetched) <->
     fetch_succeeded fetched = false \/ accepted_type doc = false).
Proof.
  cbn. repeat apply conj; try reflexivity.
  intros [H _]. destruct H as [H | H]; [eexists; reflexivity | discriminate H ..].
Qed.

(** ** Sorting *)

Section SortProofs.
Context {A : Type}.
Variable cmp : A -> A -> number.

Lemma sort_insert_In (x : A) (l : list A) (y : A) :
  In y (sort_insert cmp x l) <-> y = x \/ In y l.
Proof.
  induction l as [| a l IH]; cbn [sort_insert].
  - cbn. intuition.
  - destruct (num_ltb (Fin 0) (cmp x a)); cbn [In].
    + rewrite IH. intuition.
    + intuition.
Qed.

Lemma Array_sort_In (l : list A) (y : A) : In y (Array_sort cmp l) <-> In y l.
Proof.
  induction l as [| a l IH]; cbn [Array_sort foldr]; [reflexivity |].
  fold (Array_sort cmp l). rewrite sort_insert_In, IH. cbn. intuition.
Qed.

Lemma Array_sort_Forall (Q : A -> Prop) (l : list A) :
  Forall Q l -> Forall Q (Array_sort cmp l).
Proof.
  rewrite !List.Forall_forall. intros H y Hy. apply H, Array_sort_In, Hy.
Qed.

Section Domain.
(** The elements the comparator is consistent on. *)
Variable P : A -> Prop.

Section Strict.
Variable apart : A -> A -> Prop.
Hypothesis after_trans : forall x y z, P x -> P y -> P z ->
  sorts_after cmp z y -> sorts_after cmp y x -> sorts_after cmp z x.
Hypothesis apart_ordered : forall x y, P x -> P y -> apart x y ->
  sorts_after cmp x y \/ sorts_after cmp y x.

Lemma sort_insert_strict (x : A) (l : list A) :
  P x -> Forall P l -> Forall (apart x) l ->
  StronglySorted (fun a b => sorts_after cmp b a) l ->
  StronglySorted (fun a b => sorts_after cmp b a) (sort_insert cmp x l).
Proof.
  intros Px HP Hap Hs. induction Hs as [| a l Hs IH Ha]; cbn [sort_insert].
  - constructor; [constructor | constructor].
  - inversion HP as [| ? ? Pa HP']; subst. inversion Hap as [| ? ? Hxa Hap']; subst.
    destruct (num_ltb (Fin 0) (cmp x a)) eqn:E.
    + constructor; [apply IH; assumption |].
      rewrite List.Forall_forall. intros y Hy. apply sort_insert_In in Hy.
      destruct Hy as [-> | Hy]; [exact E |].
      rewrite List.Forall_forall in Ha. apply Ha, Hy.
    + assert (Hax : sorts_after cmp a x).
      { destruct (apart_ordered x a Px Pa Hxa) as [H | H]; [| exact H].
        unfold sorts_after in H. congruence. }
      constructor; [constructor; assumption |].
      constructor; [exact Hax |].
      rewrite List.Forall_forall in *. intros y Hy.
      apply (after_trans x a y Px Pa (HP' y Hy) (Ha y Hy) Hax).
Qed.

Lemma Array_sort_strict (l : list A) :
  Forall P l -> ForallOrdPairs apart l ->
  StronglySorted (fun a b => sorts_after cmp b a) (Array_sort cmp l).
Proof.
  intros HP Hpairs. induction Hpairs as [| a l Ha Hpairs IH];
    cbn [Array_sort foldr]; [constructor |].
  fold (Array_sort cmp l). inversion HP as [| ? ? Pa HP']; subst.
  apply sort_insert_strict; [exact Pa | | | apply IH; exact HP'].
  - apply Array_sort_Forall, HP'.
  - apply Array_sort_Forall, Ha.
Qed.
End Strict.

Section Weak.
Hypothesis after_asym : forall x y, P x -> P y ->
  sorts_after cmp x y -> ~ sorts_after cmp y x.
Hypothesis not_after_trans : forall x y z, P x -> P y -> P z ->
  ~ sorts_after cmp x y -> ~ sorts_after cmp y z -> ~ sorts_after cmp x z.

Lemma sort_insert_sorted (x : A) (l : list A) :
  P x -> Forall P l ->
  StronglySorted (fun a b => ~ sorts_after cmp a b) l ->
  StronglySorted (fun a b => ~ sorts_after cmp a b) (sort_insert cmp x l).
Proof.
  intros Px HP Hs. induction Hs as [| a l Hs IH Ha]; cbn [sort_insert].
  - constructor; [constructor | constructor].
  - inversion HP as [| ? ? Pa HP']; subst.
    destruct (num_ltb (Fin 0) (cmp x a)) eqn:E.
    + constructor; [apply IH; assumption |].
      rewrite List.Forall_forall. intros y Hy. apply sort_insert_In in Hy.
      destruct Hy as [-> | Hy]; [apply (after_asym x a Px Pa E) |].
      rewrite List.Forall_forall in Ha. apply Ha, Hy.
    + assert (Hxa : ~ sorts_after cmp x a) by (unfold sorts_after; congruence).
      constructor; [constructor; assumption |].
      constructor; [exact Hxa |].
      rewrite List.Forall_forall in *. intros y Hy.
      apply (not_after_trans x a y Px Pa (HP' y Hy) Hxa (Ha y Hy)).
Qed.

Lemma Array_sort_sorted (l : list A) :
  Forall P l ->
  StronglySorted (fun a b => ~ sorts_after cmp a b) (Array_sort cmp l).
Proof.
  intros HP. induction l as [| a l IH]; cbn [Array_sort foldr]; [constructor |].
  fold (Array_sort cmp l). inversion HP as [| ? ? Pa HP']; subst.
  apply sort_insert_sorted; [exact Pa | apply Array_sort_Forall, HP' | apply IH, HP'].
Qed.
End Weak.
End Domain.
End SortProofs.

(** The default sort puts distinct strings in strictly increasing
    code-unit order. *)
Lemma sort_strings_strict (l : list string) :
  NoDup l ->
  StronglySorted (fun s t => String.ltb s t = true) (Array_sort string_cmp l).
Proof.
  intros Hnd.
  assert (Hafter : forall s t, sorts_after string_cmp s t <-> String.compare t s = Lt).
  { intros s t. unfold sorts_after, string_cmp.
    rewrite (String.compare_antisym t s).
    destruct (String.compare s t); cbn; intuition discriminate. }
  eapply StronglySorted_impl;
    [| apply (Array_sort_strict string_cmp (fun _ => True) (fun a b => a <> b))].
  - intros s t H. apply Hafter in H. unfold String.ltb. rewrite H. reflexivity.
  - intros x y z _ _ _. rewrite !Hafter. intros H1 H2.
    apply OrderedTypeEx.String_as_OT.cmp_lt.
    apply OrderedTypeEx.String_as_OT.cmp_lt in H1, H2.
    eapply OrderedTypeEx.String_as_OT.lt_trans; eassumption.
  - intros x y _ _ Hne. rewrite !Hafter.
    destruct (String.compare y x) eqn:E.
    + apply String.compare_eq_iff in E. congruence.
    + left. reflexivity.
    + right. rewrite String.compare_antisym, E. reflexivity.
  - rewrite List.Forall_forall. intros; exact I.
  - apply NoDup_ForallOrdPairs, Hnd.
Qed.

(** The comparator [(a, b) => a - b] puts finite numbers that are
    pairwise different in strictly ascending order. *)
Lemma sort_numbers_strict (l : list number) :
  Forall is_finite l ->
  ForallOrdPairs (fun a b => num_eqb a b = false) l ->
  StronglySorted (fun a b => num_ltb a b = true) (Array_sort num_sub l).
Proof.
  intros Hfin Hpairs.
  assert (Hafter : forall p q, sorts_after num_sub (Fin p) (Fin q) <-> (q < p)%Q).
  { intros p q. unfold sorts_after. cbn. rewrite negb_true_iff, Qle_bool_false_iff.
    split; intros; lra. }
  eapply StronglySorted_impl;
    [| apply (Array_sort_strict num_sub is_finite (fun a b => num_eqb a b = false))].
  - intros a b H. unfold sorts_after in H.
    destruct a as [| | p |], b as [| | q |]; cbn in H |- *; try discriminate H;
      try reflexivity.
    rewrite negb_true_iff, Qle_bool_false_iff in H |- *. lra.
  - intros x y z [p ->] [q ->] [r ->]. rewrite !Hafter. intros; lra.
  - intros x y [p ->] [q ->] Hne. rewrite !Hafter. cbn in Hne.
    assert (~ (p == q)%Q) by (rewrite <- Qeq_bool_iff; congruence).
    destruct (Q_dec p q) as [[H' | H'] | H']; [right | left | contradiction]; exact H'.
  - exact Hfin.
  - exact Hpairs.
Qed.

(** ** The rainfall table *)

Section TableProofs.
Variable StringToNumber : string -> number.

(** One step of the grouping loop, in one write. *)
Lemma groupRows_step (row : Row) (rows : list Row) (tmp : list (string * list Row)) :
  groupRows (row :: rows) tmp =
    match regionOf row with
    | None => groupRows rows tmp
    | Some sub =>
        groupRows rows
          (entry_set sub (default [] (entry_get sub tmp) ++ [row])%list tmp)
    end.
Proof.
  cbn [groupRows]. unfold regionOf.
  destruct (entry_get "SUBDIVISION" row) as [sub |]; [| reflexivity].
  destruct (nonempty sub); cbn [negb]; [| reflexivity].
  destruct (entry_get sub tmp) as [arr |] eqn:E.
  - rewrite E. reflexivity.
  - rewrite entry_get_set_eq, entry_set_set. reflexivity.
Qed.

(** After grouping, the sequence of a region is made of the rows of that
    region, in the order of the input. *)
Lemma groupRows_get (rows : list Row) : forall tmp sub,
  entry_get sub (groupRows rows tmp) =
    match entry_get sub tmp with
    | Some arr => Some (arr ++ List.filter (in_region sub) rows)%list
    | None =>
        match List.filter (in_region sub) rows with
        | [] => None
        | added => Some added
        end
    end.
Proof.
  induction rows as [| row rows IH]; intros tmp sub.
  - cbn. destruct (entry_get sub tmp); [rewrite app_nil_r |]; reflexivity.
  - rewrite groupRows_step. cbn [List.filter].
    destruct (regionOf row) as [s |] eqn:Hreg.
    + assert (Hin : in_region sub row = String.eqb s sub)
        by (unfold in_region; rewrite Hreg; reflexivity).
      rewrite IH, entry_get_set, Hin.
      destruct (String.eqb_spec s sub) as [-> | Hne]; [| reflexivity].
      destruct (entry_get sub tmp) as [arr |]; cbn [default].
      * rewrite <- app_assoc. reflexivity.
      * reflexivity.
    + assert (Hin : in_region sub row = false)
        by (unfold in_region; rewrite Hreg; reflexivity).
      rewrite IH, Hin. reflexivity.
Qed.

Lemma groupRows_NoDup (rows : list Row) : forall tmp,
  NoDup (map fst tmp) -> NoDup (map fst (groupRows rows tmp)).
Proof.
  induction rows as [| row rows IH]; intros tmp Hnd; [exact Hnd |].
  rewrite groupRows_step. destruct (regionOf row); [| apply IH, Hnd].
  apply IH, entry_set_NoDup, Hnd.
Qed.

(** Sorting the groups keeps the keys and sorts each sequence. *)
Lemma sortGroups_fold (tmp : list (string * list Row)) : forall data,
  sortGroups StringToNumber tmp data =
    fold_left (fun o kv => entry_set (fst kv) (snd kv) o)
      (map (fun kv => (fst kv, Array_sort (byYear StringToNumber) (snd kv))) tmp) data.
Proof.
  induction tmp as [| [sub arr] tmp IH]; intros data; cbn; [reflexivity | apply IH].
Qed.

Lemma sortGroups_distinct (tmp : list (string * list Row)) :
  NoDup (map fst tmp) ->
  sortGroups StringToNumber tmp [] =
    map (fun kv => (fst kv, Array_sort (byYear StringToNumber) (snd kv))) tmp.
Proof.
  intros Hnd. rewrite sortGroups_fold. apply Object_fromEntries_distinct.
  rewrite map_map. cbn. exact Hnd.
Qed.

Lemma tableOf_get (rows : list Row) (sub : string) :
  entry_get sub (tableOf StringToNumber rows) =
    match List.filter (in_region sub) rows with
    | [] => None
    | added => Some (Array_sort (byYear StringToNumber) added)
    end.
Proof.
  unfold tableOf. rewrite sortGroups_distinct by (apply groupRows_NoDup; constructor).
  rewrite entry_get_map_values, groupRows_get. cbn [entry_get].
  destruct (List.filter (in_region sub) rows); reflexivity.
Qed.

Lemma tableOf_NoDup (rows : list Row) : NoDup (map fst (tableOf StringToNumber rows)).
Proof.
  unfold tableOf. rewrite sortGroups_distinct by (apply groupRows_NoDup; constructor).
  rewrite map_map. cbn. apply groupRows_NoDup. constructor.
Qed.

Lemma in_region_iff (sub : string) (row : Row) :
  in_region sub row = true <-> regionOf row = Some sub.
Proof.
  unfold in_region. destruct (regionOf row) as [s |]; [| split; discriminate].
  rewrite String.eqb_eq. split; congruence.
Qed.

(** A row is in the sequence of [sub] exactly when it is an input row of
    that region. *)
Lemma tableOf_member (rows : list Row) (sub : string) (row : Row) :
  (exists arr, entry_get sub (tableOf StringToNumber rows) = Some arr /\ In row arr) <->
  In row rows /\ regionOf row = Some sub.
Proof.
  rewrite tableOf_get, <- in_region_iff, <- List.filter_In.
  destruct (List.filter (in_region sub) rows) as [| r added] eqn:E.
  - split; [intros (arr & H & _); discriminate H | intros []].
  - split.
    + intros (arr & Harr & Hin). injection Harr as <-.
      apply (Array_sort_In (byYear StringToNumber) (r :: added)) in Hin. exact Hin.
    + intros Hin. eexists. split; [reflexivity |].
      apply (Array_sort_In (byYear StringToNumber) (r :: added)). exact Hin.
Qed.

Lemma tableOf_keys (rows : list Row) (sub : string) :
  In sub (map fst (tableOf StringToNumber rows)) <->
  exists row, In row rows /\ regionOf row = Some sub.
Proof.
  rewrite entry_get_Some_keys. split.
  - intros [arr Harr].
    assert (Hne : arr <> []).
    { intros ->. rewrite tableOf_get in Harr.
      destruct (List.filter (in_region sub) rows) as [| r added] eqn:E;
        [discriminate Harr |].
      injection Harr as Hnil.
      assert (Hr : In r (Array_sort (byYear StringToNumber) (r :: added)))
        by (apply Array_sort_In; left; reflexivity).
      exact (eq_ind _ (In r) Hr _ Hnil). }
    destruct arr as [| row arr]; [congruence |].
    exists row. apply (tableOf_member rows sub row).
    exists (row :: arr). split; [exact Harr | left; reflexivity].
  - intros (row & Hin & Hreg).
    destruct (proj2 (tableOf_member rows sub row) (conj Hin Hreg)) as (arr & Harr & _).
    eauto.
Qed.
End TableProofs.

(** *** The set of years *)

Lemma Set_add_year_set (y : number) (s : list number) :
  is_finite y -> year_set s -> year_set (Set_add y s).
Proof.
  intros Hy [Hfin Hpairs]. unfold Set_add.
  destruct (existsb (num_eqb y) s) eqn:E; [split; assumption |].
  split.
  - apply Forall_app. split; [exact Hfin | constructor; [exact Hy | constructor]].
  - apply ForallOrdPairs_snoc; [exact Hpairs |].
    rewrite List.Forall_forall. intros x Hx.
    rewrite num_eqb_sym.
    destruct (num_eqb y x) eqn:Eyx; [| reflexivity].
    assert (existsb (num_eqb y) s = true) by (apply existsb_exists; eauto).
    congruence.
Qed.

Lemma Set_add_In (y : number) (s : list number) (n : number) :
  In n (Set_add y s) -> In n s \/ n = y.
Proof.
  unfold Set_add. destruct (existsb (num_eqb y) s); [auto |].
  intros H. apply in_app_or in H. destruct H as [H | [H | []]]; auto.
Qed.

Lemma Set_add_keeps (y : number) (s : list number) (n : number) :
  In n s -> In n (Set_add y s).
Proof.
  unfold Set_add. destruct (existsb (num_eqb y) s); [auto |].
  intros H. apply in_or_app. auto.
Qed.

Lemma Set_add_has (y : number) (s : list number) :
  is_finite y -> exists n, In n (Set_add y s) /\ num_eqb y n = true.
Proof.
  intros Hy. unfold Set_add. destruct (existsb (num_eqb y) s) eqn:E.
  - apply existsb_exists in E. exact E.
  - exists y. split; [apply in_or_app; right; left; reflexivity |].
    apply num_eqb_refl_finite, Hy.
Qed.

Section YearProofs.
Variable StringToNumber : string -> number.

Lemma addYears_spec (arr : list Row) : forall s,
  year_set s ->
  year_set (addYears StringToNumber arr s) /\
  (forall n, In n s -> In n (addYears StringToNumber arr s)) /\
  (forall n, In n (addYears StringToNumber arr s) ->
     In n s \/ exists r, In r arr /\ yearOf StringToNumber r = n) /\
  (forall r, In r arr -> is_finite (yearOf StringToNumber r) ->
     exists n, In n (addYears StringToNumber arr s) /\
               num_eqb (yearOf StringToNumber r) n = true).
Proof.
  induction arr as [| r arr IH]; intros s Hs; cbn [addYears].
  - split; [exact Hs |]. split; [auto |]. split; [auto | intros r []].
  - set (s1 := if Number_isFinite (Num (yearOf StringToNumber r))
               then Set_add (yearOf StringToNumber r) s else s).
    assert (Hs1 : year_set s1).
    { subst s1. destruct (Number_isFinite (Num (yearOf StringToNumber r))) eqn:E;
        [| exact Hs].
      apply Set_add_year_set; [apply Number_isFinite_iff, E | exact Hs]. }
    assert (Hkeep : forall n, In n s -> In n s1).
    { subst s1. intros n Hn. destruct (Number_isFinite _); [| exact Hn].
      apply Set_add_keeps, Hn. }
    assert (Hfrom : forall n, In n s1 -> In n s \/ yearOf StringToNumber r = n).
    { subst s1. intros n Hn. destruct (Number_isFinite _); [| auto].
      apply Set_add_In in Hn. destruct Hn; auto. }
    destruct (IH s1 Hs1) as (Hset & Hmono & Hin & Hcov).
    split; [exact Hset |]. split; [auto |]. split.
    + intros n Hn. destruct (Hin n Hn) as [H1 | (r' & Hr' & Hy)].
      * destruct (Hfrom n H1) as [H | H]; [auto |].
        right. exists r. split; [left; reflexivity | exact H].
      * right. exists r'. split; [right; exact Hr' | exact Hy].
    + intros r' [<- | Hr'] Hfin; [| apply Hcov; assumption].
      assert (Hhas : exists n, In n s1 /\ num_eqb (yearOf StringToNumber r) n = true).
      { subst s1. rewrite (proj2 (Number_isFinite_iff _) Hfin).
        apply Set_add_has, Hfin. }
      destruct Hhas as (n & Hn & Heq). exists n. split; [apply Hmono, Hn | exact Heq].
Qed.

Lemma collectYears_spec (data : list (string * list Row)) : forall s,
  year_set s ->
  year_set (collectYears StringToNumber data s) /\
  (forall n, In n s -> In n (collectYears StringToNumber data s)) /\
  (forall n, In n (collectYears StringToNumber data s) ->
     In n s \/ exists sub arr r,
       In (sub, arr) data /\ In r arr /\ yearOf StringToNumber r = n) /\
  (forall sub arr r, In (sub, arr) data -> In r arr ->
     is_finite (yearOf StringToNumber r) ->
     exists n, In n (collectYears StringToNumber data s) /\
               num_eqb (yearOf StringToNumber r) n = true).
Proof.
  induction data as [| [sub arr] data IH]; intros s Hs; cbn [collectYears].
  - split; [exact Hs |]. split; [auto |]. split; [auto | intros ? ? ? []].
  - destruct (addYears_spec arr s Hs) as (Hs1 & Hmono1 & Hin1 & Hcov1).
    destruct (IH _ Hs1) as (Hset & Hmono & Hin & Hcov).
    split; [exact Hset |]. split; [auto |]. split.
    + intros n Hn. destruct (Hin n Hn) as [H1 | (sub' & arr' & r & Hd & Hr & Hy)].
      * destruct (Hin1 n H1) as [H | (r & Hr & Hy)]; [auto |].
        right. exists sub, arr, r. split; [left; reflexivity | auto].
      * right. exists sub', arr', r. split; [right; exact Hd | auto].
    + intros sub' arr' r [[= <- <-] | Hd] Hr Hfin.
      * destruct (Hcov1 r Hr Hfin) as (n & Hn & Heq).
        exists n. split; [apply Hmono, Hn | exact Heq].
      * apply (Hcov sub' arr' r Hd Hr Hfin).
Qed.
End YearProofs.

(** *** The order of a region's sequence *)

Section OrderProofs.
Variable StringToNumber : string -> number.

(** When every year of a region parses to a number, sorting by
    [(a, b) => Number(a.YEAR) - Number(b.YEAR)] orders the sequence. *)
Lemma sort_by_year_sorted (arr : list Row) :
  (forall r, In r arr -> yearOf StringToNumber r <> NaN) ->
  sorted_by_year StringToNumber (Array_sort (byYear StringToNumber) arr).
Proof.
  intros Hyears.
  set (P := fun r : Row => yearOf StringToNumber r <> NaN).
  assert (Hafter : forall x y, P x -> P y ->
            (sorts_after (byYear StringToNumber) x y <->
             num_leb (yearOf StringToNumber x) (yearOf StringToNumber y) = false)).
  { intros x y Px Py. unfold sorts_after, byYear.
    rewrite (difference_positive _ _ Px Py), negb_true_iff. reflexivity. }
  assert (Hs : StronglySorted (fun a b => ~ sorts_after (byYear StringToNumber) a b)
                 (Array_sort (byYear StringToNumber) arr)).
  { apply (Array_sort_sorted (byYear StringToNumber) P).
    - intros x y Px Py Hxy Hyx. apply Hafter in Hxy, Hyx; try assumption.
      rewrite (num_leb_total _ _ Px Py Hxy) in Hyx. discriminate Hyx.
    - intros x y z Px Py Pz Hxy Hyz Hxz. apply Hafter in Hxz; try assumption.
      rewrite Hafter in Hxy, Hyz by assumption.
      apply not_false_is_true in Hxy, Hyz.
      rewrite (num_leb_trans _ _ _ Hxy Hyz) in Hxz. discriminate Hxz.
    - rewrite List.Forall_forall. exact Hyears. }
  intros i j ri rj Hij Hi Hj.
  pose proof (StronglySorted_lookup _ _ Hs i j ri rj Hij Hi Hj) as Hnot.
  assert (Pi : P ri).
  { apply Hyears, (Array_sort_In (byYear StringToNumber)), list_elem_of_In,
      (list_elem_of_lookup_2 _ i), Hi. }
  assert (Pj : P rj).
  { apply Hyears, (Array_sort_In (byYear StringToNumber)), list_elem_of_In,
      (list_elem_of_lookup_2 _ j), Hj. }
  destruct (num_leb (yearOf StringToNumber ri) (yearOf StringToNumber rj)) eqn:El;
    [reflexivity |].
  exfalso. apply Hnot. apply (Hafter ri rj Pi Pj). exact El.
Qed.

(** The sequences stored by ingestion are ordered by year for every
    region whose years all parse to numbers. *)
Lemma tableOf_sorted_by_year (rows : list Row) (sub : string) (arr : list Row) :
  (forall row, In row rows -> regionOf row = Some sub ->
               yearOf StringToNumber row <> NaN) ->
  entry_get sub (tableOf StringToNumber rows) = Some arr ->
  sorted_by_year StringToNumber arr.
Proof.
  intros Hyears Harr. rewrite tableOf_get in Harr.
  destruct (List.filter (in_region sub) rows) as [| r added] eqn:E;
    [discriminate Harr |].
  injection Harr as Harr.
  refine (eq_ind _ (sorted_by_year StringToNumber)
            (sort_by_year_sorted (r :: added) _) _ Harr).
  intros row Hrow.
  rewrite <- E in Hrow. apply List.filter_In in Hrow. destruct Hrow as [Hin Hreg].
  apply Hyears; [exact Hin | apply in_region_iff, Hreg].
Qed.
End OrderProofs.

(** ** The value resolver *)

Section ResolverProofs.
Variable StringToNumber : string -> number.

(** The backward scan stops at the last record whose year is at most
    [y]. *)
Lemma scanBack_spec (arr : list Row) (y : value) (n : nat) :
  match scanBack StringToNumber arr y n with
  | Some r =>
      exists i, (i < n)%nat /\ arr !! i = Some r /\
        num_leb (yearOf StringToNumber r) (ToNumber StringToNumber y) = true /\
        forall j rj, (i < j < n)%nat -> arr !! j = Some rj ->
          num_leb (yearOf StringToNumber rj) (ToNumber StringToNumber y) = false
  | None =>
      forall j rj, (j < n)%nat -> arr !! j = Some rj ->
        num_leb (yearOf StringToNumber rj) (ToNumber StringToNumber y) = false
  end.
Proof.
  induction n as [| n IH]; cbn [scanBack].
  - intros; lia.
  - destruct (arr !! n) as [r |] eqn:Hn.
    + destruct (num_leb (yearOf StringToNumber r) (ToNumber StringToNumber y)) eqn:E.
      * exists n. split; [lia |]. split; [exact Hn |]. split; [exact E |].
        intros; lia.
      * destruct (scanBack StringToNumber arr y n) as [r' |].
        -- destruct IH as (i & Hi & Hr & Hle & Hafter).
           exists i. split; [lia |]. split; [exact Hr |]. split; [exact Hle |].
           intros j rj Hj Hrj. destruct (decide (j = n)) as [-> | Hne].
           ++ congruence.
           ++ apply (Hafter j); [lia | exact Hrj].
        -- intros j rj Hj Hrj. destruct (decide (j = n)) as [-> | Hne].
           ++ congruence.
           ++ apply (IH j); [lia | exact Hrj].
    + destruct (scanBack StringToNumber arr y n) as [r' |].
      * destruct IH as (i & Hi & Hr & Hle & Hafter).
        exists i. split; [lia |]. split; [exact Hr |]. split; [exact Hle |].
        intros j rj Hj Hrj. destruct (decide (j = n)) as [-> | Hne].
        -- congruence.
        -- apply (Hafter j); [lia | exact Hrj].
      * intros j rj Hj Hrj. destruct (decide (j = n)) as [-> | Hne].
        -- congruence.
        -- apply (IH j); [lia | exact Hrj].
Qed.

(** [valueFor] unfolded on a region that has records. *)
Lemma valueFor_nonempty data sub y m first rest :
  entry_get sub data = Some (first :: rest) ->
  valueFor StringToNumber data (Some sub) y m =
    ToNumber StringToNumber
      (field
         (match List.find (fun r => strict_eqb (Num (yearOf StringToNumber r)) y)
                  (first :: rest) with
          | Some r => r
          | None =>
              match scanBack StringToNumber (first :: rest) y
                      (length (first :: rest)) with
              | Some r => r
              | None => first
              end
          end)
         (prop_key m)).
Proof.
  intros H. unfold valueFor, mbind, option_bind. rewrite H. reflexivity.
Qed.
(** In a sequence ordered by year, the record the backward scan stops at
    carries the greatest year that is at most [y]. *)
Lemma last_at_most_is_greatest (arr : list Row) (y : number) (i : nat) (r : Row) :
  sorted_by_year StringToNumber arr ->
  arr !! i = Some r ->
  num_leb (yearOf StringToNumber r) y = true ->
  (forall j rj, (i < j)%nat -> arr !! j = Some rj ->
     num_leb (yearOf StringToNumber rj) y = false) ->
  forall r', In r' arr -> num_leb (yearOf StringToNumber r') y = true ->
    num_leb (yearOf StringToNumber r') (yearOf StringToNumber r) = true.
Proof.
  intros Hsorted Hr Hle Hafter r' Hin Hle'.
  apply list_elem_of_In, list_elem_of_lookup in Hin. destruct Hin as [j Hj].
  destruct (lt_eq_lt_dec j i) as [[Hlt | ->] | Hgt].
  - apply (Hsorted j i r' r Hlt Hj Hr).
  - assert (r' = r) by congruence. subst r'.
    apply (num_leb_refl_of_le _ _ Hle).
  - rewrite (Hafter j r' Hgt Hj) in Hle'. discriminate Hle'.
Qed.

(** The resolution order of [valueFor], for every table.  [valueFor]
    never fails and resolves the value in this order: NaN when the region has no record; else the
    value of the (first) record whose year equals [y]; else the value of
    the last record of the sequence whose year is at most [y]; else the
    value of the first record.  The last record whose year is at most [y]
    carries the greatest such year whenever the sequence is ordered by
    year, and ingestion orders the sequence of every region whose years
    all parse to numbers.  For a region whose years are 1980, 1985 and
    1990 the queries 1975, 2025 and 1985 give the values of the 1980, 1990
    and 1985 records. *)
Theorem valueFor_resolution
    (data : list (string * list Row)) (sub : string) (y : value)
    (m : option string) :
  let cell := fun r : Row => ToNumber StringToNumber (field r (prop_key m)) in
  let matches := fun r : Row => strict_eqb (Num (yearOf StringToNumber r)) y in
  let at_most := fun r : Row =>
    num_leb (yearOf StringToNumber r) (ToNumber StringToNumber y) in
  let result := valueFor StringToNumber data (Some sub) y m in
  (entry_get sub data = None \/ entry_get sub data = Some [] -> result = NaN) /\
  (forall arr first,
     entry_get sub data = Some arr -> arr !! 0%nat = Some first ->
     (forall r, In r arr -> matches r = true ->
        exists i r0, arr !! i = Some r0 /\ matches r0 = true /\
          (forall j rj, (j < i)%nat -> arr !! j = Some rj -> matches rj = false) /\
          result = cell r0) /\
     ((forall r, In r arr -> matches r = false) ->
      forall r, In r arr -> at_most r = true ->
        exists i r0, arr !! i = Some r0 /\ at_most r0 = true /\
          (forall j rj, (i < j)%nat -> arr !! j = Some rj -> at_most rj = false) /\
          result = cell r0 /\
          (sorted_by_year StringToNumber arr ->
           forall r', In r' arr -> at_most r' = true ->
             num_leb (yearOf StringToNumber r') (yearOf StringToNumber r0) = true)) /\
     ((forall r, In r arr -> matches r = false) ->
      (forall r, In r arr -> at_most r = false) ->
      result = cell first)) /\
  (forall rows arr,
     data = tableOf StringToNumber rows ->
     (forall row, In row rows -> regionOf row = Some sub ->
                  yearOf StringToNumber row <> NaN) ->
     entry_get sub data = Some arr ->
     sorted_by_year StringToNumber arr) /\
  (forall r1980 r1985 r1990,
     entry_get sub data = Some [r1980; r1985; r1990] ->
     num_eqb (yearOf StringToNumber r1980) (Fin 1980) = true ->
     num_eqb (yearOf StringToNumber r1985) (Fin 1985) = true ->
     num_eqb (yearOf StringToNumber r1990) (Fin 1990) = true ->
     valueFor StringToNumber data (Some sub) (Num (Fin 1975)) m = cell r1980 /\
     valueFor StringToNumber data (Some sub) (Num (Fin 2025)) m = cell r1990 /\
     valueFor StringToNumber data (Some sub) (Num (Fin 1985)) m = cell r1985).
Proof.
  intros cell matches at_most result.
  split; [| split; [| split]].
  - subst result. unfold valueFor, mbind, option_bind.
    intros [-> | ->]; reflexivity.
  - intros arr first Harr Hfirst.
    destruct arr as [| first' rest]; [discriminate Hfirst |].
    cbn in Hfirst. injection Hfirst as ->.
    assert (Hres : result = _)
      by (apply (valueFor_nonempty data sub y m first rest Harr)).
    pose proof (find_first matches (first :: rest)) as Hfind.
    fold matches in Hres.
    destruct (List.find matches (first :: rest)) as [r0 |] eqn:Efind.
    + destruct Hfind as (i & Hi & Hm & Hbefore).
      split; [| split].
      * intros _ _ _. exists i, r0. repeat split; auto.
      * intros Hnone. exfalso.
        apply list_elem_of_lookup_2, list_elem_of_In in Hi.
        rewrite (Hnone r0 Hi) in Hm. discriminate Hm.
      * intros Hnone. exfalso.
        apply list_elem_of_lookup_2, list_elem_of_In in Hi.
        rewrite (Hnone r0 Hi) in Hm. discriminate Hm.
    + pose proof (scanBack_spec (first :: rest) y (length (first :: rest))) as Hscan.
      destruct (scanBack StringToNumber (first :: rest) y (length (first :: rest)))
        as [r0 |] eqn:Escan.
      * destruct Hscan as (i & Hi & Hr0 & Hle & Hafter).
        assert (Hafter' : forall j rj, (i < j)%nat -> (first :: rest) !! j = Some rj ->
                                       at_most rj = false).
        { intros j rj Hj Hrj. apply (Hafter j); [| exact Hrj].
          split; [exact Hj | apply (lookup_lt_Some _ _ _ Hrj)]. }
        split; [| split].
        -- intros r Hin Hm. rewrite (Hfind r Hin) in Hm. discriminate Hm.
        -- intros _ _ _ _. exists i, r0.
           split; [exact Hr0 |]. split; [exact Hle |]. split; [exact Hafter' |].
           split; [exact Hres |].
           intros Hsorted.
           apply (last_at_most_is_greatest (first :: rest) _ i r0
                    Hsorted Hr0 Hle Hafter').
        -- intros _ Hnone. exfalso.
           apply list_elem_of_lookup_2, list_elem_of_In in Hr0.
           unfold at_most in Hnone. rewrite (Hnone r0 Hr0) in Hle. discriminate Hle.
      * split; [| split].
        -- intros r Hin Hm. rewrite (Hfind r Hin) in Hm. discriminate Hm.
        -- intros _ r Hin Hle. exfalso.
           apply list_elem_of_In, list_elem_of_lookup in Hin. destruct Hin as [j Hj].
           unfold at_most in Hle.
           rewrite (Hscan j r (lookup_lt_Some _ _ _ Hj) Hj) in Hle. discriminate Hle.
        -- intros _ _. exact Hres.
  - intros rows arr -> Hyears Harr.
    apply (tableOf_sorted_by_year StringToNumber rows sub arr Hyears Harr).
  - intros r0 r1 r2 Harr H0 H1 H2.
    rewrite !(valueFor_nonempty data sub _ m r0 [r1; r2] Harr).
    apply num_eqb_Fin in H0, H1, H2.
    destruct H0 as (q0 & E0 & Hq0), H1 as (q1 & E1 & Hq1), H2 as (q2 & E2 & Hq2).
    assert (Heq : forall p c, Qeq_bool p c = false <-> ~ (p == c)%Q).
    { intros p c. rewrite <- Qeq_bool_iff.
      destruct (Qeq_bool p c); intuition congruence. }
    assert (Hle : forall p c, Qle_bool p c = false <-> (c < p)%Q)
      by (intros; apply Qle_bool_false_iff).
    cbn [List.find scanBack length lookup list_lookup strict_eqb ToNumber].
    rewrite E0, E1, E2. cbn [num_eqb num_leb].
    repeat split.
    + rewrite (proj2 (Heq q0 1975%Q)), (proj2 (Heq q1 1975%Q)), (proj2 (Heq q2 1975%Q))
        by lra.
      rewrite (proj2 (Hle q2 1975%Q)), (proj2 (Hle q1 1975%Q)), (proj2 (Hle q0 1975%Q))
        by lra.
      reflexivity.
    + rewrite (proj2 (Heq q0 2025%Q)), (proj2 (Heq q1 2025%Q)), (proj2 (Heq q2 2025%Q))
        by lra.
      rewrite (proj2 (Qle_bool_iff q2 2025%Q)) by lra. reflexivity.
    + rewrite (proj2 (Heq q0 1985%Q)) by lra.
      rewrite (proj2 (Qeq_bool_iff q1 1985%Q)) by lra. reflexivity.
Qed.
End ResolverProofs.

Lemma valueFor_resolution_witness :
  let row := fun y v : string => [("SUBDIVISION", "Kerala"); ("YEAR", y); ("JAN", v)] in
  let data := [("Kerala", [row "1980" "11"; row "1985" "22"; row "1990" "33"])] in
  valueFor decimalToNumber data (Some "Kerala") (Num (Fin 1975)) (Some "JAN") = Fin 11 /\
  valueFor decimalToNumber data (Some "Kerala") (Num (Fin 2025)) (Some "JAN") = Fin 33 /\
  valueFor decimalToNumber data (Some "Kerala") (Num (Fin 1985)) (Some "JAN") = Fin 22.
Proof.
  intros row data.
  exact (proj2 (proj2 (proj2
           (valueFor_resolution decimalToNumber data "Kerala" Undefined (Some "JAN"))))
           (row "1980" "11") (row "1985" "22") (row "1990" "33")
           eq_refl eq_refl eq_refl eq_refl).
Defined.

(** ** What updating the ferns leaves alone *)

Lemma frame_refl st : frame st st.
Proof. unfold frame. repeat split. Qed.

Lemma frame_trans st1 st2 st3 : frame st1 st2 -> frame st2 st3 -> frame st1 st3.
Proof.
  unfold frame. intros H1 H2.
  destruct H1 as (?&?&?&?&?&?&?&?&?&?&?&?&?).
  destruct H2 as (?&?&?&?&?&?&?&?&?&?&?&?&?).
  repeat split; congruence.
Qed.

Section StepperProofs.
Variable StringToNumber : string -> number.
Variable rand : nat -> Q.
Variable THREE_Color : string -> Q * Q * Q.


Lemma setFernValue_frame ref v st :
  frame st (setFernValue rand THREE_Color ref v st).
Proof.
  unfold setFernValue.
  destruct (heap st !! ref) as [mesh |]; [| apply frame_refl].
  destruct (buildFernGeometryForValue rand THREE_Color v (draws st)) as [geom k'].
  unfold frame. cbn. rewrite length_insert. repeat split.
Qed.

Lemma updateLoop_frame todo : forall i y m st,
  frame st (updateLoop StringToNumber rand THREE_Color todo i y m st).
Proof.
  induction todo as [| todo IH]; intros i y m st; cbn [updateLoop].
  - apply frame_refl.
  - eapply frame_trans; [| apply IH].
    destruct (fernMeshes st !! i); [apply setFernValue_frame | apply frame_refl].
Qed.

Lemma updateAllFerns_frame st :
  frame st (updateAllFerns StringToNumber rand THREE_Color st).
Proof.
  unfold updateAllFerns.
  destruct (length (fernMeshes st) =? 0)%nat; [apply frame_refl |].
  apply updateLoop_frame.
Qed.

Lemma step_due now st :
  tickDue now st = true ->
  monthIndex (step StringToNumber rand THREE_Color now st)
  = Z.rem (monthIndex st + 1) 12 /\
  yearIndex (step StringToNumber rand THREE_Color now st) = yearIndex st /\
  yearList (step StringToNumber rand THREE_Color now st) = yearList st /\
  tickMs (step StringToNumber rand THREE_Color now st) = tickMs st /\
  lastTime (step StringToNumber rand THREE_Color now st) = now.
Proof.
  intros Hdue. unfold step. rewrite Hdue.
  destruct (updateAllFerns_frame (advanceMonth now st))
    as (_&_&_&_&_&Hy&_&_&Hm&Hi&Ht&Hl&_).
  rewrite Hm, Hi, Hy, Ht, Hl. cbn. repeat split.
Qed.

Lemma step_not_due now st :
  tickDue now st = false -> step StringToNumber rand THREE_Color now st = st.
Proof. intros H. unfold step. rewrite H. reflexivity. Qed.

Lemma step_yearIndex now st :
  yearIndex (step StringToNumber rand THREE_Color now st) = yearIndex st.
Proof.
  destruct (tickDue now st) eqn:E.
  - apply (step_due now st E).
  - rewrite step_not_due by exact E. reflexivity.
Qed.

Lemma runFrames_yearIndex nows : forall st,
  yearIndex (runFrames StringToNumber rand THREE_Color nows st) = yearIndex st.
Proof.
  induction nows as [| now nows IH]; intros st; cbn; [reflexivity |].
  unfold runFrames in IH. rewrite IH. apply step_yearIndex.
Qed.

(** The month index after some frames is the start index moved on by
    the number of advances, modulo twelve. *)
Lemma runFrames_monthIndex nows : forall st,
  (0 <= monthIndex st < 12)%Z ->
  monthIndex (runFrames StringToNumber rand THREE_Color nows st)
  = ((monthIndex st
      + Z.of_nat (advances StringToNumber rand THREE_Color nows st)) mod 12)%Z.
Proof.
  induction nows as [| now nows IH]; intros st Hm; cbn.
  - rewrite Z.add_0_r, Z.mod_small by lia. reflexivity.
  - unfold runFrames in IH.
    destruct (tickDue now st) eqn:E.
    + destruct (step_due now st E) as (Hmi & _).
      assert (Hrem : Z.rem (monthIndex st + 1) 12 = ((monthIndex st + 1) mod 12)%Z)
        by (apply Z.rem_mod_nonneg; lia).
      rewrite IH; rewrite Hmi, Hrem.
      * rewrite Zplus_mod_idemp_l. f_equal. lia.
      * apply Z.mod_pos_bound. lia.
    + rewrite (step_not_due now st E). rewrite IH by exact Hm.
      f_equal.
Qed.

End StepperProofs.

(** ** Building and updating the fern meshes *)

Arguments topoKeyOf : simpl never.
Arguments valueFor : simpl never.
Arguments buildFernGeometryForValue : simpl never.
Arguments norm : simpl never.

Section MeshProofs.
Variable StringToNumber : string -> number.
Variable rand : nat -> Q.
Variable THREE_Color : string -> Q * Q * Q.

Lemma buildFern_spec sub st missing :
  let st' := fst (buildFern StringToNumber rand THREE_Color sub st missing) in
  let missing' := snd (buildFern StringToNumber rand THREE_Color sub st missing) in
  same_inputs st st' /\
  (exists mesh, heap st' = (heap st ++ [mesh])%list /\ placed st sub mesh) /\
  fernMeshes st' = (fernMeshes st ++ [length (heap st)])%list /\
  fernsRoot_children st' = (fernsRoot_children st ++ [length (heap st)])%list /\
  missing' = (missing + if has_anchor st sub then 0 else 1)%nat.
Proof.
  unfold buildFern, createFernMesh, has_anchor.
  destruct (buildFernGeometryForValue rand THREE_Color _ (draws st)) as [geom k'].
  cbn [fst snd]. split; [unfold same_inputs; cbn [geojson anchors scaleBySubdivision
    dataBySubdivision subdivisionList yearList monthIndex yearIndex tickMs lastTime];
    repeat split |].
  split.
  - eexists. split; [reflexivity |]. unfold placed.
    cbn [userData_subdivision userData_key mesh_position mesh_scale default].
    repeat split.
  - cbn [fernMeshes fernsRoot_children]. repeat split.
    destruct (entry_get (topoKeyOf sub) (anchors st)); lia.
Qed.

Lemma same_inputs_placed st st' sub mesh :
  same_inputs st st' -> placed st' sub mesh -> placed st sub mesh.
Proof.
  unfold same_inputs, placed. intros (_ & Ha & Hs & _) (H1 & H2 & H3 & H4).
  rewrite Ha in H3. rewrite Hs in H4. auto.
Qed.

Lemma same_inputs_trans st1 st2 st3 :
  same_inputs st1 st2 -> same_inputs st2 st3 -> same_inputs st1 st3.
Proof.
  unfold same_inputs.
  intros (?&?&?&?&?&?&?&?&?&?) (?&?&?&?&?&?&?&?&?&?).
  repeat split; congruence.
Qed.

(** Loop invariant of [buildAllFerns]: each subdivision adds one mesh at
    the end of the heap and its reference at the end of both lists,
    whatever happened for the subdivisions before it. *)
Lemma buildLoop_spec subs : forall st missing,
  let st' := fst (buildLoop StringToNumber rand THREE_Color subs st missing) in
  let missing' := snd (buildLoop StringToNumber rand THREE_Color subs st missing) in
  same_inputs st st' /\
  (exists meshes, heap st' = (heap st ++ meshes)%list /\
                  Forall2 (placed st) subs meshes) /\
  fernMeshes st' = (fernMeshes st ++ seq (length (heap st)) (length subs))%list /\
  fernsRoot_children st'
    = (fernsRoot_children st ++ seq (length (heap st)) (length subs))%list /\
  missing'
  = (missing + length (List.filter (fun sub => negb (has_anchor st sub)) subs))%nat.
Proof.
  induction subs as [| sub subs IH]; intros st missing; cbn [buildLoop].
  - cbn. split; [unfold same_inputs; repeat split |].
    split; [exists []; split; [rewrite app_nil_r; reflexivity | constructor] |].
    rewrite !app_nil_r. repeat split. lia.
  - pose proof (buildFern_spec sub st missing) as Hone.
    destruct (buildFern StringToNumber rand THREE_Color sub st missing)
      as [st1 missing1].
    cbn [fst snd] in Hone.
    destruct Hone as (Hin1 & (mesh & Hheap1 & Hplaced) & Hf1 & Hc1 & Hm1).
    specialize (IH st1 missing1). cbn zeta in IH.
    destruct (buildLoop StringToNumber rand THREE_Color subs st1 missing1)
      as [st2 missing2].
    cbn [fst snd] in *.
    destruct IH as (Hin2 & (meshes & Hheap2 & Hall) & Hf2 & Hc2 & Hm2).
    assert (Hlen : length (heap st1) = S (length (heap st)))
      by (rewrite Hheap1, length_app; cbn; lia).
    split; [eapply same_inputs_trans; eassumption |].
    split; [| split; [| split]].
    + exists (mesh :: meshes). split.
      * rewrite Hheap2, Hheap1, <- app_assoc. reflexivity.
      * constructor; [exact Hplaced |].
        eapply Forall2_impl; [exact Hall |].
        intros s m. apply same_inputs_placed. exact Hin1.
    + rewrite Hf2, Hf1, Hlen, <- app_assoc. reflexivity.
    + rewrite Hc2, Hc1, Hlen, <- app_assoc. reflexivity.
    + rewrite Hm2, Hm1. cbn [List.filter].
      assert (Hanch : forall s, has_anchor st1 s = has_anchor st s).
      { intros s. unfold has_anchor. destruct Hin1 as (_ & -> & _). reflexivity. }
      rewrite (List.filter_ext _ _ (fun s => f_equal negb (Hanch s))).
      destruct (has_anchor st sub); cbn; lia.
Qed.
End MeshProofs.

Section UpdateProofs.
Variable StringToNumber : string -> number.
Variable rand : nat -> Q.
Variable THREE_Color : string -> Q * Q * Q.

Lemma setFernValue_heap ref v st mesh :
  heap st !! ref = Some mesh ->
  (exists mesh', heap (setFernValue rand THREE_Color ref v st) !! ref = Some mesh' /\
                 refreshed rand THREE_Color mesh mesh' v) /\
  (forall r, r <> ref ->
             heap (setFernValue rand THREE_Color ref v st) !! r = heap st !! r).
Proof.
  intros Hm. unfold setFernValue. rewrite Hm.
  pose proof (lookup_lt_Some _ _ _ Hm) as Hlt.
  destruct (buildFernGeometryForValue rand THREE_Color v (draws st))
    as [geom k'] eqn:Hg.
  cbn [heap]. split.
  - eexists. split; [apply list_lookup_insert_eq; exact Hlt |].
    unfold refreshed.
    cbn [mesh_geometry mesh_position mesh_scale userData_subdivision userData_key].
    split; [exists (draws st); rewrite Hg; reflexivity | repeat split].
  - intros r Hr. apply list_lookup_insert_ne. congruence.
Qed.

Lemma setFernValue_heap_other ref v st r :
  r <> ref -> heap (setFernValue rand THREE_Color ref v st) !! r = heap st !! r.
Proof.
  intros Hr. destruct (heap st !! ref) as [mesh |] eqn:Hm.
  - apply (setFernValue_heap ref v st mesh Hm). exact Hr.
  - unfold setFernValue. rewrite Hm. reflexivity.
Qed.

(** Loop invariant of [updateAllFerns]: the mesh referred to at index
    [j] is refreshed with the value of [subdivisionList[j]], and no
    other mesh is touched. *)
Lemma updateLoop_spec todo : forall i y m st,
  NoDup (fernMeshes st) ->
  let st' := updateLoop StringToNumber rand THREE_Color todo i y m st in
  (forall j ref mesh,
     (i <= j < i + todo)%nat ->
     fernMeshes st !! j = Some ref -> heap st !! ref = Some mesh ->
     exists mesh',
       heap st' !! ref = Some mesh' /\
       refreshed rand THREE_Color mesh mesh'
         (Num (valueFor StringToNumber (dataBySubdivision st)
                 (subdivisionList st !! j) y m))) /\
  (forall r,
     (forall j, (i <= j < i + todo)%nat -> fernMeshes st !! j <> Some r) ->
     heap st' !! r = heap st !! r).
Proof.
  induction todo as [| todo IH]; intros i y m st Hnd; cbn [updateLoop].
  - split; [intros; lia | reflexivity].
  - set (v := Num (valueFor StringToNumber (dataBySubdivision st)
                     (subdivisionList st !! i) y m)).
    set (st1 := match fernMeshes st !! i with
                | Some ref => setFernValue rand THREE_Color ref v st
                | None => st
                end).
    assert (Hfr : frame st st1).
    { subst st1. destruct (fernMeshes st !! i);
        [apply setFernValue_frame | apply frame_refl]. }
    destruct Hfr as (_&_&_&Hdata&Hsubs&_&_&Hfm&_).
    assert (Hnd1 : NoDup (fernMeshes st1)) by (rewrite Hfm; exact Hnd).
    specialize (IH (S i) y m st1 Hnd1). cbn zeta in IH.
    destruct IH as [IHdone IHother].
    rewrite Hfm, Hdata, Hsubs in IHdone. rewrite Hfm in IHother.
    split.
    + intros j ref mesh Hj Href Hmesh.
      destruct (decide (j = i)) as [-> | Hne].
      * rewrite IHother.
        -- subst st1. rewrite Href.
           apply (setFernValue_heap ref v st mesh Hmesh).
        -- intros j' Hj' Href'.
           pose proof (NoDup_lookup _ _ _ _ Hnd Href Href'). lia.
      * apply IHdone; [lia | exact Href |].
        subst st1. destruct (fernMeshes st !! i) as [ref_i |] eqn:Hi;
          [| exact Hmesh].
        rewrite setFernValue_heap_other; [exact Hmesh |].
        intros ->. pose proof (NoDup_lookup _ _ _ _ Hnd Href Hi). lia.
    + intros r Hr. rewrite IHother by (intros j Hj; apply Hr; lia).
      subst st1. destruct (fernMeshes st !! i) as [ref_i |] eqn:Hi;
        [| reflexivity].
      apply setFernValue_heap_other. intros ->. apply (Hr i); [lia | exact Hi].
Qed.

Lemma buildFernGeometryForValue_draws (v : value) (k : nat) :
  snd (buildFernGeometryForValue rand THREE_Color v k) = (k + snd (chooseStyle v))%nat.
Proof.
  unfold buildFernGeometryForValue. destruct (chooseStyle v) as [hex numPoints].
  destruct (fernLoop rand numPoints 0 k (THREE_Color hex) (0%Q, 0%Q) _ _).
  reflexivity.
Qed.

(** [setFernValue] on a mesh that exists: the geometry is built from the
    draws that follow the ones consumed so far. *)
Lemma setFernValue_exact ref v st mesh :
  heap st !! ref = Some mesh ->
  draws (setFernValue rand THREE_Color ref v st)
  = (draws st + snd (chooseStyle v))%nat /\
  exists mesh',
    heap (setFernValue rand THREE_Color ref v st) !! ref = Some mesh' /\
    mesh_geometry mesh'
    = fst (buildFernGeometryForValue rand THREE_Color v (draws st)).
Proof.
  intros Hm. unfold setFernValue. rewrite Hm.
  pose proof (lookup_lt_Some _ _ _ Hm) as Hlt.
  pose proof (buildFernGeometryForValue_draws v (draws st)) as Hd.
  destruct (buildFernGeometryForValue rand THREE_Color v (draws st)) as [geom k'].
  cbn [fst snd] in Hd |- *. cbn [draws heap]. split; [exact Hd |].
  eexists. split; [apply list_lookup_insert_eq; exact Hlt | reflexivity].
Qed.

Lemma list_sum_seq_S (f : nat -> nat) (i n : nat) :
  list_sum (map f (seq i (S n))) = (f i + list_sum (map f (seq (S i) n)))%nat.
Proof. reflexivity. Qed.

(** The draws of the loop of [updateAllFerns]: the mesh at index [j] is
    built from the draws that follow those of the meshes at the indices
    before it. *)
Lemma updateLoop_draws todo : forall i y m st,
  NoDup (fernMeshes st) ->
  (forall j, (i <= j < i + todo)%nat ->
     exists ref mesh, fernMeshes st !! j = Some ref /\ heap st !! ref = Some mesh) ->
  draws (updateLoop StringToNumber rand THREE_Color todo i y m st)
  = (draws st
     + list_sum (map (pointsAt StringToNumber (dataBySubdivision st)
                        (subdivisionList st) y m) (seq i todo)))%nat /\
  (forall j ref,
     (i <= j < i + todo)%nat -> fernMeshes st !! j = Some ref ->
     exists mesh',
       heap (updateLoop StringToNumber rand THREE_Color todo i y m st) !! ref
       = Some mesh' /\
       mesh_geometry mesh'
       = fst (buildFernGeometryForValue rand THREE_Color
                (Num (valueFor StringToNumber (dataBySubdivision st)
                        (subdivisionList st !! j) y m))
                (draws st
                 + list_sum (map (pointsAt StringToNumber (dataBySubdivision st)
                                    (subdivisionList st) y m) (seq i (j - i))))%nat)).
Proof.
  induction todo as [| todo IH]; intros i y m st Hnd Hvalid.
  - cbn [updateLoop seq map list_sum]. split; [cbn; lia | intros; lia].
  - cbn [updateLoop].
    destruct (Hvalid i) as (ref_i & mesh_i & Hi & Hmi); [lia |].
    rewrite Hi.
    set (v := Num (valueFor StringToNumber (dataBySubdivision st)
                     (subdivisionList st !! i) y m)).
    set (st1 := setFernValue rand THREE_Color ref_i v st).
    destruct (setFernValue_frame rand THREE_Color ref_i v st)
      as (_&_&_&Hdata&Hsubs&_&_&Hfm&_).
    fold st1 in Hdata, Hsubs, Hfm.
    destruct (setFernValue_exact ref_i v st mesh_i Hmi) as (Hd1 & mesh1 & Hm1 & Hg1).
    fold st1 in Hd1, Hm1.
    assert (Hnd1 : NoDup (fernMeshes st1)) by (rewrite Hfm; exact Hnd).
    assert (Hvalid1 : forall j, (S i <= j < S i + todo)%nat ->
              exists ref mesh, fernMeshes st1 !! j = Some ref /\
                               heap st1 !! ref = Some mesh).
    { intros j Hj. destruct (Hvalid j) as (ref & mesh & Href & Hmesh); [lia |].
      exists ref, mesh. rewrite Hfm. split; [exact Href |].
      subst st1. rewrite setFernValue_heap_other; [exact Hmesh |].
      intros ->. pose proof (NoDup_lookup _ _ _ _ Hnd Href Hi). lia. }
    destruct (IH (S i) y m st1 Hnd1 Hvalid1) as [IHd IHg].
    rewrite Hdata, Hsubs in IHd, IHg. rewrite Hfm in IHg.
    assert (Hpi : pointsAt StringToNumber (dataBySubdivision st)
                    (subdivisionList st) y m i = snd (chooseStyle v))
      by reflexivity.
    split.
    + rewrite IHd, Hd1, list_sum_seq_S, Hpi. lia.
    + intros j ref Hj Href.
      destruct (decide (j = i)) as [-> | Hne].
      * assert (ref = ref_i) by congruence. subst ref.
        exists mesh1. split.
        -- rewrite (proj2 (updateLoop_spec todo (S i) y m st1 Hnd1) ref_i);
             [exact Hm1 |].
           rewrite Hfm. intros j' Hj' Href'.
           pose proof (NoDup_lookup _ _ _ _ Hnd Hi Href'). lia.
        -- rewrite Hg1, Nat.sub_diag. cbn [seq map list_sum].
           rewrite Nat.add_0_r. reflexivity.
      * destruct (IHg j ref) as (mesh' & Hm' & Hg'); [lia | exact Href |].
        exists mesh'. split; [exact Hm' |]. rewrite Hg', Hd1.
        replace (j - i)%nat with (S (j - S i)) by lia.
        rewrite list_sum_seq_S, Hpi, Nat.add_assoc. reflexivity.
Qed.

(** What [buildAllFerns] leaves behind, in one statement. *)
Lemma buildAllFerns_spec st :
  let st' := fst (buildAllFerns StringToNumber rand THREE_Color st) in
  let missing := snd (buildAllFerns StringToNumber rand THREE_Color st) in
  same_inputs st st' /\
  (exists meshes, heap st' = (heap st ++ meshes)%list /\
                  Forall2 (placed st) (subdivisionList st) meshes) /\
  fernMeshes st' = seq (length (heap st)) (length (subdivisionList st)) /\
  fernsRoot_children st' = fernMeshes st' /\
  missing = length (List.filter (fun sub => negb (has_anchor st sub))
                      (subdivisionList st)).
Proof.
  unfold buildAllFerns.
  match goal with
  | |- context [buildLoop _ _ _ ?subs ?c ?z] =>
      pose proof (buildLoop_spec StringToNumber rand THREE_Color subs c z) as H;
      destruct (buildLoop StringToNumber rand THREE_Color subs c z) as [st' missing]
  end.
  cbn [fst snd heap fernMeshes fernsRoot_children] in *.
  destruct H as (Hin & (meshes & Hheap & Hall) & Hf & Hc & Hm).
  cbn [app] in Hf, Hc.
  split; [exact Hin |]. split; [| split; [exact Hf | split]].
  - exists meshes. split; [exact Hheap |].
    eapply Forall2_impl; [exact Hall |]. intros s mesh. exact id.
  - congruence.
  - rewrite Hm. cbn. reflexivity.
Qed.

(** The mesh at index [i] after [buildAllFerns]. *)
Lemma buildAllFerns_lookup st i sub :
  subdivisionList st !! i = Some sub ->
  let st' := fst (buildAllFerns StringToNumber rand THREE_Color st) in
  exists mesh,
    fernMeshes st' !! i = Some (length (heap st) + i)%nat /\
    heap st' !! (length (heap st) + i)%nat = Some mesh /\
    placed st sub mesh.
Proof.
  intros Hsub st'.
  destruct (buildAllFerns_spec st) as (_ & (meshes & Hheap & Hall) & Hf & _).
  fold st' in Hheap, Hf.
  destruct (Forall2_lookup_l _ _ _ _ _ Hall Hsub) as (mesh & Hmesh & Hplaced).
  exists mesh. split; [| split; [| exact Hplaced]].
  - rewrite Hf. apply lookup_seq. split; [reflexivity |].
    apply lookup_lt_Some in Hsub. exact Hsub.
  - rewrite Hheap, lookup_app_r by lia.
    replace (length (heap st) + i - length (heap st))%nat with i by lia.
    exact Hmesh.
Qed.
End UpdateProofs.

Section FernClaims.
Variable StringToNumber : string -> number.
Variable rand : nat -> Q.
Variable THREE_Color : string -> Q * Q * Q.
Variable path_centroid : Q -> Q -> list Feature -> Feature -> Q * Q.

(** With the (empty) override table of the source no feature has an
    override, so rebuilding the anchors never registers a scale. *)
Lemma anchorLoop_scales w h geo features : forall anchors0 scales,
  snd (anchorLoop path_centroid w h geo features anchors0 scales) = scales.
Proof.
  induction features as [| f features IH]; intros anchors0 scales;
    cbn [anchorLoop]; [reflexivity |].
  destruct (negb (nonempty (getName (feat_properties f)))); [apply IH |].
  destruct (path_centroid w h geo f) as [cx cy].
  change overrideMap with (@nil (string * Override)).
  cbn [entry_get].
  replace (truthy_entry _ REVERSE_ALIASES ≫= (fun k : string => @None Override))
    with (@None Override) by (destruct (truthy_entry _ REVERSE_ALIASES); reflexivity).
  apply IH.
Qed.

Lemma rebuildAnchorsFromMap_scales w h st :
  scaleBySubdivision (rebuildAnchorsFromMap path_centroid w h st)
  = scaleBySubdivision st.
Proof.
  unfold rebuildAnchorsFromMap.
  pose proof (anchorLoop_scales w h (default [] (geojson st)) (default [] (geojson st))
                [] (scaleBySubdivision st)) as H.
  destruct (anchorLoop path_centroid w h _ _ [] (scaleBySubdivision st)) as [a s].
  exact H.
Qed.

Lemma no_scale_keys_anchored st :
  scaleBySubdivision st = [] -> scale_keys_anchored st.
Proof. intros H k _. rewrite H. reflexivity. Qed.

(** C10. After [buildAllFerns] the list [fernMeshes] is as long as
    [subdivisionList] and the mesh at index [i] is the one built for
    [subdivisionList[i]].  [updateAllFerns] then goes through the meshes
    in index order: the mesh at index [i] gets the geometry of the value
    resolved for [subdivisionList[i]], built from the random draws that
    follow those of the meshes at the indices before it; its position,
    scale and user data stay; every mesh consumes its draws, and no mesh
    outside [fernMeshes] is touched. *)
Theorem fernMeshes_aligned_with_subdivisionList (st : App) :
  let st' := fst (buildAllFerns StringToNumber rand THREE_Color st) in
  let st'' := updateAllFerns StringToNumber rand THREE_Color st' in
  let y := match yearList st' !! yearIndex st' with
           | Some y => Num y
           | None => Undefined
           end in
  let before := drawsBefore StringToNumber (dataBySubdivision st')
                  (subdivisionList st') y (monthLabel st') in
  subdivisionList st' = subdivisionList st /\
  length (fernMeshes st') = length (subdivisionList st') /\
  fernMeshes st'' = fernMeshes st' /\
  subdivisionList st'' = subdivisionList st' /\
  draws st'' = (draws st' + before (length (subdivisionList st')))%nat /\
  (forall r, ~ In r (fernMeshes st') -> heap st'' !! r = heap st' !! r) /\
  (forall i sub,
     subdivisionList st' !! i = Some sub ->
     exists ref mesh mesh',
       fernMeshes st' !! i = Some ref /\
       heap st' !! ref = Some mesh /\
       userData_subdivision mesh = Some sub /\
       heap st'' !! ref = Some mesh' /\
       userData_subdivision mesh' = Some sub /\
       mesh_position mesh' = mesh_position mesh /\
       mesh_scale mesh' = mesh_scale mesh /\
       mesh_geometry mesh'
       = fst (buildFernGeometryForValue rand THREE_Color
                (Num (valueFor StringToNumber (dataBySubdivision st')
                        (Some sub) y (monthLabel st')))
                (draws st' + before i)%nat)).
Proof.
  intros st' st'' y before.
  destruct (buildAllFerns_spec StringToNumber rand THREE_Color st)
    as (Hin & _ & Hf & _).
  fold st' in Hin, Hf.
  destruct Hin as (_ & _ & _ & _ & Hsubs & _).
  destruct (updateAllFerns_frame StringToNumber rand THREE_Color st')
    as (_&_&_&_&Hsubs''&_&_&Hfm''&_).
  fold st'' in Hsubs'', Hfm''.
  assert (Hlen : length (fernMeshes st') = length (subdivisionList st'))
    by (rewrite Hf, Hsubs; apply length_seq).
  assert (Hnd : NoDup (fernMeshes st')) by (rewrite Hf; apply NoDup_seq).
  assert (Hvalid : forall j, (j < length (fernMeshes st'))%nat ->
            exists ref mesh sub,
              subdivisionList st' !! j = Some sub /\
              fernMeshes st' !! j = Some ref /\ heap st' !! ref = Some mesh /\
              userData_subdivision mesh = Some sub).
  { intros j Hj. rewrite Hlen in Hj.
    destruct (lookup_lt_is_Some_2 _ _ Hj) as [sub Hsub].
    assert (Hsub0 : subdivisionList st !! j = Some sub)
      by (rewrite <- Hsubs; exact Hsub).
    destruct (buildAllFerns_lookup StringToNumber rand THREE_Color st j sub Hsub0)
      as (mesh & Href & Hmesh & Hsubd & _).
    fold st' in Href, Hmesh. exists (length (heap st) + j)%nat, mesh, sub. auto. }
  assert (Hloop : length (fernMeshes st') <> 0%nat ->
            st'' = updateLoop StringToNumber rand THREE_Color
                     (length (fernMeshes st')) 0 y (monthLabel st') st').
  { intros Hne. subst st''. unfold updateAllFerns.
    destruct (length (fernMeshes st') =? 0)%nat eqn:E;
      [apply Nat.eqb_eq in E; contradiction | reflexivity]. }
  assert (Hdraws : forall j, (0 <= j < 0 + length (fernMeshes st'))%nat ->
            exists ref mesh, fernMeshes st' !! j = Some ref /\
                             heap st' !! ref = Some mesh).
  { intros j Hj. destruct (Hvalid j) as (ref & mesh & _ & _ & H1 & H2 & _); [lia |].
    exists ref, mesh. auto. }
  split; [exact Hsubs |]. split; [exact Hlen |].
  split; [exact Hfm'' |]. split; [exact Hsubs'' |].
  split; [| split].
  - destruct (Nat.eq_dec (length (fernMeshes st')) 0) as [E | Hne].
    + rewrite <- Hlen, E. subst st''. unfold updateAllFerns. rewrite E.
      cbn [Nat.eqb]. subst before. unfold drawsBefore. cbn. lia.
    + rewrite (Hloop Hne), <- Hlen.
      apply (updateLoop_draws StringToNumber rand THREE_Color
               (length (fernMeshes st')) 0 y (monthLabel st') st' Hnd Hdraws).
  - intros r Hr.
    destruct (Nat.eq_dec (length (fernMeshes st')) 0) as [E | Hne].
    + subst st''. unfold updateAllFerns. rewrite E. reflexivity.
    + rewrite (Hloop Hne).
      apply (proj2 (updateLoop_spec StringToNumber rand THREE_Color
                      (length (fernMeshes st')) 0 y (monthLabel st') st' Hnd)).
      intros j _ Hj. apply Hr, list_elem_of_In, (list_elem_of_lookup_2 _ _ _ Hj).
  - intros i sub Hsub.
    pose proof (lookup_lt_Some _ _ _ Hsub) as Hlt. rewrite <- Hlen in Hlt.
    destruct (Hvalid i Hlt) as (ref & mesh & sub' & Hsub' & Href & Hmesh & Hsubd).
    assert (sub' = sub) by congruence. subst sub'.
    assert (Hne : length (fernMeshes st') <> 0%nat) by lia.
    destruct (proj1 (updateLoop_spec StringToNumber rand THREE_Color
                       (length (fernMeshes st')) 0 y (monthLabel st') st' Hnd)
                i ref mesh) as (mesh' & Hmesh' & (_ & Hpos & Hsc & Hud & _));
      [lia | exact Href | exact Hmesh |].
    destruct (proj2 (updateLoop_draws StringToNumber rand THREE_Color
                       (length (fernMeshes st')) 0 y (monthLabel st') st' Hnd Hdraws)
                i ref) as (mesh2 & Hmesh2 & Hgeo); [lia | exact Href |].
    assert (mesh2 = mesh') by congruence. subst mesh2.
    rewrite <- (Hloop Hne) in Hmesh'.
    rewrite Hsub, Nat.sub_0_r in Hgeo.
    exists ref, mesh, mesh'.
    repeat (split; [first [exact Href | exact Hmesh | exact Hsubd | exact Hmesh'
                          | exact Hpos | exact Hsc | congruence] |]).
    exact Hgeo.
Qed.
End FernClaims.

Lemma fernMeshes_aligned_with_subdivisionList_witness :
  let row := fun sub v : string => [("SUBDIVISION", sub); ("YEAR", "2000"); ("JAN", v)] in
  let st :=
    {| geojson := None; anchors := []; scaleBySubdivision := [];
       dataBySubdivision := [("Assam", [row "Assam" "250"]);
                             ("Kerala", [row "Kerala" "12"])];
       subdivisionList := ["Assam"; "Kerala"];
       yearList := [Fin 2000];
       heap := []; fernsRoot_children := []; fernMeshes := [];
       monthIndex := 0; yearIndex := 0; tickMs := 1200; lastTime := 0;
       draws := 0 |} in
  let rand := fun _ : nat => 0.5%Q in
  let color := fun _ : string => (1%Q, 1%Q, 1%Q) in
  let st' := fst (buildAllFerns decimalToNumber rand color st) in
  let st'' := updateAllFerns decimalToNumber rand color st' in
  subdivisionList st' !! 1%nat = Some "Kerala" /\
  drawsBefore decimalToNumber (dataBySubdivision st) (subdivisionList st)
    (Num (Fin 2000)) (Some "JAN") 1 = 6000%nat /\
  exists ref mesh mesh',
    fernMeshes st' !! 1%nat = Some ref /\
    heap st' !! ref = Some mesh /\
    userData_subdivision mesh = Some "Kerala" /\
    heap st'' !! ref = Some mesh' /\
    userData_subdivision mesh' = Some "Kerala".
Proof.
  intros row st rand color st' st''.
  pose proof (fernMeshes_aligned_with_subdivisionList decimalToNumber rand color st)
    as (Hsubs & _ & _ & _ & _ & _ & Hall).
  fold st' in Hsubs, Hall.
  assert (H1 : subdivisionList st' !! 1%nat = Some "Kerala")
    by (rewrite Hsubs; reflexivity).
  split; [exact H1 |]. split; [vm_compute; reflexivity |].
  destruct (Hall 1%nat "Kerala" H1)
    as (ref & mesh & mesh' & Href & Hmesh & Hud & Hmesh' & Hud' & _).
  exists ref, mesh, mesh'. auto.
Defined.

(** *** Ingestion *)

Lemma parse_lines_filter (headers : list string) (lines : list string) :
  parse_lines headers lines =
    map (fun line => fill_record headers (splitCSVLine line) [])
      (List.filter
         (fun line => (length (splitCSVLine line) =? length headers)%nat) lines).
Proof.
  induction lines as [| line lines IH]; cbn [parse_lines List.filter]; [reflexivity |].
  destruct (length (splitCSVLine line) =? length headers)%nat; cbn [negb map];
    rewrite IH; reflexivity.
Qed.

Section IngestProofs.
Variable StringToNumber : string -> number.
Variable rand : nat -> Q.
Variable THREE_Color : string -> Q * Q * Q.
Variable has_yearSelect : bool.

(** The lists and the table [ingestRainRows] leaves in the state. *)
Lemma ingestRainRows_lists (rows : list Row) (st : App) :
  let st' :=
    fst (ingestRainRows StringToNumber rand THREE_Color has_yearSelect rows st) in
  dataBySubdivision st' = tableOf StringToNumber rows /\
  subdivisionList st' = Array_sort string_cmp (map fst (tableOf StringToNumber rows)) /\
  yearList st' =
    Array_sort num_sub (collectYears StringToNumber (tableOf StringToNumber rows) []).
Proof.
  unfold ingestRainRows. fold (tableOf StringToNumber rows).
  match goal with
  | |- context [buildAllFerns _ _ _ ?s] =>
      set (st2 := s);
      pose proof (buildAllFerns_spec StringToNumber rand THREE_Color st2) as Hb;
      destruct (buildAllFerns StringToNumber rand THREE_Color st2) as [st3 missing]
  end.
  cbn [fst snd] in *.
  destruct Hb as ((_ & _ & _ & Hd & Hs & Hy & _) & _).
  destruct (updateAllFerns_frame StringToNumber rand THREE_Color st3)
    as (_ & _ & _ & Hd' & Hs' & Hy' & _).
  rewrite Hd', Hs', Hy', Hd, Hs, Hy.
  subst st2. unfold buildYearSelect. destruct has_yearSelect; cbn; repeat split.
Qed.

(** C6, as the code has it.  A line whose field count differs from the
    header's gives no row, every other line gives one.  After ingestion
    [subdivisionList] is the strictly increasing (code-unit order) list of
    the non-empty region names of the rows, and [yearList] is the
    strictly ascending list of the finite years of the rows that have a
    non-empty region name; rows without one are left out of both. *)
Theorem ingestion_derives_sorted_lists (text : string) (rows : list Row) (st : App) :
  loadCSVRows text = Returned rows ->
  let st' :=
    fst (ingestRainRows StringToNumber rand THREE_Color has_yearSelect rows st) in
  (exists header lines,
     List.filter nonempty (split_lines text) = header :: lines /\
     let headers := map trim (split_commas header) in
     rows = map (fun line => fill_record headers (splitCSVLine line) [])
              (List.filter
                 (fun line => (length (splitCSVLine line) =? length headers)%nat)
                 lines)) /\
  StronglySorted (fun s t => String.ltb s t = true) (subdivisionList st') /\
  (forall s, In s (subdivisionList st') <->
             exists row, In row rows /\ regionOf row = Some s) /\
  StronglySorted (fun a b => num_ltb a b = true) (yearList st') /\
  (forall n, In n (yearList st') ->
     is_finite n /\
     exists row sub, In row rows /\ regionOf row = Some sub /\
                     yearOf StringToNumber row = n) /\
  (forall row sub, In row rows -> regionOf row = Some sub ->
     is_finite (yearOf StringToNumber row) ->
     exists n, In n (yearList st') /\ num_eqb (yearOf StringToNumber row) n = true).
Proof.
  intros Hload st'.
  destruct (ingestRainRows_lists rows st) as (_ & Hsubs & Hyears).
  fold st' in Hsubs, Hyears. rewrite Hsubs, Hyears.
  assert (Hempty : year_set []) by (split; constructor).
  destruct (collectYears_spec StringToNumber (tableOf StringToNumber rows) [] Hempty)
    as ((Hfin & Hpairs) & _ & Hin & Hcov).
  split; [| split; [| split; [| split; [| split]]]].
  - unfold loadCSVRows in Hload.
    destruct (List.filter nonempty (split_lines text)) as [| header lines];
      [discriminate Hload |].
    injection Hload as <-. exists header, lines.
    split; [reflexivity | apply parse_lines_filter].
  - apply sort_strings_strict, tableOf_NoDup.
  - intros s. rewrite Array_sort_In. apply tableOf_keys.
  - apply sort_numbers_strict; assumption.
  - intros n Hn. apply Array_sort_In in Hn. split.
    + rewrite List.Forall_forall in Hfin. apply Hfin, Hn.
    + destruct (Hin n Hn) as [[] | (sub & arr & r & Hd & Hr & Hy)].
      exists r, sub.
      assert (Hmem : In r rows /\ regionOf r = Some sub).
      { apply (tableOf_member StringToNumber rows sub r). exists arr.
        split; [| exact Hr].
        apply In_entry_get; [apply tableOf_NoDup | exact Hd]. }
      destruct Hmem. auto.
  - intros row sub Hrow Hreg Hfinite.
    destruct (proj2 (tableOf_member StringToNumber rows sub row) (conj Hrow Hreg))
      as (arr & Harr & Hr).
    apply entry_get_Some_In in Harr.
    destruct (Hcov sub arr row Harr Hr Hfinite) as (n & Hn & Heq).
    exists n. split; [apply Array_sort_In, Hn | exact Heq].
Qed.
End IngestProofs.

Lemma ingestion_derives_sorted_lists_witness :
  let text := "SUBDIVISION,YEAR,JAN" ++ newline ++ "Kerala,2000,7" ++ newline
              ++ "broken line" ++ newline ++ "Assam,1999,4" in
  let rows := [[("SUBDIVISION", "Kerala"); ("YEAR", "2000"); ("JAN", "7")];
               [("SUBDIVISION", "Assam"); ("YEAR", "1999"); ("JAN", "4")]] in
  let rand := fun _ : nat => 0.5%Q in
  let color := fun _ : string => (1%Q, 1%Q, 1%Q) in
  let st' := fst (ingestRainRows decimalToNumber rand color true rows initial) in
  loadCSVRows text = Returned rows /\
  StronglySorted (fun s t => String.ltb s t = true) (subdivisionList st') /\
  StronglySorted (fun a b => num_ltb a b = true) (yearList st').
Proof.
  intros text rows rand color st'.
  assert (Hload : loadCSVRows text = Returned rows) by (vm_compute; reflexivity).
  pose proof (ingestion_derives_sorted_lists decimalToNumber rand color true
                text rows initial Hload) as (_ & Hs & _ & Hy & _).
  split; [exact Hload |]. split; [exact Hs | exact Hy].
Defined.

(** C6 as stated fails: the line [,1950] has as many fields as the header,
    so it is parsed into a row, and its year is a finite number; the row
    has an empty region name, so ingestion skips it, and 1950 is not in
    [yearList] (nor is the empty name in [subdivisionList]). *)
Lemma ingestion_drops_rows_without_region :
  let text := "SUBDIVISION,YEAR" ++ newline ++ ",1950" ++ newline ++ "Kerala,2000" in
  let unnamed := [("SUBDIVISION", ""); ("YEAR", "1950")] in
  let rows := [unnamed; [("SUBDIVISION", "Kerala"); ("YEAR", "2000")]] in
  let rand := fun _ : nat => 0.5%Q in
  let color := fun _ : string => (1%Q, 1%Q, 1%Q) in
  let st' := fst (ingestRainRows decimalToNumber rand color true rows initial) in
  loadCSVRows text = Returned rows /\
  Number_isFinite (Num (yearOf decimalToNumber unnamed)) = true /\
  yearOf decimalToNumber unnamed = Fin 1950 /\
  yearList st' = [Fin 2000] /\
  existsb (num_eqb (Fin 1950)) (yearList st') = false /\
  subdivisionList st' = ["Kerala"].
Proof.
  intros text unnamed rows rand color st'.
  destruct (ingestRainRows_lists decimalToNumber rand color true rows initial)
    as (_ & Hsubs & Hyears).
  fold st' in Hsubs, Hyears. rewrite Hsubs, Hyears.
  repeat split; vm_compute; reflexivity.
Qed.

(** C1 fails, against the code's own comments ([nearest previous year],
    [sorted]), where a year does not parse: the comparator of the sort
    then returns NaN, the sequence of the region stays as the rows came
    (1990, unparsable, 1980), and for the year 1995 [valueFor] finds no
    exact match, scans backwards and stops at the 1980 record, returning
    its value 10, although the 1990 record carries the nearest previous
    year (1980 < 1990 <= 1995) and the value 30. *)
Theorem valueFor_after_unparsable_year :
  let row := fun y v : string => [("SUBDIVISION", "Kerala"); ("YEAR", y); ("JAN", v)] in
  let rows := [row "1990" "30"; row "n/a" "0"; row "1980" "10"] in
  let rand := fun _ : nat => 0.5%Q in
  let color := fun _ : string => (1%Q, 1%Q, 1%Q) in
  let data :=
    dataBySubdivision
      (fst (ingestRainRows decimalToNumber rand color true rows initial)) in
  entry_get "Kerala" data = Some [row "1990" "30"; row "n/a" "0"; row "1980" "10"] /\
  valueFor decimalToNumber data (Some "Kerala") (Num (Fin 1995)) (Some "JAN") = Fin 10 /\
  yearOf decimalToNumber (row "1990" "30") = Fin 1990 /\
  num_leb (Fin 1990) (Fin 1995) = true /\
  num_ltb (Fin 1980) (Fin 1990) = true /\
  ToNumber decimalToNumber (field (row "1990" "30") "JAN") = Fin 30.
Proof.
  intros row rows rand color data.
  destruct (ingestRainRows_lists decimalToNumber rand color true rows initial)
    as (Hdata & _).
  fold data in Hdata. rewrite Hdata.
  repeat split; vm_compute; reflexivity.
Qed.

(** ** Reachable states *)

Section ReachableProofs.
Variable StringToNumber : string -> number.
Variable rand : nat -> Q.
Variable THREE_Color : string -> Q * Q * Q.
Variable has_yearSelect : bool.
Variable path_centroid : Q -> Q -> list Feature -> Feature -> Q * Q.

Lemma applyAnchor_frame ref st : frame st (applyAnchor ref st).
Proof.
  unfold applyAnchor. destruct (heap st !! ref) as [mesh |]; [| apply frame_refl].
  unfold frame. cbn. rewrite length_insert. repeat split.
Qed.

Lemma applyAnchorsToFerns_frame st : frame st (applyAnchorsToFerns st).
Proof.
  unfold applyAnchorsToFerns. generalize (fernMeshes st) as refs.
  intros refs. revert st. induction refs as [| ref refs IH]; intros st; cbn.
  - apply frame_refl.
  - eapply frame_trans; [apply applyAnchor_frame | apply IH].
Qed.

Lemma rebuildMap_keeps w h st :
  scaleBySubdivision (rebuildMap path_centroid w h st) = scaleBySubdivision st /\
  monthIndex (rebuildMap path_centroid w h st) = monthIndex st.
Proof.
  unfold rebuildMap. destruct (geojson st); [| split; reflexivity].
  destruct (applyAnchorsToFerns_frame (rebuildAnchorsFromMap path_centroid w h st))
    as (_ & _ & Hs & _ & _ & _ & _ & _ & Hm & _).
  rewrite Hs, Hm, rebuildAnchorsFromMap_scales. split; [reflexivity |].
  unfold rebuildAnchorsFromMap.
  destruct (anchorLoop path_centroid w h _ _ [] (scaleBySubdivision st)).
  reflexivity.
Qed.

Lemma ingestRainRows_keeps rows st :
  let st' :=
    fst (ingestRainRows StringToNumber rand THREE_Color has_yearSelect rows st) in
  scaleBySubdivision st' = scaleBySubdivision st /\
  monthIndex st' = monthIndex st /\
  tickMs st' = tickMs st /\
  lastTime st' = lastTime st.
Proof.
  unfold ingestRainRows.
  match goal with
  | |- context [buildAllFerns _ _ _ ?s] =>
      set (st2 := s);
      pose proof (buildAllFerns_spec StringToNumber rand THREE_Color st2) as Hb;
      destruct (buildAllFerns StringToNumber rand THREE_Color st2) as [st3 missing]
  end.
  cbn [fst snd] in *.
  destruct Hb as ((_ & _ & Hs & _ & _ & _ & Hm & _ & Ht & Hl) & _).
  destruct (updateAllFerns_frame StringToNumber rand THREE_Color st3)
    as (_ & _ & Hs' & _ & _ & _ & _ & _ & Hm' & _ & Ht' & Hl' & _).
  rewrite Hs', Hm', Ht', Hl', Hs, Hm, Ht, Hl.
  subst st2. unfold buildYearSelect. destruct has_yearSelect; cbn; repeat split.
Qed.

(** In every reachable state no scale is registered (the override table
    of the source is empty) and the month index is one of 0..11. *)
Lemma reachable_invariant st :
  reachable StringToNumber rand THREE_Color has_yearSelect path_centroid st ->
  scaleBySubdivision st = [] /\ (0 <= monthIndex st < 12)%Z.
Proof.
  induction 1 as [| features st _ IH | rows st _ IH | w h st _ IH | now st _ IH
                  | i st Hi _ IH | v st _ IH].
  - cbn. split; [reflexivity | lia].
  - exact IH.
  - destruct (ingestRainRows_keeps rows st) as (-> & -> & _). exact IH.
  - destruct (rebuildMap_keeps w h st) as [-> ->]. exact IH.
  - destruct IH as [Hs Hm]. destruct (tickDue now st) eqn:E.
    + unfold step. rewrite E.
      destruct (updateAllFerns_frame StringToNumber rand THREE_Color
                  (advanceMonth now st)) as (_ & _ & Hs' & _ & _ & _ & _ & _ & Hm' & _).
      rewrite Hs', Hm'. cbn [scaleBySubdivision monthIndex advanceMonth].
      split; [exact Hs |].
      change (Z.of_nat (length MONTHS)) with 12%Z.
      rewrite Z.rem_mod_nonneg by lia. apply Z.mod_pos_bound. lia.
    + rewrite (step_not_due StringToNumber rand THREE_Color now st E). auto.
  - destruct IH as [Hs Hm]. unfold onMonthClick.
    match goal with
    | |- context [updateAllFerns _ _ _ ?s] =>
        destruct (updateAllFerns_frame StringToNumber rand THREE_Color s)
          as (_ & _ & Hs' & _ & _ & _ & _ & _ & Hm' & _)
    end.
    rewrite Hs', Hm'. cbn [scaleBySubdivision monthIndex].
    split; [exact Hs |]. change (length MONTHS) with 12%nat in Hi. lia.
  - unfold onYearChange. destruct (indexOf v (yearList st) 0); [| exact IH].
    match goal with
    | |- context [updateAllFerns _ _ _ ?s] =>
        destruct (updateAllFerns_frame StringToNumber rand THREE_Color s)
          as (_ & _ & Hs' & _ & _ & _ & _ & _ & Hm' & _)
    end.
    rewrite Hs', Hm'. exact IH.
Qed.

Lemma reachable_scale_keys_anchored st :
  reachable StringToNumber rand THREE_Color has_yearSelect path_centroid st ->
  scale_keys_anchored st.
Proof. intros H. apply no_scale_keys_anchored, (reachable_invariant st H). Qed.

(** Frames that are each one tick after the previous one all advance the
    month, as long as there is a year to show. *)
Lemma advances_spaced nows : forall st,
  yearList st <> [] ->
  spaced (tickMs st) (lastTime st) nows ->
  advances StringToNumber rand THREE_Color nows st = length nows.
Proof.
  induction nows as [| now nows IH]; intros st Hy Hsp; [reflexivity |].
  destruct Hsp as [Hdue Hsp]. cbn [advances length].
  assert (E : tickDue now st = true).
  { unfold tickDue. rewrite (proj2 (Qle_bool_iff _ _) Hdue).
    destruct (yearList st); [congruence | reflexivity]. }
  rewrite E.
  destruct (step_due StringToNumber rand THREE_Color now st E)
    as (_ & _ & Hyl & Htick & Hlast).
  rewrite IH; [reflexivity | rewrite Hyl; exact Hy | rewrite Htick, Hlast; exact Hsp].
Qed.

(** C8. The automatic stepper never changes the year index; an advance
    replaces the month index by [(monthIndex + 1) % 12]; and from any
    state of the program, after frames over which the month advanced a
    multiple of twelve times, the month index is back at its start. *)
Theorem stepper_keeps_year_and_wraps_month (nows : list Q) (st : App) :
  (forall now,
     yearIndex (step StringToNumber rand THREE_Color now st) = yearIndex st) /\
  (forall now, tickDue now st = true ->
     monthIndex (step StringToNumber rand THREE_Color now st)
     = Z.rem (monthIndex st + 1) 12) /\
  (forall now, tickDue now st = false ->
     step StringToNumber rand THREE_Color now st = st) /\
  yearIndex (runFrames StringToNumber rand THREE_Color nows st) = yearIndex st /\
  (reachable StringToNumber rand THREE_Color has_yearSelect path_centroid st ->
   forall n : nat,
     advances StringToNumber rand THREE_Color nows st = (12 * n)%nat ->
     monthIndex (runFrames StringToNumber rand THREE_Color nows st) = monthIndex st).
Proof.
  split; [intros now; apply step_yearIndex |].
  split; [intros now H; apply (step_due StringToNumber rand THREE_Color now st H) |].
  split;
    [intros now H; apply (step_not_due StringToNumber rand THREE_Color now st H) |].
  split; [apply runFrames_yearIndex |].
  intros Hreach n Hn.
  destruct (reachable_invariant st Hreach) as [_ Hm].
  rewrite runFrames_monthIndex by exact Hm.
  rewrite Hn.
  replace (monthIndex st + Z.of_nat (12 * n))%Z
    with (monthIndex st + Z.of_nat n * 12)%Z by lia.
  rewrite Z_mod_plus_full. apply Z.mod_small. exact Hm.
Qed.

(** C9. From any state of the program, [buildAllFerns] makes exactly one
    mesh per entry of [subdivisionList], each a mesh object of its own,
    whatever the other entries are; an entry whose key has no anchor gets
    the position (0, 0, 0) and the default scale, and is counted in
    [missing]. *)
Theorem buildAllFerns_one_mesh_per_subdivision (st : App) :
  reachable StringToNumber rand THREE_Color has_yearSelect path_centroid st ->
  let st' := fst (buildAllFerns StringToNumber rand THREE_Color st) in
  let missing := snd (buildAllFerns StringToNumber rand THREE_Color st) in
  length (fernMeshes st') = length (subdivisionList st) /\
  NoDup (fernMeshes st') /\
  fernsRoot_children st' = fernMeshes st' /\
  (forall i sub,
     subdivisionList st !! i = Some sub ->
     exists ref mesh,
       fernMeshes st' !! i = Some ref /\
       heap st' !! ref = Some mesh /\
       userData_subdivision mesh = Some sub /\
       (entry_get (topoKeyOf sub) (anchors st) = None ->
          mesh_position mesh = {| vx := 0; vy := 0; vz := 0 |} /\
          mesh_scale mesh = setScalar DEFAULT_SCALE)) /\
  missing = length (List.filter
                      (fun sub => negb (has_anchor st sub)) (subdivisionList st)).
Proof.
  intros Hreach st' missing.
  pose proof (reachable_scale_keys_anchored st Hreach) as Hscale.
  destruct (buildAllFerns_spec StringToNumber rand THREE_Color st)
    as (_ & _ & Hf & Hc & Hm).
  fold st' in Hf, Hc. fold missing in Hm.
  split; [rewrite Hf; apply length_seq |].
  split; [rewrite Hf; apply NoDup_seq |].
  split; [exact Hc |]. split; [| exact Hm].
  intros i sub Hsub.
  destruct (buildAllFerns_lookup StringToNumber rand THREE_Color st i sub Hsub)
    as (mesh & Href & Hmesh & Hsubd & _ & Hpos & Hsc).
  exists (length (heap st) + i)%nat, mesh.
  split; [exact Href |]. split; [exact Hmesh |]. split; [exact Hsubd |].
  intros Hnone. rewrite Hpos, Hsc, Hnone, (Hscale _ Hnone). split; reflexivity.
Qed.
End ReachableProofs.

Lemma stepper_keeps_year_and_wraps_month_witness :
  let rows := [[("SUBDIVISION", "Kerala"); ("YEAR", "2000"); ("JAN", "12")]] in
  let rand := fun _ : nat => 0.5%Q in
  let color := fun _ : string => (1%Q, 1%Q, 1%Q) in
  let centroid := fun (_ _ : Q) (_ : list Feature) (_ : Feature) => (0%Q, 0%Q) in
  let st := fst (ingestRainRows decimalToNumber rand color true rows initial) in
  let nows := map (fun i : nat => (inject_Z (Z.of_nat i) * 1200)%Q) (seq 1 12) in
  reachable decimalToNumber rand color true centroid st /\
  advances decimalToNumber rand color nows st = (12 * 1)%nat /\
  monthIndex (runFrames decimalToNumber rand color nows st) = monthIndex st.
Proof.
  intros rows rand color centroid st nows.
  assert (Hreach : reachable decimalToNumber rand color true centroid st)
    by (apply reach_ingest, reach_initial).
  assert (Ha : advances decimalToNumber rand color nows st = (12 * 1)%nat).
  { destruct (ingestRainRows_lists decimalToNumber rand color true rows initial)
      as (_ & _ & Hy).
    destruct (ingestRainRows_keeps decimalToNumber rand color true rows initial)
      as (_ & _ & Ht & Hl).
    fold st in Hy, Ht, Hl.
    rewrite advances_spaced; [reflexivity | |].
    - rewrite Hy. vm_compute. discriminate.
    - rewrite Ht, Hl. vm_compute. repeat split; discriminate. }
  split; [exact Hreach |]. split; [exact Ha |].
  exact (proj2 (proj2 (proj2 (proj2
    (stepper_keeps_year_and_wraps_month decimalToNumber rand color true centroid
       nows st)))) Hreach 1%nat Ha).
Defined.

Lemma buildAllFerns_one_mesh_per_subdivision_witness :
  let rows := [[("SUBDIVISION", "Kerala"); ("YEAR", "2000"); ("JAN", "12")]] in
  let rand := fun _ : nat => 0.5%Q in
  let color := fun _ : string => (1%Q, 1%Q, 1%Q) in
  let centroid := fun (_ _ : Q) (_ : list Feature) (_ : Feature) => (0%Q, 0%Q) in
  let st := fst (ingestRainRows decimalToNumber rand color true rows initial) in
  reachable decimalToNumber rand color true centroid st /\
  subdivisionList st = ["Kerala"] /\
  length (fernMeshes (fst (buildAllFerns decimalToNumber rand color st)))
  = length (subdivisionList st) /\
  snd (buildAllFerns decimalToNumber rand color st)
  = length (List.filter (fun sub => negb (has_anchor st sub)) (subdivisionList st)).
Proof.
  intros rows rand color centroid st.
  assert (Hreach : reachable decimalToNumber rand color true centroid st)
    by (apply reach_ingest, reach_initial).
  pose proof (buildAllFerns_one_mesh_per_subdivision decimalToNumber rand color
                true centroid st Hreach) as (Hlen & _ & _ & _ & Hmissing).
  split; [exact Hreach |]. split; [| split; [exact Hlen | exact Hmissing]].
  destruct (ingestRainRows_lists decimalToNumber rand color true rows initial)
    as (_ & Hs & _).
  fold st in Hs. rewrite Hs. vm_compute. reflexivity.
Defined.

(** * Further properties *)

(** ** The geometry of a fern *)

Section FernShape.
Variable rand : nat -> Q.
Variable THREE_Color : string -> Q * Q * Q.

Lemma fernLoop_colors_length todo : forall i k rgb xy positions colors,
  length (snd (fernLoop rand todo i k rgb xy positions colors)) = length colors.
Proof.
  induction todo as [| todo IH]; intros; cbn [fernLoop]; [reflexivity |].
  rewrite IH, !length_insert. reflexivity.
Qed.

Lemma fernLoop_colors_below todo : forall i k rgb xy positions colors n,
  (n < i * 3)%nat ->
  snd (fernLoop rand todo i k rgb xy positions colors) !! n = colors !! n.
Proof.
  induction todo as [| todo IH]; intros i k rgb xy positions colors n Hn;
    cbn [fernLoop]; [reflexivity |].
  rewrite IH by lia.
  rewrite !list_lookup_insert_ne by lia. reflexivity.
Qed.

(** Every point written by the loop bears the three components of the
    colour. *)
Lemma fernLoop_colors todo : forall i k rgb xy positions colors j,
  ((i + todo) * 3 <= length colors)%nat ->
  (i <= j < i + todo)%nat ->
  let out := snd (fernLoop rand todo i k rgb xy positions colors) in
  out !! (j * 3)%nat = Some (fst (fst rgb)) /\
  out !! (j * 3 + 1)%nat = Some (snd (fst rgb)) /\
  out !! (j * 3 + 2)%nat = Some (snd rgb).
Proof.
  induction todo as [| todo IH]; intros i k rgb xy positions colors j Hlen Hj;
    [lia |].
  cbn [fernLoop].
  destruct (decide (j = i)) as [-> | Hne].
  - cbn zeta. rewrite !fernLoop_colors_below by lia.
    rewrite Nat.add_0_r. repeat split.
    + rewrite !list_lookup_insert_ne by lia.
      apply list_lookup_insert_eq. lia.
    + rewrite list_lookup_insert_ne by lia.
      apply list_lookup_insert_eq. rewrite length_insert. lia.
    + apply list_lookup_insert_eq. rewrite !length_insert. lia.
  - apply IH; [rewrite !length_insert; lia | lia].
Qed.

(** X1. A fern geometry has exactly the number of points of its style:
    both buffers hold three numbers per point, the call consumes one
    random draw per point, and every point bears the colour of the
    style. *)
Theorem fern_geometry_has_style_points_and_colour (v : value) (k : nat) :
  let numPoints := snd (chooseStyle v) in
  let rgb := THREE_Color (fst (chooseStyle v)) in
  let geometry := fst (buildFernGeometryForValue rand THREE_Color v k) in
  length (geo_position geometry) = (3 * numPoints)%nat /\
  length (geo_color geometry) = (3 * numPoints)%nat /\
  snd (buildFernGeometryForValue rand THREE_Color v k) = (k + numPoints)%nat /\
  (forall i, (i < numPoints)%nat ->
     geo_color geometry !! (i * 3)%nat = Some (fst (fst rgb)) /\
     geo_color geometry !! (i * 3 + 1)%nat = Some (snd (fst rgb)) /\
     geo_color geometry !! (i * 3 + 2)%nat = Some (snd rgb)).
Proof.
  unfold buildFernGeometryForValue.
  destruct (chooseStyle v) as [hex numPoints]. cbn [fst snd].
  pose proof (fernLoop_length rand numPoints 0 k (THREE_Color hex) (0%Q, 0%Q)
                (replicate (numPoints * 3) 0%Q) (replicate (numPoints * 3) 0%Q)) as Hp.
  pose proof (fernLoop_colors_length numPoints 0 k (THREE_Color hex) (0%Q, 0%Q)
                (replicate (numPoints * 3) 0%Q) (replicate (numPoints * 3) 0%Q)) as Hc.
  pose proof (fernLoop_colors numPoints 0 k (THREE_Color hex) (0%Q, 0%Q)
                (replicate (numPoints * 3) 0%Q) (replicate (numPoints * 3) 0%Q)) as Hcol.
  destruct (fernLoop rand numPoints 0 k (THREE_Color hex) (0%Q, 0%Q)
              (replicate (numPoints * 3) 0%Q) (replicate (numPoints * 3) 0%Q))
    as [ps cs].
  cbn [fst snd geo_position geo_color] in *.
  rewrite length_replicate in Hp, Hc, Hcol.
  split; [lia |]. split; [lia |]. split; [reflexivity |].
  intros i Hi. apply Hcol; lia.
Qed.

Lemma applyTransform_envelope (r : Q) (xy : Q * Q) :
  in_envelope xy -> in_envelope (applyTransform (selectTransform r) xy).
Proof.
  destruct xy as [x y]. unfold in_envelope. cbn [fst snd]. intros [Hx Hy].
  unfold selectTransform.
  destruct (Qlt_bool r (tr_p (IFS_at 0))); [| destruct (Qlt_bool r 0.86);
    [| destruct (Qlt_bool r 0.93)]];
    cbn [applyTransform IFS_at IFS nth tr_a tr_b tr_c tr_d tr_e tr_f fst snd];
    split; lra.
Qed.

Lemma fernState_envelope (k n : nat) : in_envelope (fernState rand k n).
Proof.
  induction n as [| n IH]; cbn [fernState].
  - unfold in_envelope. cbn. split; lra.
  - apply applyTransform_envelope, IH.
Qed.

(** X2. Whatever the random draws, every point of a fern lies in one
    fixed box: its x between -136 and 136, its y between -74 and 368 (the
    box [-4, 4] x [-1, 12], which the four maps send into itself, scaled
    by [SCALE] and moved by [Y_OFF]), and its z is 0. *)
Theorem fern_points_stay_in_envelope (v : value) (k i : nat) :
  (i < snd (chooseStyle v))%nat ->
  let positions :=
    geo_position (fst (buildFernGeometryForValue rand THREE_Color v k)) in
  exists px py,
    positions !! (i * 3)%nat = Some px /\
    positions !! (i * 3 + 1)%nat = Some py /\
    positions !! (i * 3 + 2)%nat = Some 0%Q /\
    (-136 <= px <= 136)%Q /\ (-74 <= py <= 368)%Q.
Proof.
  intros Hi positions. subst positions. unfold buildFernGeometryForValue.
  destruct (chooseStyle v) as [hex numPoints]. cbn [snd] in Hi.
  pose proof (fernLoop_point rand numPoints 0 k (THREE_Color hex) (0%Q, 0%Q)
                (replicate (numPoints * 3) 0%Q) (replicate (numPoints * 3) 0%Q) i
                eq_refl) as Hpt.
  destruct (fernLoop rand numPoints 0 k (THREE_Color hex) (0%Q, 0%Q)
              (replicate (numPoints * 3) 0%Q) (replicate (numPoints * 3) 0%Q))
    as [ps cs].
  cbn [fst geo_position] in *.
  destruct Hpt as (Hx & Hy & Hz); [rewrite length_replicate; lia | lia |].
  destruct (fernState_envelope k (S i)) as [Hbx Hby].
  exists (fst (fernState rand k (S i)) * SCALE)%Q,
         (snd (fernState rand k (S i)) * SCALE + Y_OFF)%Q.
  split; [exact Hx |]. split; [exact Hy |]. split; [exact Hz |].
  unfold SCALE, Y_OFF. split; lra.
Qed.
End FernShape.

Lemma fern_geometry_has_style_points_and_colour_witness :
  let rand := fun i : nat => if Nat.even i then 0.5%Q else 0.005%Q in
  let colour := fun _ : string => (1%Q, 0.5%Q, 0%Q) in
  (7 < snd (chooseStyle (Num (Fin 45))))%nat /\
  geo_color (fst (buildFernGeometryForValue rand colour (Num (Fin 45)) 0))
    !! (7 * 3 + 1)%nat = Some 0.5%Q.
Proof.
  intros rand colour.
  assert (H : (7 < snd (chooseStyle (Num (Fin 45))))%nat) by (vm_compute; lia).
  split; [exact H |].
  exact (proj1 (proj2 (proj2 (proj2 (proj2
    (fern_geometry_has_style_points_and_colour rand colour (Num (Fin 45)) 0)))
    7%nat H))).
Defined.

Lemma fern_points_stay_in_envelope_witness :
  let rand := fun i : nat => if Nat.even i then 0.95%Q else 0.9%Q in
  let colour := fun _ : string => (1%Q, 1%Q, 1%Q) in
  (999 < snd (chooseStyle (Num (Fin 45))))%nat /\
  exists px py,
    geo_position (fst (buildFernGeometryForValue rand colour (Num (Fin 45)) 0))
      !! (999 * 3)%nat = Some px /\
    geo_position (fst (buildFernGeometryForValue rand colour (Num (Fin 45)) 0))
      !! (999 * 3 + 1)%nat = Some py /\
    (-136 <= px <= 136)%Q /\ (-74 <= py <= 368)%Q.
Proof.
  intros rand colour.
  assert (H : (999 < snd (chooseStyle (Num (Fin 45))))%nat) by (vm_compute; lia).
  split; [exact H |].
  destruct (fern_points_stay_in_envelope rand colour (Num (Fin 45)) 0 999 H)
    as (px & py & Hx & Hy & _ & Bx & By).
  exists px, py. auto.
Defined.

(** ** The keys of the normaliser *)

Lemma settled_is_key_char (c : ascii) : settled_char c = true -> key_char c = true.
Proof. destruct c as [[] [] [] [] [] [] [] []]; vm_compute; intros; congruence. Qed.

Lemma key_char_space (c : ascii) :
  key_char c = true -> is_space c = true -> c = " "%char.
Proof. destruct c as [[] [] [] [] [] [] [] []]; vm_compute; intros; congruence. Qed.

Lemma collapse_from_length (s : string) : forall b,
  (String.length (collapse_from b s) <= String.length s)%nat.
Proof.
  induction s as [| c s IH]; intros b; cbn [collapse_from]; [lia |].
  pose proof (IH true) as Ht. pose proof (IH false) as Hf.
  destruct (is_space c); [destruct b |]; cbn [String.length]; lia.
Qed.

(** On a string whose only white space is the space, collapsing changes
    nothing exactly when no two spaces are adjacent. *)
Lemma collapse_fixed_iff (s : string) :
  all_chars key_char s = true ->
  (collapse_from true s = s <-> starts_clean s = true /\ has_space_run s = false) /\
  (collapse_from false s = s <-> has_space_run s = false).
Proof.
  induction s as [| c s IH]; cbn [all_chars].
  - intros _. cbn. repeat split; reflexivity.
  - rewrite andb_true_iff. intros [Hc Hs]. destruct (IH Hs) as [IHt IHf].
    cbn [collapse_from has_space_run starts_clean].
    destruct (is_space c) eqn:Ec; cbn [andb orb negb].
    + pose proof (key_char_space c Hc Ec) as ->. split.
      * split; [| intros [H _]; discriminate H].
        intros H. pose proof (collapse_from_length s true) as Hlen.
        rewrite H in Hlen. cbn in Hlen. lia.
      * rewrite orb_false_iff, negb_false_iff, <- IHt.
        split; [intros [= H]; exact H | intros ->; reflexivity].
    + split.
      * rewrite <- IHf. split.
        -- intros [= H]. split; [reflexivity | exact H].
        -- intros [_ ->]. reflexivity.
      * rewrite <- IHf. split; [intros [= H]; exact H | intros ->; reflexivity].
Qed.

(** X3. Every key made by [norm] consists of the characters [a-z],
    [0-9], [_], [&] and space only, and has no white space at either end;
    a null or undefined name and the empty name give the empty key. *)
Theorem norm_key_alphabet (s : option string) :
  all_chars key_char (norm s) = true /\
  starts_clean (norm s) = true /\
  trim (norm s) = norm s /\
  norm None = EmptyString /\
  norm (Some EmptyString) = EmptyString.
Proof.
  destruct (norm_key s) as [Hset Htrim].
  split; [| split; [exact (proj1 Htrim) | split;
    [apply trim_of_trimmed, Htrim | split; reflexivity]]].
  apply (all_chars_impl settled_char); [exact settled_is_key_char | exact Hset].
Qed.

(** X4. How far [norm] is from idempotent: a second pass leaves a key
    unchanged exactly when the key has no two adjacent spaces, and
    otherwise only collapses them; a third pass never changes
    anything. *)
Theorem norm_second_pass (s : option string) :
  norm (Some (norm s)) = collapse_spaces (norm s) /\
  (norm (Some (norm s)) = norm s <-> has_space_run (norm s) = false) /\
  has_space_run (norm (Some (norm s))) = false /\
  norm (Some (norm (Some (norm s)))) = norm (Some (norm s)).
Proof.
  destruct (norm_key s) as [Hset Htrim].
  assert (Hkey : all_chars key_char (norm s) = true)
    by (apply (all_chars_impl settled_char);
        [exact settled_is_key_char | exact Hset]).
  pose proof (norm_of_key (norm s) Hset Htrim) as H2.
  destruct (collapse_key (norm s) Hset Htrim) as [Hset' Htrim'].
  assert (Hkey' : all_chars key_char (collapse_spaces (norm s)) = true)
    by (apply (all_chars_impl settled_char);
        [exact settled_is_key_char | exact Hset']).
  split; [exact H2 |]. rewrite H2.
  split; [apply (collapse_fixed_iff (norm s) Hkey) |].
  split.
  - apply (collapse_fixed_iff _ Hkey'). apply collapse_idem.
  - rewrite (norm_of_key _ Hset' Htrim'). apply collapse_idem.
Qed.

(** ** The reverse alias table *)

Lemma Object_fromEntries_snoc {V : Type} (es : list (string * V)) (k : string) (v : V) :
  Object_fromEntries (es ++ [(k, v)]) = entry_set k v (Object_fromEntries es).
Proof. unfold Object_fromEntries. rewrite fold_left_app. reflexivity. Qed.

(** A key looked up in [Object.fromEntries(es)] gives the value of the
    last entry of [es] with that key. *)
Lemma Object_fromEntries_get {V : Type} (es : list (string * V)) (k : string) :
  entry_get k (Object_fromEntries es) =
    option_map snd (List.find (fun kv => String.eqb (fst kv) k) (rev es)).
Proof.
  induction es as [| [k' v'] es IH] using rev_ind; [reflexivity |].
  rewrite Object_fromEntries_snoc, entry_get_set, rev_app_distr. cbn.
  destruct (String.eqb k' k); [reflexivity | exact IH].
Qed.

Lemma fold_entry_set_other {V : Type} (es : list (string * V)) (k : string) :
  (forall kv, In kv es -> fst kv <> k) ->
  forall o, entry_get k (fold_left (fun o kv => entry_set (fst kv) (snd kv) o) es o)
            = entry_get k o.
Proof.
  induction es as [| [k' v'] es IH]; intros Hother o; cbn [fold_left]; [reflexivity |].
  rewrite IH by (intros kv Hin; apply Hother; right; exact Hin).
  cbn [fst snd]. rewrite entry_get_set.
  destruct (String.eqb_spec k' k) as [E | _]; [| reflexivity].
  exfalso. apply (Hother (k', v')); [left; reflexivity | exact E].
Qed.

(** The entry written last for a key is the one that is read. *)
Lemma Object_fromEntries_last {V : Type} (es1 es2 : list (string * V))
    (k : string) (v : V) :
  (forall kv, In kv es2 -> fst kv <> k) ->
  entry_get k (Object_fromEntries (es1 ++ (k, v) :: es2)) = Some v.
Proof.
  intros Hother. unfold Object_fromEntries. rewrite fold_left_app. cbn [fold_left].
  rewrite fold_entry_set_other by exact Hother. apply entry_get_set_eq.
Qed.

Lemma Object_fromEntries_In {V : Type} (es : list (string * V)) (k : string) (v : V) :
  entry_get k (Object_fromEntries es) = Some v -> In (k, v) es.
Proof.
  rewrite Object_fromEntries_get.
  destruct (List.find _ (rev es)) as [[k' v'] |] eqn:E; [| discriminate].
  cbn. intros [= ->]. apply List.find_some in E. destruct E as [Hin Heq].
  cbn in Heq. apply String.eqb_eq in Heq. subst k'. apply in_rev, Hin.
Qed.

Lemma Object_fromEntries_keys {V : Type} (es : list (string * V)) (k : string) :
  In k (map fst es) -> exists v, entry_get k (Object_fromEntries es) = Some v.
Proof.
  intros Hin. rewrite Object_fromEntries_get.
  destruct (List.find (fun kv => String.eqb (fst kv) k) (rev es)) as [[k' v'] |] eqn:E.
  - exists v'. reflexivity.
  - exfalso. apply in_map_iff in Hin. destruct Hin as ([k0 v0] & Hk & Hin).
    cbn in Hk. subst k0.
    assert (Hin' : In (k, v0) (rev es)) by (apply -> in_rev; exact Hin).
    pose proof (List.find_none _ _ E (k, v0) Hin') as Hno.
    cbn in Hno. rewrite String.eqb_refl in Hno. discriminate Hno.
Qed.

Lemma Object_fromEntries_NoDup {V : Type} (es : list (string * V)) :
  NoDup (map fst (Object_fromEntries es)).
Proof.
  induction es as [| [k v] es IH] using rev_ind; [constructor |].
  rewrite Object_fromEntries_snoc. apply entry_set_NoDup, IH.
Qed.

(** X5. The reverse table built from any forward table never invents a
    pairing: what it returns for a target is a key the forward table maps
    to that target, and it has an entry exactly for the targets.  Where
    several keys share a target, the key [Object.entries] lists last wins;
    that is the key written last when no key of the table is an array
    index, while a key that is an array index is listed before the others
    whenever it was written. *)
Theorem reverse_table_sound_last_wins (fwd : list (string * string)) :
  NoDup (map fst fwd) ->
  (forall a b, entry_get b (reverse_table fwd) = Some a -> entry_get a fwd = Some b) /\
  (forall b, In b (map snd fwd) <-> exists a, entry_get b (reverse_table fwd) = Some a) /\
  (forall before a b after,
     Object_entries fwd = (before ++ (a, b) :: after)%list ->
     (forall kv, In kv after -> snd kv <> b) ->
     entry_get b (reverse_table fwd) = Some a) /\
  ((forall kv, In kv fwd -> array_index (fst kv) = None) ->
   Object_entries fwd = fwd).
Proof.
  intros Hnd.
  assert (Hswap : forall a b,
            In (b, a) (map (fun kv : string * string => (snd kv, fst kv))
                         (Object_entries fwd)) <-> In (a, b) fwd).
  { intros a b. rewrite in_map_iff. split.
    - intros ([a0 b0] & [= <- <-] & Hin). apply Object_entries_In, Hin.
    - intros Hin. exists (a, b). split; [reflexivity | apply Object_entries_In, Hin]. }
  split; [| split; [| split]].
  - intros a b H. apply In_entry_get; [exact Hnd |].
    apply Hswap, Object_fromEntries_In, H.
  - intros b. split.
    + intros Hb. apply Object_fromEntries_keys.
      apply in_map_iff in Hb. destruct Hb as ([a0 b0] & Hb0 & Hin).
      cbn in Hb0. subst b0. apply in_map_iff. exists (b, a0).
      split; [reflexivity | apply Hswap, Hin].
    + intros [a H]. apply Object_fromEntries_In, Hswap in H.
      apply in_map_iff. exists (a, b). auto.
  - intros before a b after Hent Hlast. unfold reverse_table.
    rewrite Hent, map_app. cbn [map fst snd].
    apply Object_fromEntries_last.
    intros [b' a'] Hin Heq. cbn in Heq. subst b'.
    apply in_map_iff in Hin. destruct Hin as ([a0 b0] & [= -> ->] & Hin).
    exact (Hlast _ Hin eq_refl).
  - apply Object_entries_named.
Qed.

Lemma reverse_table_sound_last_wins_witness :
  NoDup (map fst [("b", "x"); ("1", "x")]) /\
  Object_entries [("b", "x"); ("1", "x")] = [("1", "x"); ("b", "x")] /\
  entry_get "x" (reverse_table [("b", "x"); ("1", "x")]) = Some "b" /\
  entry_get "24" (reverse_table [("bombay", "24"); ("mumbai", "24")]) = Some "mumbai".
Proof.
  assert (Hnd : NoDup (map fst [("b", "x"); ("1", "x")]))
    by (apply (bool_decide_unpack _); vm_compute; reflexivity).
  assert (Hnd' : NoDup (map fst [("bombay", "24"); ("mumbai", "24")]))
    by (apply (bool_decide_unpack _); vm_compute; reflexivity).
  split; [exact Hnd |]. split; [reflexivity |]. split.
  - apply (proj1 (proj2 (proj2 (reverse_table_sound_last_wins _ Hnd)))
             [("1", "x")] "b" "x" []); [reflexivity | intros kv []].
  - apply (proj1 (proj2 (proj2 (reverse_table_sound_last_wins _ Hnd')))
             [("bombay", "24")] "mumbai" "24" []); [reflexivity | intros kv []].
Defined.

(** ** The rainfall text *)

Lemma split_lines_nonempty (s : string) : split_lines s <> [].
Proof.
  induction s as [| c s IH]; cbn; [discriminate |].
  destruct (Ascii.eqb c (ascii_of_nat 10)); [discriminate |].
  destruct (Ascii.eqb c (ascii_of_nat 13) && starts_with_newline s); [exact IH |].
  destruct (split_lines s); discriminate.
Qed.

Lemma no_line_iff_only_breaks (s : string) :
  List.filter nonempty (split_lines s) = [] <-> only_breaks s = true.
Proof.
  induction s as [| c s IH]; cbn [split_lines only_breaks].
  - cbn. tauto.
  - destruct (Ascii.eqb c (ascii_of_nat 10)); [cbn; exact IH |].
    destruct (Ascii.eqb c (ascii_of_nat 13) && starts_with_newline s); [exact IH |].
    destruct (split_lines s) as [| line lines]; cbn; split; discriminate.
Qed.

Lemma split_lines_single (s : string) :
  all_chars not_line_feed s = true -> split_lines s = [s].
Proof.
  induction s as [| c s IH]; cbn [all_chars split_lines]; [reflexivity |].
  rewrite andb_true_iff. intros [Hc Hs]. unfold not_line_feed in Hc.
  apply negb_true_iff in Hc. rewrite Hc.
  assert (Hstart : starts_with_newline s = false).
  { destruct s as [| d s]; [reflexivity |]. cbn in Hs |- *.
    apply andb_true_iff in Hs. destruct Hs as [Hd _].
    unfold not_line_feed in Hd. apply negb_true_iff in Hd. exact Hd. }
  rewrite Hstart, andb_false_r, IH by exact Hs. reflexivity.
Qed.

(** X6. [loadCSVRows] fails exactly when the text has no non-empty line,
    that is when it is empty or made of line breaks only, and then with
    the TypeError of reading [lines[0].split]; it raises nothing else.  A
    text that is one header line returns no rows. *)
Theorem loadCSVRows_fails_only_on_blank_text (text : string) :
  (loadCSVRows text = Thrown TypeError <-> only_breaks text = true) /\
  (forall e, loadCSVRows text = Thrown e -> e = TypeError) /\
  (only_breaks text = false <-> exists rows, loadCSVRows text = Returned rows) /\
  (all_chars not_line_feed text = true /\ nonempty text = true ->
   loadCSVRows text = Returned []).
Proof.
  pose proof (no_line_iff_only_breaks text) as Hiff. unfold loadCSVRows.
  split; [| split; [| split]].
  - destruct (List.filter nonempty (split_lines text)) as [| first rest].
    + split; [intros _; apply Hiff; reflexivity | reflexivity].
    + split; [discriminate |]. intros H. apply Hiff in H. discriminate H.
  - destruct (List.filter nonempty (split_lines text)); intros e [=]; auto.
  - destruct (List.filter nonempty (split_lines text)) as [| first rest].
    + rewrite (proj1 Hiff eq_refl). split; [discriminate | intros [rows H]; discriminate H].
    + split; [intros _; eauto |]. intros _.
      destruct (only_breaks text); [| reflexivity].
      discriminate (proj2 Hiff eq_refl).
  - intros [Hall Hne]. rewrite split_lines_single by exact Hall.
    cbn [List.filter]. rewrite Hne. reflexivity.
Qed.

Lemma split_commas_length (s : string) :
  length (split_commas s) = S (count_commas s).
Proof.
  induction s as [| c s IH]; cbn [split_commas count_commas]; [reflexivity |].
  destruct (Ascii.eqb c ","%char); cbn [length]; [rewrite IH; reflexivity |].
  destruct (split_commas s) as [| f fs]; [discriminate IH |]. exact IH.
Qed.

Lemma split_commas_clean (s : string) :
  Forall (fun f => all_chars not_comma f = true) (split_commas s).
Proof.
  induction s as [| c s IH]; cbn [split_commas].
  - constructor; [reflexivity | constructor].
  - destruct (Ascii.eqb c ","%char) eqn:Ec.
    + constructor; [reflexivity | exact IH].
    + destruct (split_commas s) as [| f fs].
      * constructor; [| constructor]. cbn. unfold not_comma. rewrite Ec. reflexivity.
      * inversion IH as [| ? ? Hf Hfs]; subst. constructor; [| exact Hfs].
        cbn. unfold not_comma at 1. rewrite Ec. exact Hf.
Qed.

Lemma splitCSVLine_length (line : string) :
  length (splitCSVLine line) = S (count_commas line).
Proof. unfold splitCSVLine. rewrite length_map. apply split_commas_length. Qed.

(** X7. [splitCSVLine] cuts at every comma, quoted or not: a line with
    [n] commas gives [n + 1] fields (never none), each without a comma and
    without white space at either end. *)
Theorem splitCSVLine_fields (line : string) :
  length (splitCSVLine line) = S (count_commas line) /\
  Forall (fun f => all_chars not_comma f = true /\ trim f = f) (splitCSVLine line).
Proof.
  split; [apply splitCSVLine_length |].
  unfold splitCSVLine.
  apply List.Forall_map. eapply List.Forall_impl; [| apply split_commas_clean].
  intros f Hf. split.
  - unfold trim. apply trim_end_all, trim_start_all, Hf.
  - apply trim_of_trimmed, trim_trimmed.
Qed.

Lemma fill_record_distinct (headers : list string) : forall parts obj,
  length parts = length headers ->
  NoDup (map fst obj ++ headers) ->
  fill_record headers parts obj =
    (obj ++ List.filter (fun kv => negb (String.eqb (fst kv) "__proto__"))
              (combine headers parts))%list.
Proof.
  induction headers as [| h headers IH]; intros parts obj Hlen Hnd.
  - destruct parts; cbn; rewrite app_nil_r; reflexivity.
  - destruct parts as [| p parts]; [discriminate Hlen |].
    cbn [fill_record combine List.filter fst].
    assert (Hlen' : length parts = length headers) by (cbn in Hlen; lia).
    destruct (String.eqb h "__proto__"); cbn [negb].
    + apply IH; [exact Hlen' |].
      apply NoDup_app in Hnd. destruct Hnd as (Hobj & Hdisj & Hh).
      apply NoDup_app. split; [exact Hobj |]. split.
      * intros x Hx Hin. apply (Hdisj x Hx). right. exact Hin.
      * apply NoDup_cons in Hh. apply Hh.
    + assert (Hfresh : entry_get h obj = None).
      { apply entry_get_None_not_In. intros Hin.
        apply NoDup_app in Hnd. destruct Hnd as (_ & Hdisj & _).
        apply (Hdisj h); [apply list_elem_of_In, Hin | left]. }
      rewrite entry_set_fresh by exact Hfresh.
      rewrite IH.
      * rewrite <- app_assoc. reflexivity.
      * exact Hlen'.
      * rewrite map_app. cbn [map fst]. rewrite <- app_assoc. exact Hnd.
Qed.

Lemma fill_record_keys (headers : list string) : forall parts obj,
  length parts = length headers ->
  (NoDup (map fst obj) -> NoDup (map fst (fill_record headers parts obj))) /\
  (forall k, In k (map fst (fill_record headers parts obj)) <->
             In k (map fst obj) \/ (In k headers /\ k <> "__proto__")).
Proof.
  induction headers as [| h headers IH]; intros parts obj Hlen.
  - destruct parts; cbn; split; auto; intros k; tauto.
  - destruct parts as [| p parts]; [discriminate Hlen |].
    cbn [fill_record].
    assert (Hlen' : length parts = length headers) by (cbn in Hlen; lia).
    destruct (String.eqb_spec h "__proto__") as [-> | Hne].
    + destruct (IH parts obj Hlen') as [Hnd Hkeys]. split; [exact Hnd |].
      intros k. rewrite Hkeys. cbn [In]. split.
      * intros [H | [H1 H2]]; auto.
      * intros [H | [[<- | H1] H2]]; [auto | congruence | auto].
    + destruct (IH parts (entry_set h p obj) Hlen') as [Hnd Hkeys]. split.
      * intros H. apply Hnd, entry_set_NoDup, H.
      * intros k. rewrite Hkeys, entry_set_keys. cbn [In]. split.
        -- intros [[-> | H] | [H1 H2]]; auto.
        -- intros [H | [[<- | H1] H2]]; auto.
Qed.

Lemma filter_combine_all (headers parts : list string) :
  ~ In "__proto__" headers ->
  List.filter (fun kv : string * string => negb (String.eqb (fst kv) "__proto__"))
    (combine headers parts) = combine headers parts.
Proof.
  intros Hnot. apply List.forallb_filter_id, forallb_forall.
  intros [k v] Hin. apply in_combine_l in Hin. cbn [fst].
  destruct (String.eqb_spec k "__proto__") as [-> | _]; [contradiction | reflexivity].
Qed.

(** X8. The rows [loadCSVRows] returns: one per line after the header
    that has as many commas as the header, in the order of the text.  The
    keys of a row are the header names, each once, except that a header
    named [__proto__] gives no key (the assignment of a string to that key
    creates no property); when the header names differ from one another
    the row pairs the j-th header with the j-th trimmed field of its line,
    that header left out. *)
Theorem loadCSVRows_rows_pair_header_with_fields (text : string) (rows : list Row) :
  loadCSVRows text = Returned rows ->
  exists header rest,
    List.filter nonempty (split_lines text) = header :: rest /\
    Forall2
      (fun line row =>
         NoDup (map fst row) /\
         (forall h, In h (map fst row) <->
                    In h (splitCSVLine header) /\ h <> "__proto__") /\
         (NoDup (splitCSVLine header) ->
          row = List.filter (fun kv => negb (String.eqb (fst kv) "__proto__"))
                  (combine (splitCSVLine header) (splitCSVLine line))) /\
         (NoDup (splitCSVLine header) -> ~ In "__proto__" (splitCSVLine header) ->
          row = combine (splitCSVLine header) (splitCSVLine line)))
      (List.filter (fun line => (count_commas line =? count_commas header)%nat) rest)
      rows.
Proof.
  unfold loadCSVRows.
  destruct (List.filter nonempty (split_lines text)) as [| header rest];
    [discriminate |].
  intros [= <-]. exists header, rest. split; [reflexivity |].
  fold (splitCSVLine header).
  induction rest as [| line rest IH]; cbn [parse_lines List.filter]; [constructor |].
  pose proof (splitCSVLine_length line) as Hl.
  pose proof (splitCSVLine_length header) as Hh.
  rewrite Hl, Hh. cbn [Nat.eqb].
  destruct (count_commas line =? count_commas header)%nat eqn:E; cbn [negb];
    [| exact IH].
  constructor; [| exact IH].
  apply Nat.eqb_eq in E.
  assert (Hlen : length (splitCSVLine line) = length (splitCSVLine header))
    by (rewrite Hl, Hh, E; reflexivity).
  destruct (fill_record_keys (splitCSVLine header) (splitCSVLine line) [] Hlen)
    as [Hnd Hkeys].
  assert (Hrow : NoDup (splitCSVLine header) ->
            fill_record (splitCSVLine header) (splitCSVLine line) [] =
              List.filter (fun kv => negb (String.eqb (fst kv) "__proto__"))
                (combine (splitCSVLine header) (splitCSVLine line)))
    by (intros Hdistinct; apply (fill_record_distinct _ _ [] Hlen); exact Hdistinct).
  split; [apply Hnd; constructor |]. split; [| split].
  - intros h. rewrite Hkeys. cbn. tauto.
  - exact Hrow.
  - intros Hdistinct Hnot. rewrite (Hrow Hdistinct). apply filter_combine_all, Hnot.
Qed.

Lemma loadCSVRows_rows_pair_header_with_fields_witness :
  exists header rest,
    List.filter nonempty
      (split_lines ("SUBDIVISION, __proto__" ++ newline ++ "Kerala ,1990" ++ newline
                    ++ "Kerala,1991,7"))
      = header :: rest /\
    Forall2
      (fun line row =>
         NoDup (map fst row) /\
         (forall h, In h (map fst row) <->
                    In h (splitCSVLine header) /\ h <> "__proto__") /\
         (NoDup (splitCSVLine header) ->
          row = List.filter (fun kv => negb (String.eqb (fst kv) "__proto__"))
                  (combine (splitCSVLine header) (splitCSVLine line))) /\
         (NoDup (splitCSVLine header) -> ~ In "__proto__" (splitCSVLine header) ->
          row = combine (splitCSVLine header) (splitCSVLine line)))
      (List.filter (fun line => (count_commas line =? count_commas header)%nat) rest)
      [[("SUBDIVISION", "Kerala")]].
Proof.
  apply loadCSVRows_rows_pair_header_with_fields. vm_compute. reflexivity.
Defined.

(** ** The choice of projection *)

Lemma within_iff (limit : Q) (n : number) :
  num_leb (Math_abs n) (Fin limit) = true <-> within limit n.
Proof.
  unfold within. destruct n as [| | q |]; cbn.
  - split; [discriminate | intros (q & H & _); discriminate H].
  - split; [discriminate | intros (q & H & _); discriminate H].
  - rewrite Qle_bool_iff, Qabs_Qle_condition. split.
    + intros H. exists q. split; [reflexivity | exact H].
    + intros (q' & [= <-] & H). exact H.
  - split; [discriminate | intros (q & H & _); discriminate H].
Qed.

(** X9. [chooseProjection] takes the Mercator projection exactly when
    all four bounds are finite numbers, the two longitudes within
    [-180, 180] and the two latitudes within [-90, 90]; in every other
    case (a bound that is NaN or infinite included, also one of the two
    upper bounds, which [isFinite] is not asked about) it takes the
    reflected identity. *)
Theorem chooseProjection_mercator_iff_lon_lat (b : Bounds) :
  (chooseProjection b = geoMercator <->
   within 180 (minX b) /\ within 180 (maxX b) /\
   within 90 (minY b) /\ within 90 (maxY b)) /\
  (chooseProjection b = geoIdentity_reflectY <->
   ~ (within 180 (minX b) /\ within 180 (maxX b) /\
      within 90 (minY b) /\ within 90 (maxY b))).
Proof.
  assert (Hiff : isLonLat b = true <->
                 within 180 (minX b) /\ within 180 (maxX b) /\
                 within 90 (minY b) /\ within 90 (maxY b)).
  { unfold isLonLat. rewrite !andb_true_iff, !within_iff. split.
    - intros (((((_ & _) & H1) & H2) & H3) & H4). auto.
    - intros (H1 & H2 & H3 & H4). repeat split; try assumption.
      + destruct H1 as (q & -> & _). reflexivity.
      + destruct H3 as (q & -> & _). reflexivity. }
  unfold chooseProjection. destruct (isLonLat b).
  - split; [split; [intros _; apply Hiff; reflexivity | reflexivity] |].
    split; [discriminate |]. intros H. exfalso. apply H, Hiff. reflexivity.
  - split.
    + split; [discriminate |]. intros H. apply Hiff in H. discriminate H.
    + split; [| reflexivity]. intros _ H. apply Hiff in H. discriminate H.
Qed.

(** ** The outline of the map *)

Section OutlineProofs.
Variable projection : Q * Q -> Q * Q.
Variable width height : Q.

Lemma ringLoop_chain (points : list (Q * Q)) : forall first prev verts,
  ringLoop projection width height points first prev verts =
    (verts ++ chain (prev :: map (project projection width height) points ++ [first]))%list.
Proof.
  induction points as [| point points IH]; intros first prev verts;
    cbn [ringLoop map app].
  - cbn [chain segment]. rewrite app_nil_r. reflexivity.
  - rewrite IH, <- app_assoc. reflexivity.
Qed.

Lemma addRing_chain (ring : list (Q * Q)) (verts : list Q) :
  addRing projection width height ring verts =
    (verts ++ if (length ring <? 2)%nat then []
              else chain (map (project projection width height) (closed ring)))%list.
Proof.
  destruct ring as [| p0 [| p1 rest]]; cbn [addRing length Nat.ltb Nat.leb closed];
    try (rewrite app_nil_r; reflexivity).
  rewrite ringLoop_chain. rewrite map_app. reflexivity.
Qed.

Lemma chain_length (pts : list (Q * Q)) :
  length (chain pts) = (6 * (length pts - 1))%nat.
Proof.
  induction pts as [| a [| b rest] IH]; [reflexivity | reflexivity |].
  change (chain (a :: b :: rest)) with (segment a b ++ chain (b :: rest))%list.
  rewrite length_app, IH. cbn [length segment]. lia.
Qed.

Lemma chain_triples (pts : list (Q * Q)) :
  exists vs, chain pts = flat_map (fun p => [fst p; snd p; 0%Q]) vs /\
             length vs = (2 * (length pts - 1))%nat.
Proof.
  induction pts as [| a [| b rest] IH]; [exists []; auto | exists []; auto |].
  destruct IH as (vs & Hvs & Hlen). exists (a :: b :: vs). split.
  - change (chain (a :: b :: rest)) with (segment a b ++ chain (b :: rest))%list.
    rewrite Hvs. reflexivity.
  - cbn [length] in Hlen |- *. lia.
Qed.

(** X10. [addRing] leaves out a ring of fewer than two points; any
    other ring of [n] points adds [n] segments: from each projected point
    to the next, and from the last back to the first. *)
Theorem addRing_draws_closed_ring (ring : list (Q * Q)) (verts : list Q) :
  ((length ring < 2)%nat ->
   addRing projection width height ring verts = verts) /\
  ((2 <= length ring)%nat ->
   addRing projection width height ring verts =
     (verts ++ chain (map (project projection width height) (closed ring)))%list /\
   length (addRing projection width height ring verts)
     = (length verts + 6 * length ring)%nat).
Proof.
  rewrite addRing_chain. split; intros Hlen.
  - apply Nat.ltb_lt in Hlen. rewrite Hlen, app_nil_r. reflexivity.
  - assert (E : (length ring <? 2)%nat = false) by (apply Nat.ltb_ge; exact Hlen).
    rewrite E. split; [reflexivity |].
    rewrite length_app, chain_length, length_map.
    destruct ring as [| p0 rest]; [cbn in Hlen; lia |].
    cbn [closed]. rewrite length_app. cbn [length]. lia.
Qed.

Lemma fold_left_appends {A : Type} (f : A -> list Q -> list Q) (g : A -> list Q)
    (l : list A) :
  (forall x v, f x v = (v ++ g x)%list) ->
  forall v, fold_left (fun v x => f x v) l v = (v ++ flat_map g l)%list.
Proof.
  intros Hf. induction l as [| x l IH]; intros v; cbn.
  - rewrite app_nil_r. reflexivity.
  - rewrite IH, Hf, <- app_assoc. reflexivity.
Qed.

Lemma addGeometry_rings (g : option Geometry) (verts : list Q) :
  addGeometry projection width height g verts =
    (verts ++ flat_map (fun ring => addRing projection width height ring [])
                (rings_of g))%list.
Proof.
  assert (Hring : forall ring v,
            addRing projection width height ring v
            = (v ++ addRing projection width height ring [])%list)
    by (intros ring v; rewrite !addRing_chain; reflexivity).
  destruct g as [[rings | polygons |] |]; cbn [addGeometry rings_of flat_map];
    try (rewrite app_nil_r; reflexivity).
  - apply (fold_left_appends (addRing projection width height)). exact Hring.
  - rewrite (fold_left_appends
               (fun polygon v =>
                  fold_left (fun v ring => addRing projection width height ring v)
                    polygon v)
               (flat_map (fun ring => addRing projection width height ring []))).
    + f_equal. induction polygons as [| p ps IH]; cbn; [reflexivity |].
      rewrite flat_map_app, IH. reflexivity.
    + intros polygon v.
      apply (fold_left_appends (addRing projection width height)). exact Hring.
Qed.

(** X11. The outline holds, feature after feature and ring after ring,
    the closed chains of the rings of the Polygon and MultiPolygon
    geometries; a feature without geometry or with one of another type
    adds nothing.  The buffer is a list of [(x, y, 0)] triples, two for
    each segment, and a ring of [n >= 2] points gives [n] segments. *)
Theorem buildOutlineGeometry_is_chain_of_rings (geometries : list (option Geometry)) :
  let verts := buildOutlineGeometry projection width height geometries in
  let rings := flat_map rings_of geometries in
  verts = flat_map (fun ring => addRing projection width height ring []) rings /\
  (exists vs, verts = flat_map (fun p => [fst p; snd p; 0%Q]) vs /\
              length vs = (2 * list_sum (map segments_of rings))%nat) /\
  length verts = (6 * list_sum (map segments_of rings))%nat.
Proof.
  intros verts rings.
  assert (Hverts : verts = flat_map (fun ring => addRing projection width height ring [])
                             rings).
  { subst verts rings. unfold buildOutlineGeometry.
    rewrite (fold_left_appends (addGeometry projection width height)
               (fun g => flat_map (fun ring => addRing projection width height ring [])
                           (rings_of g)))
      by (intros g v; apply addGeometry_rings).
    cbn [app]. induction geometries as [| g gs IH]; cbn; [reflexivity |].
    rewrite flat_map_app, IH. reflexivity. }
  split; [exact Hverts |].
  assert (Htriples : exists vs, verts = flat_map (fun p => [fst p; snd p; 0%Q]) vs /\
                                length vs = (2 * list_sum (map segments_of rings))%nat).
  { rewrite Hverts. clear Hverts verts. generalize rings as rs. clear rings.
    induction rs as [| ring rs IH]; [exists []; auto |].
    destruct IH as (vs & Hvs & Hlen). cbn [flat_map map list_sum].
    rewrite addRing_chain. cbn [app]. unfold list_sum. cbn [fold_right].
    fold (list_sum (map segments_of rs)). unfold segments_of at 1.
    destruct (length ring <? 2)%nat eqn:E.
    - exists vs. split; [exact Hvs | exact Hlen].
    - destruct (chain_triples (map (project projection width height) (closed ring)))
        as (ws & Hws & Hwlen).
      exists (ws ++ vs)%list. split.
      + rewrite flat_map_app, Hws, Hvs. reflexivity.
      + rewrite length_app, Hwlen, Hlen, length_map.
        apply Nat.ltb_ge in E. destruct ring as [| p0 rest]; [cbn in E; lia |].
        cbn [closed]. rewrite length_app. cbn [length]. lia. }
  split; [exact Htriples |].
  destruct Htriples as (vs & -> & Hlen).
  assert (H3 : length (flat_map (fun p : Q * Q => [fst p; snd p; 0%Q]) vs)
               = (3 * length vs)%nat).
  { clear. induction vs as [| p vs IH]; cbn [flat_map length app]; [reflexivity |].
    rewrite IH. lia. }
  rewrite H3, Hlen. lia.
Qed.
End OutlineProofs.

Lemma addRing_draws_closed_ring_witness :
  addRing (fun p => p) 0 0 [(0, 0); (1, 0); (1, 1)]%Q [] =
    chain (map (project (fun p => p) 0 0) (closed [(0, 0); (1, 0); (1, 1)]%Q)) /\
  length (addRing (fun p => p) 0 0 [(0, 0); (1, 0); (1, 1)]%Q []) = 18%nat /\
  addRing (fun p => p) 0 0 [(5, 5)]%Q [] = [].
Proof.
  split; [| split].
  - apply (proj2 (addRing_draws_closed_ring (fun p => p) 0 0
                    [(0, 0); (1, 0); (1, 1)]%Q [])). cbn. lia.
  - apply (proj2 (addRing_draws_closed_ring (fun p => p) 0 0
                    [(0, 0); (1, 0); (1, 1)]%Q [])). cbn. lia.
  - apply (proj1 (addRing_draws_closed_ring (fun p => p) 0 0 [(5, 5)]%Q [])).
    cbn. lia.
Defined.

(** ** The rainfall table keeps every row of a region *)

Section SortPermutation.
Context {A : Type}.
Variable cmp : A -> A -> number.

Lemma sort_insert_Permutation (x : A) (l : list A) :
  Permutation (sort_insert cmp x l) (x :: l).
Proof.
  induction l as [| y l IH]; cbn [sort_insert]; [reflexivity |].
  destruct (num_ltb (Fin 0) (cmp x y)); [| reflexivity].
  rewrite IH. apply perm_swap.
Qed.

Lemma Array_sort_Permutation (l : list A) : Permutation (Array_sort cmp l) l.
Proof.
  induction l as [| a l IH]; cbn [Array_sort foldr]; [reflexivity |].
  fold (Array_sort cmp l). rewrite sort_insert_Permutation, IH. reflexivity.
Qed.
End SortPermutation.

Lemma num_ltb_leb (a b : number) : num_ltb a b = true -> num_leb a b = true.
Proof.
  destruct a as [| | p |], b as [| | q |]; cbn; try discriminate; try reflexivity.
  rewrite negb_true_iff, Qle_bool_false_iff, Qle_bool_iff. intros; lra.
Qed.

Section IngestMore.
Variable StringToNumber : string -> number.
Variable rand : nat -> Q.
Variable THREE_Color : string -> Q * Q * Q.

Lemma ingestRainRows_yearIndex (has_yearSelect : bool) (rows : list Row) (st : App) :
  let st' :=
    fst (ingestRainRows StringToNumber rand THREE_Color has_yearSelect rows st) in
  yearIndex st' =
    if has_yearSelect then (length (yearList st') - 1)%nat else yearIndex st.
Proof.
  unfold ingestRainRows.
  match goal with
  | |- context [buildAllFerns _ _ _ ?s] =>
      set (st2 := s);
      pose proof (buildAllFerns_spec StringToNumber rand THREE_Color st2) as Hb;
      destruct (buildAllFerns StringToNumber rand THREE_Color st2) as [st3 missing]
  end.
  cbn [fst snd] in *.
  destruct Hb as ((_ & _ & _ & _ & _ & Hy & _ & Hi & _) & _).
  destruct (updateAllFerns_frame StringToNumber rand THREE_Color st3)
    as (_ & _ & _ & _ & _ & Hy' & _ & _ & _ & Hi' & _).
  rewrite Hi', Hy', Hi, Hy.
  subst st2. unfold buildYearSelect. destruct has_yearSelect; cbn; reflexivity.
Qed.

(** X12. Ingestion loses and duplicates nothing: the sequence stored for
    a region is a rearrangement of the input rows whose SUBDIVISION is
    that region, a region is stored exactly when it has such a row, and
    no region is stored twice. *)
Theorem ingestRainRows_keeps_the_rows_of_a_region
    (has_yearSelect : bool) (rows : list Row) (st : App) (sub : string) :
  let st' :=
    fst (ingestRainRows StringToNumber rand THREE_Color has_yearSelect rows st) in
  match entry_get sub (dataBySubdivision st') with
  | Some arr => Permutation arr (List.filter (in_region sub) rows) /\ arr <> []
  | None => List.filter (in_region sub) rows = []
  end /\
  NoDup (map fst (dataBySubdivision st')).
Proof.
  intros st'.
  destruct (ingestRainRows_lists StringToNumber rand THREE_Color has_yearSelect rows st)
    as (Hd & _).
  fold st' in Hd. rewrite Hd. split; [| apply tableOf_NoDup].
  rewrite tableOf_get.
  destruct (List.filter (in_region sub) rows) as [| r added]; [reflexivity |].
  pose proof (Array_sort_Permutation (byYear StringToNumber) (r :: added)) as Hperm.
  split; [exact Hperm |].
  intros Hnil. rewrite Hnil in Hperm. apply Permutation_nil in Hperm.
  discriminate Hperm.
Qed.

(** X13. When the page has a year select, ingestion leaves the year
    index on the last entry of [yearList], which is the greatest year of
    the table; without the select the year index is left as it was. *)
Theorem ingestRainRows_selects_latest_year (rows : list Row) (st : App) :
  let shown := fst (ingestRainRows StringToNumber rand THREE_Color true rows st) in
  let hidden := fst (ingestRainRows StringToNumber rand THREE_Color false rows st) in
  yearIndex shown = (length (yearList shown) - 1)%nat /\
  (forall y, yearList shown !! yearIndex shown = Some y ->
     forall y', In y' (yearList shown) -> num_leb y' y = true) /\
  (yearList shown <> [] -> exists y, yearList shown !! yearIndex shown = Some y) /\
  yearIndex hidden = yearIndex st /\
  yearList hidden = yearList shown.
Proof.
  intros shown hidden.
  pose proof (ingestRainRows_yearIndex true rows st) as Hi.
  cbv beta zeta iota in Hi. fold shown in Hi.
  pose proof (ingestRainRows_yearIndex false rows st) as Hh.
  cbv beta zeta iota in Hh. fold hidden in Hh.
  destruct (ingestRainRows_lists StringToNumber rand THREE_Color true rows st)
    as (_ & _ & Hy).
  destruct (ingestRainRows_lists StringToNumber rand THREE_Color false rows st)
    as (_ & _ & Hy').
  fold shown in Hy. fold hidden in Hy'.
  assert (Hempty : year_set []) by (split; constructor).
  destruct (collectYears_spec StringToNumber (tableOf StringToNumber rows) [] Hempty)
    as ((Hfin & Hpairs) & _).
  pose proof (sort_numbers_strict _ Hfin Hpairs) as Hsorted. rewrite <- Hy in Hsorted.
  assert (Hfinite : Forall is_finite (yearList shown))
    by (rewrite Hy; apply Array_sort_Forall, Hfin).
  split; [exact Hi |]. split; [| split; [| split; [exact Hh | congruence]]].
  - intros y Hlast y' Hin.
    apply list_elem_of_In, list_elem_of_lookup in Hin. destruct Hin as [j Hj].
    pose proof (lookup_lt_Some _ _ _ Hj) as Hlt.
    destruct (Nat.eq_dec j (yearIndex shown)) as [-> | Hne].
    + assert (y' = y) by congruence. subst y'.
      rewrite List.Forall_forall in Hfinite.
      destruct (Hfinite y) as [q ->];
        [apply list_elem_of_In, (list_elem_of_lookup_2 _ _ _ Hj) |].
      cbn. apply Qle_bool_iff. lra.
    + apply num_ltb_leb.
      apply (StronglySorted_lookup _ _ Hsorted j (yearIndex shown)); [lia | | ]; assumption.
  - intros Hne. rewrite Hi. apply lookup_lt_is_Some_2.
    destruct (yearList shown); [congruence | cbn; lia].
Qed.
End IngestMore.

(** ** The stepper and the two listeners *)

Section ListenerProofs.
Variable StringToNumber : string -> number.
Variable rand : nat -> Q.
Variable THREE_Color : string -> Q * Q * Q.

Lemma tickDue_frame (now : Q) (st st' : App) :
  yearList st' = yearList st -> tickMs st' = tickMs st -> lastTime st' = lastTime st ->
  tickDue now st' = tickDue now st.
Proof. intros Hy Ht Hl. unfold tickDue. rewrite Hy, Ht, Hl. reflexivity. Qed.

(** X14. The stepper does nothing while no year is loaded and nothing
    until a full tick has passed since the last advance; in particular a
    frame that follows an advance by less than [tickMs] changes
    nothing. *)
Theorem step_waits_for_a_full_tick (now later : Q) (st : App) :
  (yearList st = [] -> step StringToNumber rand THREE_Color now st = st) /\
  ((now - lastTime st < tickMs st)%Q ->
   step StringToNumber rand THREE_Color now st = st) /\
  (tickDue now st = true -> (later - now < tickMs st)%Q ->
   step StringToNumber rand THREE_Color later
     (step StringToNumber rand THREE_Color now st)
   = step StringToNumber rand THREE_Color now st).
Proof.
  split; [| split].
  - intros Hy. apply step_not_due. unfold tickDue. rewrite Hy. apply andb_false_r.
  - intros Hlt. apply step_not_due. unfold tickDue.
    rewrite (proj2 (Qle_bool_false_iff _ _) Hlt). reflexivity.
  - intros Hdue Hlt.
    destruct (step_due StringToNumber rand THREE_Color now st Hdue)
      as (_ & _ & _ & Ht & Hl).
    apply step_not_due. unfold tickDue. rewrite Ht, Hl.
    rewrite (proj2 (Qle_bool_false_iff _ _) Hlt). reflexivity.
Qed.

Lemma indexOf_spec (v : number) (l : list number) : forall k,
  match indexOf v l k with
  | Some i =>
      (k <= i)%nat /\
      exists y, l !! (i - k)%nat = Some y /\ num_eqb y v = true /\
        forall j yj, (j < i - k)%nat -> l !! j = Some yj -> num_eqb yj v = false
  | None => forall y, In y l -> num_eqb y v = false
  end.
Proof.
  induction l as [| y l IH]; intros k; cbn [indexOf].
  - intros y [].
  - destruct (num_eqb y v) eqn:E.
    + split; [lia |]. exists y. rewrite Nat.sub_diag.
      split; [reflexivity |]. split; [exact E |]. intros; lia.
    + specialize (IH (S k)). destruct (indexOf v l (S k)) as [i |].
      * destruct IH as (Hle & y0 & Hy0 & Heq & Hbefore).
        split; [lia |]. exists y0.
        replace (i - k)%nat with (S (i - S k)) by lia.
        split; [exact Hy0 |]. split; [exact Heq |].
        intros [| j] yj Hj Hyj; [cbn in Hyj; congruence |].
        apply (Hbefore j); [lia | exact Hyj].
      * intros y' [<- | Hin]; auto.
Qed.

(** X15. The year listener changes nothing when the chosen number is
    not an entry of [yearList] (a value that does not parse, NaN,
    included); otherwise it moves the year index to the first entry equal
    to it.  It never touches the month, the year list or the timer. *)
Theorem onYearChange_selects_a_listed_year (v : number) (st : App) :
  let st' := onYearChange StringToNumber rand THREE_Color v st in
  monthIndex st' = monthIndex st /\
  yearList st' = yearList st /\
  lastTime st' = lastTime st /\
  ((forall y, In y (yearList st) -> num_eqb y v = false) -> st' = st) /\
  (forall y, In y (yearList st) -> num_eqb y v = true ->
     exists y0, yearList st !! yearIndex st' = Some y0 /\ num_eqb y0 v = true /\
       forall j yj, (j < yearIndex st')%nat -> yearList st !! j = Some yj ->
                    num_eqb yj v = false) /\
  onYearChange StringToNumber rand THREE_Color NaN st = st.
Proof.
  intros st'. subst st'. unfold onYearChange.
  pose proof (indexOf_spec v (yearList st) 0) as Hv.
  pose proof (indexOf_spec NaN (yearList st) 0) as Hnan.
  assert (Enan : indexOf NaN (yearList st) 0 = None).
  { destruct (indexOf NaN (yearList st) 0) as [i |]; [| reflexivity].
    destruct Hnan as (_ & y & _ & Hy & _). destruct y; discriminate Hy. }
  rewrite Enan.
  destruct (indexOf v (yearList st) 0) as [idx |].
  - match goal with
    | |- context [updateAllFerns _ _ _ ?s] =>
        destruct (updateAllFerns_frame StringToNumber rand THREE_Color s)
          as (_ & _ & _ & _ & _ & Hy & _ & _ & Hm & Hi & _ & Hl & _)
    end.
    cbn [monthIndex yearList lastTime yearIndex] in Hy, Hm, Hi, Hl.
    rewrite Hy, Hm, Hi, Hl.
    destruct Hv as (_ & y0 & Hy0 & Heq & Hbefore). rewrite Nat.sub_0_r in Hy0, Hbefore.
    repeat apply conj; try reflexivity.
    + intros Hnone. apply list_elem_of_lookup_2, list_elem_of_In in Hy0.
      rewrite (Hnone y0 Hy0) in Heq. discriminate Heq.
    + intros y _ _. exists y0. auto.
  - repeat apply conj; try reflexivity.
    intros y Hin Heq. rewrite (Hv y Hin) in Heq. discriminate Heq.
Qed.

(** X16. A click on the [i]-th month shows that month and leaves the
    year and the timer alone: the next automatic advance is due when it
    was due before, and it then moves on from the clicked month, to month
    [(i + 1) mod 12]. *)
Theorem onMonthClick_then_tick_moves_on (i : nat) (now : Q) (st : App) :
  (i < 12)%nat ->
  let clicked := onMonthClick StringToNumber rand THREE_Color i st in
  monthIndex clicked = Z.of_nat i /\
  yearIndex clicked = yearIndex st /\
  tickDue now clicked = tickDue now st /\
  (tickDue now st = true ->
   monthIndex (step StringToNumber rand THREE_Color now clicked)
   = Z.of_nat (S i mod 12)).
Proof.
  intros Hi clicked. subst clicked. unfold onMonthClick.
  match goal with
  | |- context [updateAllFerns _ _ _ ?s] =>
      set (st1 := s);
      destruct (updateAllFerns_frame StringToNumber rand THREE_Color st1)
        as (_ & _ & _ & _ & _ & Hy & _ & _ & Hm & Hyi & Ht & Hl & _)
  end.
  assert (Hdue : tickDue now (updateAllFerns StringToNumber rand THREE_Color st1)
                 = tickDue now st)
    by (rewrite (tickDue_frame now st1 _ Hy Ht Hl); reflexivity).
  split; [rewrite Hm; reflexivity |]. split; [rewrite Hyi; reflexivity |].
  split; [exact Hdue |].
  intros H. rewrite <- Hdue in H.
  destruct (step_due StringToNumber rand THREE_Color now _ H) as (Hstep & _).
  rewrite Hstep, Hm. cbn [monthIndex st1].
  rewrite Z.rem_mod_nonneg by lia.
  rewrite Nat2Z.inj_mod. f_equal. lia.
Qed.
End ListenerProofs.

Lemma step_waits_for_a_full_tick_witness :
  let rows := [[("SUBDIVISION", "Kerala"); ("YEAR", "2000"); ("JAN", "12")]] in
  let rand := fun _ : nat => 0.5%Q in
  let color := fun _ : string => (1%Q, 1%Q, 1%Q) in
  let st := fst (ingestRainRows decimalToNumber rand color true rows initial) in
  tickDue 1200 st = true /\
  step decimalToNumber rand color 2000 (step decimalToNumber rand color 1200 st)
  = step decimalToNumber rand color 1200 st /\
  step decimalToNumber rand color 1000 st = st.
Proof.
  intros rows rand color st.
  destruct (ingestRainRows_lists decimalToNumber rand color true rows initial)
    as (_ & _ & Hy).
  destruct (ingestRainRows_keeps decimalToNumber rand color true rows initial)
    as (_ & _ & Ht & Hl).
  fold st in Hy, Ht, Hl.
  assert (Hdue : tickDue 1200 st = true)
    by (unfold tickDue; rewrite Hy, Ht, Hl; vm_compute; reflexivity).
  split; [exact Hdue |]. split.
  - apply (proj2 (proj2 (step_waits_for_a_full_tick decimalToNumber rand color
                           1200 2000 st))); [exact Hdue |].
    rewrite Ht. vm_compute. reflexivity.
  - apply (proj1 (proj2 (step_waits_for_a_full_tick decimalToNumber rand color
                           1000 1000 st))).
    rewrite Ht, Hl. vm_compute. reflexivity.
Defined.

Lemma onMonthClick_then_tick_moves_on_witness :
  let rows := [[("SUBDIVISION", "Kerala"); ("YEAR", "2000"); ("JAN", "12")]] in
  let rand := fun _ : nat => 0.5%Q in
  let color := fun _ : string => (1%Q, 1%Q, 1%Q) in
  let st := fst (ingestRainRows decimalToNumber rand color true rows initial) in
  tickDue 1200 st = true /\
  monthIndex (step decimalToNumber rand color 1200
                (onMonthClick decimalToNumber rand color 11 st)) = 0%Z.
Proof.
  intros rows rand color st.
  destruct (ingestRainRows_lists decimalToNumber rand color true rows initial)
    as (_ & _ & Hy).
  destruct (ingestRainRows_keeps decimalToNumber rand color true rows initial)
    as (_ & _ & Ht & Hl).
  fold st in Hy, Ht, Hl.
  assert (Hdue : tickDue 1200 st = true)
    by (unfold tickDue; rewrite Hy, Ht, Hl; vm_compute; reflexivity).
  split; [exact Hdue |].
  assert (Hlt : (11 < 12)%nat) by lia.
  exact (proj2 (proj2 (proj2
    (onMonthClick_then_tick_moves_on decimalToNumber rand color 11 1200 st Hlt)))
    Hdue).
Defined.

(** ** The name of a feature *)

Lemma nonempty_false_iff (s : string) : nonempty s = false <-> s = EmptyString.
Proof. unfold nonempty. rewrite negb_false_iff. apply String.eqb_eq. Qed.

Lemma first_truthy_spec (props : list (string * string)) (names : list string) :
  (first_truthy props names = EmptyString <->
   forall n, In n names -> blank_field props n) /\
  (first_truthy props names <> EmptyString ->
   exists i n, names !! i = Some n /\
     entry_get n props = Some (first_truthy props names) /\
     forall j m, (j < i)%nat -> names !! j = Some m -> blank_field props m).
Proof.
  induction names as [| n names [IHe IHn]]; cbn [first_truthy].
  - split; [split; [intros _ n [] | reflexivity] | congruence].
  - assert (Hskip : blank_field props n ->
      (first_truthy props names = EmptyString <->
       forall n0, In n0 (n :: names) -> blank_field props n0) /\
      (first_truthy props names <> EmptyString ->
       exists i n0, (n :: names) !! i = Some n0 /\
         entry_get n0 props = Some (first_truthy props names) /\
         forall j m, (j < i)%nat -> (n :: names) !! j = Some m -> blank_field props m)).
    { intros Hblank. split.
      - rewrite IHe. split.
        + intros H n0 [<- | Hin]; auto.
        + intros H n0 Hin. apply H. right. exact Hin.
      - intros Hne. destruct (IHn Hne) as (i & n0 & Hi & Hget & Hbefore).
        exists (S i), n0. split; [exact Hi |]. split; [exact Hget |].
        intros [| j] m Hj Hm; [cbn in Hm; injection Hm as <-; exact Hblank |].
        apply (Hbefore j); [lia | exact Hm]. }
    destruct (entry_get n props) as [s |] eqn:E.
    + destruct (nonempty s) eqn:Es.
      * assert (Hs : s <> EmptyString)
          by (intros ->; discriminate Es).
        split.
        -- split; [intros H; contradiction |].
           intros H. destruct (H n (or_introl eq_refl)) as [Hb | Hb];
             rewrite E in Hb; congruence.
        -- intros _. exists 0%nat, n. split; [reflexivity |].
           split; [exact E |]. intros; lia.
      * apply nonempty_false_iff in Es. subst s. apply Hskip. right. exact E.
    + apply Hskip. left. exact E.
Qed.

(** X17. [getName] returns the empty string exactly when every
    candidate field is missing or empty; otherwise it returns the value of
    the first candidate, in the order SUBDIVISION, SUB-DIV, MET_SUBDIV,
    DIVISION, NAME_1, NAME, name, subdivisio, that holds a non-empty
    string. *)
Theorem getName_takes_first_nonempty_candidate (props : list (string * string)) :
  (getName props = EmptyString <->
   forall n, In n NAME_FIELDS -> blank_field props n) /\
  (getName props <> EmptyString ->
   exists i n, NAME_FIELDS !! i = Some n /\
     entry_get n props = Some (getName props) /\
     forall j m, (j < i)%nat -> NAME_FIELDS !! j = Some m -> blank_field props m) /\
  getName [] = EmptyString.
Proof.
  destruct (first_truthy_spec props NAME_FIELDS) as [He Hn].
  split; [exact He |]. split; [exact Hn | reflexivity].
Qed.

(** ** A value that is not there *)

Section MissingValue.
Variable StringToNumber : string -> number.

Lemma scanBack_In (arr : list Row) (y : value) (n : nat) (r : Row) :
  scanBack StringToNumber arr y n = Some r -> In r arr.
Proof.
  intros H. pose proof (scanBack_spec StringToNumber arr y n) as Hs.
  rewrite H in Hs. destruct Hs as (i & _ & Hi & _).
  apply list_elem_of_In, (list_elem_of_lookup_2 _ _ _ Hi).
Qed.

(** The value comes from a record of the region itself. *)
Lemma valueFor_cell data sub y m first rest :
  entry_get sub data = Some (first :: rest) ->
  exists r, In r (first :: rest) /\
    valueFor StringToNumber data (Some sub) y m
    = ToNumber StringToNumber (field r (prop_key m)).
Proof.
  intros Harr. rewrite (valueFor_nonempty StringToNumber data sub y m first rest Harr).
  destruct (List.find _ (first :: rest)) as [r |] eqn:Efind.
  - exists r. split; [apply (List.find_some _ _ Efind) | reflexivity].
  - destruct (scanBack StringToNumber (first :: rest) y (length (first :: rest)))
      as [r |] eqn:Escan.
    + exists r. split; [apply (scanBack_In _ _ _ _ Escan) | reflexivity].
    + exists first. split; [left; reflexivity | reflexivity].
Qed.

(** X18. When no record of the region has the requested column (an
    undefined month included), or the region is unknown, [valueFor] gives
    NaN whatever the year, and the fern drawn for it has the grey style of
    5000 points. *)
Theorem missing_value_gives_grey_fern
    (data : list (string * list Row)) (sub : string) (y : value) (m : option string) :
  (forall arr r, entry_get sub data = Some arr -> In r arr ->
                 entry_get (prop_key m) r = None) ->
  valueFor StringToNumber data (Some sub) y m = NaN /\
  chooseStyle (Num (valueFor StringToNumber data (Some sub) y m))
  = ("#555555", 5000%nat).
Proof.
  intros Hmissing.
  assert (Hnan : valueFor StringToNumber data (Some sub) y m = NaN).
  { destruct (entry_get sub data) as [[| first rest] |] eqn:Harr.
    - unfold valueFor, mbind, option_bind. rewrite Harr. reflexivity.
    - destruct (valueFor_cell data sub y m first rest Harr) as (r & Hin & ->).
      unfold field. rewrite (Hmissing _ r eq_refl Hin). reflexivity.
    - unfold valueFor, mbind, option_bind. rewrite Harr. reflexivity. }
  split; [exact Hnan |]. rewrite Hnan. reflexivity.
Qed.
End MissingValue.

Lemma missing_value_gives_grey_fern_witness :
  valueFor decimalToNumber [("Kerala", [[("YEAR", "2000"); ("JAN", "12")]])]
    (Some "Kerala") (Num (Fin 2000)) (Some "FEB") = NaN /\
  chooseStyle
    (Num (valueFor decimalToNumber [("Kerala", [[("YEAR", "2000"); ("JAN", "12")]])]
            (Some "Kerala") (Num (Fin 2000)) (Some "FEB")))
  = ("#555555", 5000%nat).
Proof.
  apply missing_value_gives_grey_fern.
  intros arr r Harr Hin. cbn in Harr. injection Harr as <-.
  destruct Hin as [<- | []]. reflexivity.
Defined.

(** ** Anchors and labels *)

Lemma Some_eq_inv {A : Type} (a b : A) : Some a = Some b -> a = b.
Proof. intros H. injection H as H. exact H. Qed.

Lemma NAME_ALIASES_values_nonempty (k v : string) :
  entry_get k NAME_ALIASES = Some v -> nonempty v = true.
Proof.
  intros H. apply entry_get_Some_In in H.
  assert (Hall : forallb (fun kv : string * string => nonempty (snd kv)) NAME_ALIASES
                 = true) by (vm_compute; reflexivity).
  rewrite forallb_forall in Hall. apply (Hall (k, v) H).
Qed.

(** The map side and the fern side compute the same key for a name. *)
Lemma featureKey_topoKeyOf (name : string) : featureKey name = topoKeyOf name.
Proof.
  unfold featureKey, topoKeyOf, truthy_entry.
  destruct (entry_get (norm (Some name)) NAME_ALIASES) as [v |] eqn:E; [| reflexivity].
  rewrite (NAME_ALIASES_values_nonempty _ _ E). reflexivity.
Qed.

Section AnchorProofs.
Variable path_centroid : Q -> Q -> list Feature -> Feature -> Q * Q.

(** The entries the loop of [rebuildAnchorsFromMap] writes, in order. *)
Lemma anchorLoop_entries w h geo features : forall anchors0 scales,
  anchorLoop path_centroid w h geo features anchors0 scales =
    (fold_left (fun o kv => entry_set (fst kv) (snd kv) o)
       (flat_map (fun f => match anchorKey f with
                           | Some k => [(k, centred path_centroid w h geo f)]
                           | None => []
                           end) features)
       anchors0,
     scales).
Proof.
  induction features as [| f features IH]; intros anchors0 scales;
    cbn [anchorLoop flat_map]; [reflexivity |].
  unfold anchorKey at 1, centred at 1, featureKey.
  destruct (nonempty (getName (feat_properties f))); cbn [negb app];
    [| apply IH].
  destruct (path_centroid w h geo f) as [cx cy].
  change overrideMap with (@nil (string * Override)).
  cbn [entry_get].
  replace (truthy_entry _ REVERSE_ALIASES ≫= (fun k : string => @None Override))
    with (@None Override) by (destruct (truthy_entry _ REVERSE_ALIASES); reflexivity).
  rewrite IH. reflexivity.
Qed.

Lemma rebuildAnchorsFromMap_anchors w h st :
  anchors (rebuildAnchorsFromMap path_centroid w h st) =
    Object_fromEntries
      (flat_map (fun f => match anchorKey f with
                          | Some k =>
                              [(k, centred path_centroid w h (default [] (geojson st)) f)]
                          | None => []
                          end) (default [] (geojson st))).
Proof.
  unfold rebuildAnchorsFromMap. rewrite anchorLoop_entries. reflexivity.
Qed.

Lemma anchor_entries_In w h geo (features : list Feature) (k : string) (pos : Vector3) :
  In (k, pos)
    (flat_map (fun f => match anchorKey f with
                        | Some k => [(k, centred path_centroid w h geo f)]
                        | None => []
                        end) features) <->
  exists f, In f features /\ anchorKey f = Some k /\
            pos = centred path_centroid w h geo f.
Proof.
  rewrite in_flat_map. split.
  - intros (f & Hf & Hin). exists f. split; [exact Hf |].
    destruct (anchorKey f) as [k' |]; [| destruct Hin].
    destruct Hin as [[= <- <-] | []]. auto.
  - intros (f & Hf & Hk & ->). exists f. split; [exact Hf |].
    rewrite Hk. left. reflexivity.
Qed.

(** X19. [rebuildAnchorsFromMap] builds the anchors from the features
    alone, whatever they were before: a key has an anchor exactly when a
    named feature has that key, the anchor is the centred centroid of a
    feature with that key, the last such feature in the collection, and
    it lies in the plane [z = 0].  No key appears twice, no scale is
    registered (the override table is empty), and a second call changes
    nothing. *)
Theorem rebuildAnchorsFromMap_rebuilds_from_features (w h : Q) (st : App) :
  let st' := rebuildAnchorsFromMap path_centroid w h st in
  let geo := default [] (geojson st) in
  (forall k pos, entry_get k (anchors st') = Some pos ->
     vz pos = 0%Q /\
     exists f, In f geo /\ anchorKey f = Some k /\
               pos = centred path_centroid w h geo f) /\
  (forall f k, In f geo -> anchorKey f = Some k ->
     exists pos, entry_get k (anchors st') = Some pos) /\
  (forall before f after k,
     geo = (before ++ f :: after)%list -> anchorKey f = Some k ->
     (forall g, In g after -> anchorKey g <> Some k) ->
     entry_get k (anchors st') = Some (centred path_centroid w h geo f)) /\
  NoDup (map fst (anchors st')) /\
  scaleBySubdivision st' = scaleBySubdivision st /\
  rebuildAnchorsFromMap path_centroid w h st' = st'.
Proof.
  intros st' geo.
  pose proof (rebuildAnchorsFromMap_anchors w h st) as Ha.
  fold st' geo in Ha. rewrite Ha.
  split; [| split; [| split; [| split; [| split]]]].
  - intros k pos Hget. apply Object_fromEntries_In, anchor_entries_In in Hget.
    split; [| exact Hget].
    destruct Hget as (f & _ & _ & ->). unfold centred.
    destruct (path_centroid w h geo f). reflexivity.
  - intros f k Hf Hk. apply Object_fromEntries_keys, in_map_iff.
    exists (k, centred path_centroid w h geo f). split; [reflexivity |].
    apply anchor_entries_In. exists f. auto.
  - intros before f after k Hgeo Hk Hafter.
    set (F := fun f0 : Feature =>
                match anchorKey f0 with
                | Some k0 => [(k0, centred path_centroid w h geo f0)]
                | None => []
                end).
    assert (Hsplit : forall l, l = (before ++ f :: after)%list ->
              flat_map F l = (flat_map F before ++ F f ++ flat_map F after)%list)
      by (intros l ->; rewrite flat_map_app; reflexivity).
    assert (HFf : F f = [(k, centred path_centroid w h geo f)])
      by (unfold F; rewrite Hk; reflexivity).
    rewrite (Hsplit geo Hgeo), HFf. cbn [app].
    apply Object_fromEntries_last.
    intros [k' pos'] Hin Heq. cbn in Heq. subst k'.
    apply anchor_entries_In in Hin. destruct Hin as (g & Hg & Hgk & _).
    exact (Hafter g Hg Hgk).
  - apply Object_fromEntries_NoDup.
  - apply rebuildAnchorsFromMap_scales.
  - subst st'. unfold rebuildAnchorsFromMap. rewrite !anchorLoop_entries.
    cbn [geojson scaleBySubdivision]. reflexivity.
Qed.

Lemma labelLoop_entries w h geo features : forall labels,
  labelLoop path_centroid w h geo features labels =
    (labels ++
     flat_map (fun f => if nonempty (getName (feat_properties f))
                        then [(getName (feat_properties f),
                               centred path_centroid w h geo f)]
                        else []) features)%list.
Proof.
  induction features as [| f features IH]; intros labels; cbn [labelLoop flat_map].
  - rewrite app_nil_r. reflexivity.
  - unfold centred at 1.
    destruct (nonempty (getName (feat_properties f))); cbn [negb app]; [| apply IH].
    destruct (path_centroid w h geo f) as [cx cy].
    rewrite IH, <- app_assoc. reflexivity.
Qed.

(** X20. [makeLabelSprites] makes one label for each feature that has a
    name, in the order of the features, showing the raw name.  Every
    anchor of the map is the position of a label, namely of one whose name
    has the anchor's key, and every label has an anchor under the key of
    its name. *)
Theorem labels_and_anchors_share_positions (w h : Q) (st : App) (geo : list Feature) :
  geojson st = Some geo ->
  let labels := makeLabelSprites path_centroid w h geo in
  let st' := rebuildAnchorsFromMap path_centroid w h st in
  map fst labels
    = List.filter nonempty (map (fun f => getName (feat_properties f)) geo) /\
  (forall k pos, entry_get k (anchors st') = Some pos ->
     exists name, In (name, pos) labels /\ featureKey name = k) /\
  (forall name pos, In (name, pos) labels ->
     name <> EmptyString /\
     exists pos', entry_get (featureKey name) (anchors st') = Some pos').
Proof.
  intros Hgeo labels st'.
  assert (Hlabels : forall name pos, In (name, pos) labels <->
            exists f, In f geo /\ nonempty (getName (feat_properties f)) = true /\
                      name = getName (feat_properties f) /\
                      pos = centred path_centroid w h geo f).
  { intros name pos. subst labels. unfold makeLabelSprites.
    rewrite labelLoop_entries. cbn [app]. rewrite in_flat_map. split.
    - intros (f & Hf & Hin). exists f. split; [exact Hf |].
      destruct (nonempty (getName (feat_properties f))); [| destruct Hin].
      destruct Hin as [[= <- <-] | []]. auto.
    - intros (f & Hf & Hne & -> & ->). exists f. split; [exact Hf |].
      rewrite Hne. left. reflexivity. }
  pose proof (rebuildAnchorsFromMap_anchors w h st) as Ha.
  rewrite Hgeo in Ha. change (default [] (Some geo)) with geo in Ha.
  fold st' in Ha.
  split; [| split].
  - subst labels. unfold makeLabelSprites. rewrite labelLoop_entries. cbn [app].
    clear. generalize geo at 1 as g0. intros g0.
    induction geo as [| f geo IH]; cbn [flat_map map List.filter]; [reflexivity |].
    destruct (nonempty (getName (feat_properties f))); cbn [app map fst];
      rewrite IH; reflexivity.
  - intros k pos Hget. rewrite Ha in Hget.
    apply Object_fromEntries_In, anchor_entries_In in Hget.
    destruct Hget as (f & Hf & Hk & ->). unfold anchorKey in Hk.
    destruct (nonempty (getName (feat_properties f))) eqn:Hne; [| discriminate Hk].
    apply Some_eq_inv in Hk. subst k. exists (getName (feat_properties f)).
    split; [| reflexivity]. apply Hlabels. exists f. auto.
  - intros name pos Hin. apply Hlabels in Hin.
    destruct Hin as (f & Hf & Hne & -> & _). split.
    + intros E. rewrite E in Hne. discriminate Hne.
    + rewrite Ha. apply Object_fromEntries_keys, in_map_iff.
      exists (featureKey (getName (feat_properties f)),
              centred path_centroid w h geo f).
      split; [reflexivity |]. apply anchor_entries_In. exists f.
      split; [exact Hf |]. split; [| reflexivity].
      unfold anchorKey. rewrite Hne. reflexivity.
Qed.

(** X21. A region finds the anchor of a feature whose name has the same
    key, letter case, punctuation and aliases aside: once the anchors are
    rebuilt, [anchorFor] of the region is the centred centroid of such a
    feature.  A region whose key no named feature has gets the origin. *)
Theorem anchorFor_joins_region_and_feature
    (w h : Q) (st : App) (geo : list Feature) (sub : string) :
  geojson st = Some geo ->
  let st' := rebuildAnchorsFromMap path_centroid w h st in
  (forall f, In f geo -> getName (feat_properties f) <> EmptyString ->
     topoKeyOf (getName (feat_properties f)) = topoKeyOf sub ->
     exists g, In g geo /\
       topoKeyOf (getName (feat_properties g)) = topoKeyOf sub /\
       anchorFor sub st' = centred path_centroid w h geo g) /\
  ((forall f, In f geo -> getName (feat_properties f) <> EmptyString ->
      topoKeyOf (getName (feat_properties f)) <> topoKeyOf sub) ->
   anchorFor sub st' = {| vx := 0; vy := 0; vz := 0 |}).
Proof.
  intros Hgeo st'.
  pose proof (rebuildAnchorsFromMap_anchors w h st) as Ha.
  rewrite Hgeo in Ha. change (default [] (Some geo)) with geo in Ha.
  fold st' in Ha.
  assert (Hkey : forall f k, anchorKey f = Some k <->
            getName (feat_properties f) <> EmptyString /\
            topoKeyOf (getName (feat_properties f)) = k).
  { intros f k. unfold anchorKey. rewrite featureKey_topoKeyOf.
    destruct (nonempty (getName (feat_properties f))) eqn:Hne.
    - split.
      + intros Hk. apply Some_eq_inv in Hk. split; [| exact Hk].
        intros E. rewrite E in Hne. discriminate Hne.
      + intros [_ <-]. reflexivity.
    - apply nonempty_false_iff in Hne. split; [discriminate | intros [H _]; contradiction]. }
  unfold anchorFor. rewrite Ha. split.
  - intros f Hf Hname Hsame.
    destruct (Object_fromEntries_keys
                (flat_map (fun f => match anchorKey f with
                                    | Some k => [(k, centred path_centroid w h geo f)]
                                    | None => []
                                    end) geo) (topoKeyOf sub)) as [pos Hpos].
    { apply in_map_iff. exists (topoKeyOf sub, centred path_centroid w h geo f).
      split; [reflexivity |]. apply anchor_entries_In. exists f.
      split; [exact Hf |]. split; [apply Hkey; auto | reflexivity]. }
    rewrite Hpos. cbn [default].
    apply Object_fromEntries_In, anchor_entries_In in Hpos.
    destruct Hpos as (g & Hg & Hgk & ->). apply Hkey in Hgk.
    exists g. split; [exact Hg |]. split; [apply Hgk | reflexivity].
  - intros Hnone.
    destruct (entry_get (topoKeyOf sub) (Object_fromEntries _)) as [pos |] eqn:Hpos;
      [| reflexivity].
    exfalso. apply Object_fromEntries_In, anchor_entries_In in Hpos.
    destruct Hpos as (g & Hg & Hgk & _). apply Hkey in Hgk.
    destruct Hgk as [Hname Hk]. exact (Hnone g Hg Hname Hk).
Qed.
End AnchorProofs.

Lemma labels_and_anchors_share_positions_witness :
  let centroid := fun (_ _ : Q) (_ : list Feature) (_ : Feature) => (3%Q, 4%Q) in
  let geo := [{| feat_properties := [("NAME_1", "Kerala")] |};
              {| feat_properties := [("NAME_1", EmptyString)] |}] in
  let st := setGeojson geo initial in
  map fst (makeLabelSprites centroid 10 10 geo)
    = List.filter nonempty (map (fun f => getName (feat_properties f)) geo) /\
  map fst (makeLabelSprites centroid 10 10 geo) = ["Kerala"].
Proof.
  intros centroid geo st. split.
  - apply (labels_and_anchors_share_positions centroid 10 10 st geo). reflexivity.
  - reflexivity.
Defined.

Lemma anchorFor_joins_region_and_feature_witness :
  let centroid := fun (_ _ : Q) (_ : list Feature) (_ : Feature) => (3%Q, 4%Q) in
  let geo := [{| feat_properties := [("NAME_1", "35")] |}] in
  let st := setGeojson geo initial in
  exists g, In g geo /\
    topoKeyOf (getName (feat_properties g)) = topoKeyOf "KERALA" /\
    anchorFor "KERALA" (rebuildAnchorsFromMap centroid 10 10 st)
    = centred centroid 10 10 geo g.
Proof.
  intros centroid geo st.
  apply (proj1 (anchorFor_joins_region_and_feature centroid 10 10 st geo "KERALA"
                  eq_refl) {| feat_properties := [("NAME_1", "35")] |}).
  - left. reflexivity.
  - vm_compute. discriminate.
  - vm_compute. reflexivity.
Defined.

(** ** Ferns on their anchors *)

Lemma anchored_idem anchors0 scales (mesh : Mesh) :
  anchored anchors0 scales (anchored anchors0 scales mesh)
  = anchored anchors0 scales mesh.
Proof.
  destruct mesh as [g p sc us uk]. unfold anchored.
  cbn [mesh_geometry mesh_position mesh_scale userData_subdivision userData_key].
  destruct (uk ≫= (fun k => entry_get k anchors0));
    destruct (uk ≫= (fun k => entry_get k scales)); reflexivity.
Qed.

Lemma applyAnchor_heap (ref : nat) (st : App) (r : nat) :
  heap (applyAnchor ref st) !! r =
    if Nat.eqb r ref
    then option_map (anchored (anchors st) (scaleBySubdivision st)) (heap st !! r)
    else heap st !! r.
Proof.
  unfold applyAnchor. destruct (heap st !! ref) as [mesh |] eqn:Hm.
  - cbn [heap]. destruct (Nat.eqb_spec r ref) as [-> | Hne].
    + rewrite list_lookup_insert_eq by (apply lookup_lt_Some in Hm; exact Hm).
      rewrite Hm. reflexivity.
    + rewrite list_lookup_insert_ne by congruence. reflexivity.
  - destruct (Nat.eqb_spec r ref) as [-> | Hne]; [rewrite Hm |]; reflexivity.
Qed.

Lemma applyAnchors_heap (refs : list nat) : forall st r,
  heap (fold_left (fun st ref => applyAnchor ref st) refs st) !! r =
    if existsb (Nat.eqb r) refs
    then option_map (anchored (anchors st) (scaleBySubdivision st)) (heap st !! r)
    else heap st !! r.
Proof.
  induction refs as [| ref refs IH]; intros st r; cbn [fold_left existsb];
    [reflexivity |].
  rewrite IH. destruct (applyAnchor_frame ref st) as (_ & Ha & Hs & _).
  rewrite Ha, Hs, applyAnchor_heap.
  destruct (Nat.eqb r ref); cbn [orb]; [| reflexivity].
  destruct (existsb (Nat.eqb r) refs); [| reflexivity].
  destruct (heap st !! r) as [mesh |]; cbn [option_map]; [| reflexivity].
  rewrite anchored_idem. reflexivity.
Qed.

Lemma existsb_eqb_In (r : nat) (refs : list nat) :
  existsb (Nat.eqb r) refs = true <-> In r refs.
Proof.
  rewrite existsb_exists. split.
  - intros (x & Hin & Heq). apply Nat.eqb_eq in Heq. subst x. exact Hin.
  - intros Hin. exists r. split; [exact Hin | apply Nat.eqb_refl].
Qed.

(** X22. [applyAnchorsToFerns] touches the position and the scale of
    the fern meshes and nothing else: a fern whose key has an anchor moves
    onto it, a fern without one stays where it is, the scale changes only
    where one is registered for the key, geometry and user data are kept,
    other meshes are left alone, and a second pass changes no mesh. *)
Theorem applyAnchorsToFerns_moves_ferns_onto_anchors (st : App) :
  let st' := applyAnchorsToFerns st in
  frame st st' /\
  (forall ref mesh, In ref (fernMeshes st) -> heap st !! ref = Some mesh ->
     exists mesh',
       heap st' !! ref = Some mesh' /\
       mesh_geometry mesh' = mesh_geometry mesh /\
       userData_subdivision mesh' = userData_subdivision mesh /\
       userData_key mesh' = userData_key mesh /\
       mesh_position mesh' =
         match userData_key mesh ≫= (fun k => entry_get k (anchors st)) with
         | Some pos => pos
         | None => mesh_position mesh
         end /\
       mesh_scale mesh' =
         match userData_key mesh ≫= (fun k => entry_get k (scaleBySubdivision st)) with
         | Some sc => setScalar sc
         | None => mesh_scale mesh
         end) /\
  (forall r, ~ In r (fernMeshes st) -> heap st' !! r = heap st !! r) /\
  (forall r, heap (applyAnchorsToFerns st') !! r = heap st' !! r).
Proof.
  intros st'. pose proof (applyAnchorsToFerns_frame st) as Hframe. fold st' in Hframe.
  assert (Hheap : forall r, heap st' !! r =
            if existsb (Nat.eqb r) (fernMeshes st)
            then option_map (anchored (anchors st) (scaleBySubdivision st)) (heap st !! r)
            else heap st !! r)
    by (intros r; apply applyAnchors_heap).
  split; [exact Hframe |]. split; [| split].
  - intros ref mesh Hin Hmesh. rewrite Hheap.
    rewrite (proj2 (existsb_eqb_In ref (fernMeshes st)) Hin), Hmesh.
    eexists. split; [reflexivity |]. unfold anchored.
    cbn [mesh_geometry mesh_position mesh_scale userData_subdivision userData_key].
    repeat apply conj; reflexivity.
  - intros r Hnot. rewrite Hheap.
    destruct (existsb (Nat.eqb r) (fernMeshes st)) eqn:E; [| reflexivity].
    apply existsb_eqb_In in E. contradiction.
  - intros r. unfold applyAnchorsToFerns at 1. rewrite applyAnchors_heap.
    destruct Hframe as (_ & Ha & Hs & _ & _ & _ & _ & Hf & _).
    rewrite Ha, Hs, Hf, Hheap.
    destruct (existsb (Nat.eqb r) (fernMeshes st)); [| reflexivity].
    destruct (heap st !! r) as [mesh |]; cbn [option_map]; [| reflexivity].
    rewrite anchored_idem. reflexivity.
Qed.

(** ** The ferns follow the selection *)

Lemma ferns_placed_impl (P R : string -> Vector3 -> Prop) (st : App) :
  (forall sub p, P sub p -> R sub p) -> ferns_placed P st -> ferns_placed R st.
Proof.
  intros HPR Hpl i sub Hi.
  destruct (Hpl i sub Hi) as (ref & mesh & H1 & H2 & H3 & H4 & H5 & H6).
  exists ref, mesh. repeat (split; [assumption |]). apply HPR, H6.
Qed.

Section SyncProofs.
Variable StringToNumber : string -> number.
Variable rand : nat -> Q.
Variable THREE_Color : string -> Q * Q * Q.
Variable has_yearSelect : bool.
Variable path_centroid : Q -> Q -> list Feature -> Feature -> Q * Q.

(** [updateAllFerns] gives every fern the geometry of the selected year
    and month and leaves the rest of each mesh alone. *)
Lemma updateAllFerns_sync (Pos : string -> Vector3 -> Prop) (st : App) :
  ferns_aligned st -> ferns_placed Pos st ->
  ferns_aligned (updateAllFerns StringToNumber rand THREE_Color st) /\
  ferns_placed Pos (updateAllFerns StringToNumber rand THREE_Color st) /\
  shows_selection StringToNumber rand THREE_Color
    (updateAllFerns StringToNumber rand THREE_Color st).
Proof.
  intros (Hlen & Hch & Hnd) Hpl.
  destruct (updateAllFerns_frame StringToNumber rand THREE_Color st)
    as (_ & _ & _ & Hd & Hsub & Hyl & Hc & Hf & Hm & Hyi & _).
  assert (Hmesh : forall i sub ref mesh,
            subdivisionList st !! i = Some sub ->
            fernMeshes st !! i = Some ref -> heap st !! ref = Some mesh ->
            exists mesh',
              heap (updateAllFerns StringToNumber rand THREE_Color st) !! ref
              = Some mesh' /\
              refreshed rand THREE_Color mesh mesh'
                (Num (valueFor StringToNumber (dataBySubdivision st) (Some sub)
                        (currentYear st) (monthLabel st)))).
  { intros i sub ref mesh Hi Href Hmesh. unfold updateAllFerns.
    pose proof (lookup_lt_Some _ _ _ Href) as Hlt.
    destruct (length (fernMeshes st) =? 0)%nat eqn:E;
      [apply Nat.eqb_eq in E; lia |].
    pose proof (updateLoop_spec StringToNumber rand THREE_Color
                  (length (fernMeshes st)) 0 (currentYear st) (monthLabel st) st Hnd)
      as Hup.
    cbv zeta in Hup. destruct Hup as [Hup _].
    destruct (Hup i ref mesh) as (mesh' & Hm' & Hre); [lia | exact Href | exact Hmesh |].
    rewrite Hi in Hre. exists mesh'. split; [exact Hm' | exact Hre]. }
  split; [| split].
  - unfold ferns_aligned. rewrite Hc, Hf, Hsub. auto.
  - intros i sub Hi. rewrite Hsub in Hi.
    destruct (Hpl i sub Hi) as (ref & mesh & Href & Hm0 & H1 & H2 & H3 & H4).
    destruct (Hmesh i sub ref mesh Hi Href Hm0) as (mesh' & Hm' & _ & Hp & Hs & Hus & Huk).
    exists ref, mesh'. rewrite Hf, Hus, Huk, Hs, Hp. auto 10.
  - intros i sub ref mesh' Hi Href Hm'. rewrite Hsub in Hi. rewrite Hf in Href.
    destruct (Hpl i sub Hi) as (ref0 & mesh & Href0 & Hm0 & _).
    assert (ref0 = ref) by congruence. subst ref0.
    destruct (Hmesh i sub ref mesh Hi Href Hm0) as (mesh'' & Hm'' & (k & Hk) & _).
    assert (mesh'' = mesh') by congruence. subst mesh''.
    exists k. rewrite Hk, Hd. unfold currentYear, monthLabel. rewrite Hyl, Hyi, Hm.
    reflexivity.
Qed.

Lemma buildAllFerns_placed (st : App) :
  scaleBySubdivision st = [] ->
  ferns_aligned (fst (buildAllFerns StringToNumber rand THREE_Color st)) /\
  ferns_placed
    (fun sub p => p = default origin (entry_get (topoKeyOf sub) (anchors st)))
    (fst (buildAllFerns StringToNumber rand THREE_Color st)).
Proof.
  intros Hsc.
  destruct (buildAllFerns_spec StringToNumber rand THREE_Color st)
    as ((_ & _ & _ & _ & Hsub & _) & _ & Hf & Hc & _).
  split.
  - unfold ferns_aligned. rewrite Hc, Hf, Hsub, length_seq.
    split; [reflexivity |]. split; [reflexivity | apply NoDup_seq].
  - intros i sub Hi. rewrite Hsub in Hi.
    pose proof (buildAllFerns_lookup StringToNumber rand THREE_Color st i sub Hi) as H.
    cbv zeta in H. destruct H as (mesh & Href & Hmesh & H1 & H2 & H3 & H4).
    exists (length (heap st) + i)%nat, mesh.
    rewrite Hsc in H4. cbn [entry_get default] in H4. auto 10.
Qed.

Lemma ingestRainRows_keeps_map (rows : list Row) (st : App) :
  let st' :=
    fst (ingestRainRows StringToNumber rand THREE_Color has_yearSelect rows st) in
  geojson st' = geojson st /\ anchors st' = anchors st.
Proof.
  unfold ingestRainRows.
  match goal with
  | |- context [buildAllFerns _ _ _ ?s] =>
      set (st2 := s);
      pose proof (buildAllFerns_spec StringToNumber rand THREE_Color st2) as Hb;
      destruct (buildAllFerns StringToNumber rand THREE_Color st2) as [st3 missing]
  end.
  cbn [fst snd] in *.
  destruct Hb as ((Hg & Ha & _) & _).
  destruct (updateAllFerns_frame StringToNumber rand THREE_Color st3)
    as (Hg' & Ha' & _).
  rewrite Hg', Ha', Hg, Ha.
  subst st2. unfold buildYearSelect. destruct has_yearSelect; cbn; split; reflexivity.
Qed.

Lemma ingestRainRows_sync (rows : list Row) (st : App) :
  scaleBySubdivision st = [] ->
  let st' :=
    fst (ingestRainRows StringToNumber rand THREE_Color has_yearSelect rows st) in
  ferns_aligned st' /\
  ferns_placed
    (fun sub p => p = default origin (entry_get (topoKeyOf sub) (anchors st))) st' /\
  shows_selection StringToNumber rand THREE_Color st'.
Proof.
  intros Hsc. unfold ingestRainRows.
  match goal with
  | |- context [buildAllFerns _ _ _ ?s] => set (st2 := s)
  end.
  assert (Hsc2 : scaleBySubdivision st2 = [])
    by (subst st2; unfold buildYearSelect; destruct has_yearSelect; exact Hsc).
  assert (Ha2 : anchors st2 = anchors st)
    by (subst st2; unfold buildYearSelect; destruct has_yearSelect; reflexivity).
  destruct (buildAllFerns_placed st2 Hsc2) as [Hal Hpl]. rewrite Ha2 in Hpl.
  destruct (buildAllFerns StringToNumber rand THREE_Color st2) as [st3 missing].
  cbn [fst snd] in *. apply updateAllFerns_sync; assumption.
Qed.

Lemma rebuildAnchorsFromMap_keeps (w h : Q) (st : App) :
  let st' := rebuildAnchorsFromMap path_centroid w h st in
  geojson st' = geojson st /\
  dataBySubdivision st' = dataBySubdivision st /\
  subdivisionList st' = subdivisionList st /\
  yearList st' = yearList st /\
  fernsRoot_children st' = fernsRoot_children st /\
  fernMeshes st' = fernMeshes st /\
  monthIndex st' = monthIndex st /\
  yearIndex st' = yearIndex st /\
  heap st' = heap st.
Proof.
  unfold rebuildAnchorsFromMap. rewrite anchorLoop_entries.
  cbn [geojson dataBySubdivision subdivisionList yearList fernsRoot_children
       fernMeshes monthIndex yearIndex heap].
  repeat split.
Qed.

Lemma rebuildMap_sync (Pos : string -> Vector3 -> Prop) (w h : Q) (st : App) :
  scaleBySubdivision st = [] ->
  ferns_aligned st -> ferns_placed Pos st ->
  shows_selection StringToNumber rand THREE_Color st ->
  let st' := rebuildMap path_centroid w h st in
  ferns_aligned st' /\
  ferns_placed
    (fun sub p =>
       exists p0, Pos sub p0 /\
         p = match geojson st with
             | Some _ => default p0 (entry_get (topoKeyOf sub) (anchors st'))
             | None => p0
             end) st' /\
  shows_selection StringToNumber rand THREE_Color st'.
Proof.
  intros Hsc Hal Hpl Hshow st'. subst st'. unfold rebuildMap.
  destruct (geojson st) as [geo |] eqn:Hgeo.
  2:{ split; [exact Hal |]. split; [| exact Hshow].
      eapply ferns_placed_impl; [| exact Hpl]. intros sub p Hp. exists p. auto. }
  set (st1 := rebuildAnchorsFromMap path_centroid w h st).
  pose proof (rebuildAnchorsFromMap_keeps w h st) as Hk. cbv zeta in Hk.
  fold st1 in Hk.
  destruct Hk as (_ & Hd1 & Hsub1 & Hyl1 & Hc1 & Hf1 & Hm1 & Hyi1 & Hh1).
  pose proof (rebuildAnchorsFromMap_scales path_centroid w h st) as Hsc1.
  fold st1 in Hsc1. rewrite Hsc in Hsc1.
  destruct (applyAnchorsToFerns_frame st1)
    as (_ & Ha2 & _ & Hd2 & Hsub2 & Hyl2 & Hc2 & Hf2 & Hm2 & Hyi2 & _).
  assert (Hheap : forall ref mesh, In ref (fernMeshes st) ->
            heap st !! ref = Some mesh ->
            heap (applyAnchorsToFerns st1) !! ref
            = Some (anchored (anchors st1) [] mesh)).
  { intros ref mesh Hin Hmesh. unfold applyAnchorsToFerns.
    rewrite applyAnchors_heap, Hf1, Hsc1, Hh1.
    rewrite (proj2 (existsb_eqb_In ref (fernMeshes st)) Hin), Hmesh. reflexivity. }
  destruct Hal as (Hlen & Hch & Hnd).
  split; [| split].
  - unfold ferns_aligned. rewrite Hc2, Hf2, Hsub2, Hc1, Hf1, Hsub1. auto.
  - intros i sub Hi. rewrite Hsub2, Hsub1 in Hi.
    destruct (Hpl i sub Hi) as (ref & mesh & Href & Hmesh & H1 & H2 & H3 & H4).
    exists ref, (anchored (anchors st1) [] mesh).
    rewrite Hf2, Hf1.
    split; [exact Href |].
    split; [apply Hheap;
            [apply list_elem_of_In, (list_elem_of_lookup_2 _ _ _ Href) | exact Hmesh] |].
    unfold anchored.
    cbn [mesh_geometry mesh_position mesh_scale userData_subdivision userData_key].
    split; [exact H1 |]. split; [exact H2 |]. rewrite H2. cbn [mbind option_bind entry_get].
    split; [exact H3 |].
    exists (mesh_position mesh). split; [exact H4 |].
    rewrite Ha2. reflexivity.
  - intros i sub ref mesh' Hi Href Hm'.
    rewrite Hsub2, Hsub1 in Hi. rewrite Hf2, Hf1 in Href.
    destruct (Hpl i sub Hi) as (ref0 & mesh & Href0 & Hmesh & _).
    assert (ref0 = ref) by congruence. subst ref0.
    rewrite (Hheap ref mesh) in Hm';
      [| apply list_elem_of_In, (list_elem_of_lookup_2 _ _ _ Href) | exact Hmesh].
    injection Hm' as <-.
    destruct (Hshow i sub ref mesh Hi Href Hmesh) as (k & Hk).
    exists k. unfold anchored. cbn [mesh_geometry]. rewrite Hk, Hd2, Hd1.
    unfold currentYear, monthLabel. rewrite Hyl2, Hyl1, Hyi2, Hyi1, Hm2, Hm1.
    reflexivity.
Qed.

(** X23. In every state the program can reach there is one fern mesh
    per subdivision, in the order of [subdivisionList], the scene group
    holds exactly these meshes, and the mesh at index [i] carries the name
    and key of the [i]-th subdivision, has the default scale 0.25 and the
    geometry of that subdivision's value for the selected year and
    month. *)
Theorem ferns_always_show_the_selection (st : App) :
  reachable StringToNumber rand THREE_Color has_yearSelect path_centroid st ->
  ferns_aligned st /\
  ferns_placed (fun _ _ => True) st /\
  shows_selection StringToNumber rand THREE_Color st.
Proof.
  induction 1 as [| features st Hreach IH | rows st Hreach IH | w h st Hreach IH
                  | now st Hreach IH | i st Hi Hreach IH | v st Hreach IH].
  - split; [| split].
    + unfold ferns_aligned. cbn. split; [reflexivity |].
      split; [reflexivity | constructor].
    + intros i sub Hi. cbn in Hi. discriminate Hi.
    + intros i sub ref mesh Hi. cbn in Hi. discriminate Hi.
  - exact IH.
  - destruct (reachable_invariant StringToNumber rand THREE_Color has_yearSelect
                path_centroid st Hreach) as [Hsc _].
    destruct (ingestRainRows_sync rows st Hsc) as (Hal & Hpl & Hshow).
    split; [exact Hal |]. split; [| exact Hshow].
    eapply ferns_placed_impl; [| exact Hpl]. auto.
  - destruct (reachable_invariant StringToNumber rand THREE_Color has_yearSelect
                path_centroid st Hreach) as [Hsc _].
    destruct IH as (Hal & Hpl & Hshow).
    destruct (rebuildMap_sync _ w h st Hsc Hal Hpl Hshow) as (Hal' & Hpl' & Hshow').
    split; [exact Hal' |]. split; [| exact Hshow'].
    eapply ferns_placed_impl; [| exact Hpl']. auto.
  - destruct IH as (Hal & Hpl & Hshow). unfold step.
    destruct (tickDue now st); [| auto].
    apply updateAllFerns_sync; [exact Hal | exact Hpl].
  - destruct IH as (Hal & Hpl & Hshow). unfold onMonthClick.
    apply updateAllFerns_sync; [exact Hal | exact Hpl].
  - destruct IH as (Hal & Hpl & Hshow). unfold onYearChange.
    destruct (indexOf v (yearList st) 0); [| auto].
    apply updateAllFerns_sync; [exact Hal | exact Hpl].
Qed.

(** X24. Rows ingested while no anchor exists, as at start-up, where
    the table is read before the map is built: the warning counts every
    subdivision as missing its anchor and every fern is made at the
    origin. *)
Theorem ingest_before_map_puts_ferns_at_origin (rows : list Row) (st : App) :
  anchors st = [] ->
  scaleBySubdivision st = [] ->
  let st' :=
    fst (ingestRainRows StringToNumber rand THREE_Color has_yearSelect rows st) in
  snd (ingestRainRows StringToNumber rand THREE_Color has_yearSelect rows st)
  = length (subdivisionList st') /\
  ferns_placed (fun _ p => p = {| vx := 0; vy := 0; vz := 0 |}) st'.
Proof.
  intros Ha Hsc st'. split.
  - subst st'. unfold ingestRainRows.
    match goal with
    | |- context [buildAllFerns _ _ _ ?s] => set (st2 := s)
    end.
    assert (Ha2 : anchors st2 = [])
      by (subst st2; unfold buildYearSelect; destruct has_yearSelect; exact Ha).
    destruct (buildAllFerns_spec StringToNumber rand THREE_Color st2)
      as ((_ & _ & _ & _ & Hsub & _) & _ & _ & _ & Hmiss).
    destruct (buildAllFerns StringToNumber rand THREE_Color st2) as [st3 missing].
    cbn [fst snd] in *.
    destruct (updateAllFerns_frame StringToNumber rand THREE_Color st3)
      as (_ & _ & _ & _ & Hsub' & _).
    rewrite Hsub', Hsub, Hmiss. f_equal.
    apply List.forallb_filter_id, forallb_forall. intros sub _.
    unfold has_anchor. rewrite Ha2. reflexivity.
  - destruct (ingestRainRows_sync rows st Hsc) as (_ & Hpl & _).
    eapply ferns_placed_impl; [| exact Hpl].
    intros sub p ->. rewrite Ha. reflexivity.
Qed.
End SyncProofs.

Lemma ferns_always_show_the_selection_witness :
  let rows := [[("SUBDIVISION", "Kerala"); ("YEAR", "2000"); ("JAN", "12")]] in
  let rand := fun _ : nat => 0.5%Q in
  let color := fun _ : string => (1%Q, 1%Q, 1%Q) in
  let centroid := fun (_ _ : Q) (_ : list Feature) (_ : Feature) => (0%Q, 0%Q) in
  let st := step decimalToNumber rand color 1200
              (fst (ingestRainRows decimalToNumber rand color true rows initial)) in
  reachable decimalToNumber rand color true centroid st /\
  ferns_aligned st /\
  shows_selection decimalToNumber rand color st.
Proof.
  intros rows rand color centroid st.
  assert (Hreach : reachable decimalToNumber rand color true centroid st)
    by (apply reach_frame, reach_ingest, reach_initial).
  split; [exact Hreach |].
  destruct (ferns_always_show_the_selection decimalToNumber rand color true centroid
              st Hreach) as (Hal & _ & Hshow).
  split; [exact Hal | exact Hshow].
Defined.

Lemma ingest_before_map_puts_ferns_at_origin_witness :
  let rows := [[("SUBDIVISION", "Kerala"); ("YEAR", "2000"); ("JAN", "12")]] in
  let rand := fun _ : nat => 0.5%Q in
  let color := fun _ : string => (1%Q, 1%Q, 1%Q) in
  let geo := [{| feat_properties := [("NAME_1", "Kerala")] |}] in
  snd (ingestRainRows decimalToNumber rand color true rows (setGeojson geo initial))
  = length (subdivisionList
              (fst (ingestRainRows decimalToNumber rand color true rows
                      (setGeojson geo initial)))).
Proof.
  intros rows rand color geo.
  exact (proj1 (ingest_before_map_puts_ferns_at_origin decimalToNumber rand color true
                  rows (setGeojson geo initial) eq_refl eq_refl)).
Defined.

(** ** Start-up *)

Section StartupProofs.
Variable StringToNumber : string -> number.
Variable rand : nat -> Q.
Variable THREE_Color : string -> Q * Q * Q.
Variable has_yearSelect : bool.
Variable path_centroid : Q -> Q -> list Feature -> Feature -> Q * Q.
Variable topoFeature : json -> option json -> outcome json.

Lemma rebuildMap_keeps_lists (w h : Q) (st : App) :
  let st' := rebuildMap path_centroid w h st in
  geojson st' = geojson st /\
  subdivisionList st' = subdivisionList st /\
  yearList st' = yearList st /\
  fernMeshes st' = fernMeshes st /\
  tickMs st' = tickMs st /\
  lastTime st' = lastTime st.
Proof.
  unfold rebuildMap. destruct (geojson st) as [geo |] eqn:Hgeo;
    [| cbv zeta; rewrite Hgeo; repeat split].
  destruct (applyAnchorsToFerns_frame (rebuildAnchorsFromMap path_centroid w h st))
    as (Hg & _ & _ & _ & Hsub & Hyl & _ & Hf & _ & _ & Ht & Hl & _).
  cbv zeta. rewrite Hg, Hsub, Hyl, Hf, Ht, Hl.
  unfold rebuildAnchorsFromMap. rewrite anchorLoop_entries.
  cbn [geojson subdivisionList yearList fernMeshes tickMs lastTime].
  rewrite Hgeo. repeat split.
Qed.

Lemma rebuildMap_anchors (w h : Q) (st : App) (geo : list Feature) :
  geojson st = Some geo ->
  anchors (rebuildMap path_centroid w h st) =
    Object_fromEntries
      (flat_map (fun f => match anchorKey f with
                          | Some k => [(k, centred path_centroid w h geo f)]
                          | None => []
                          end) geo).
Proof.
  intros Hgeo. unfold rebuildMap. rewrite Hgeo.
  destruct (applyAnchorsToFerns_frame (rebuildAnchorsFromMap path_centroid w h st))
    as (_ & Ha & _).
  rewrite Ha, rebuildAnchorsFromMap_anchors, Hgeo. reflexivity.
Qed.

Lemma string_fields_get (ps : list (string * json)) (n : string) :
  typed_name (entry_get n ps) = true ->
  entry_get n (string_fields ps) =
    match entry_get n ps with
    | Some (JString s) => Some s
    | _ => None
    end.
Proof.
  induction ps as [| [k v] ps IH]; cbn [entry_get string_fields flat_map fst snd];
    [reflexivity |].
  fold (string_fields ps).
  destruct (String.eqb n k) eqn:E.
  - destruct v; cbn [typed_name]; try discriminate.
    intros _. cbn [app entry_get]. rewrite E. reflexivity.
  - intros Ht. destruct v; cbn [app entry_get]; rewrite ?E; apply IH, Ht.
Qed.

(** X25. Start-up.  When the boundaries fail to load [init] returns at
    once: the state is the initial one whatever the rainfall file holds,
    and no resize or frame follows.  When they load, [init] reaches its
    call of [onResize] in a state the program can be in, with a map
    document and no anchor yet; without a rainfall table there is no fern
    and the stepper never advances; with one, the table and the two lists
    are those of the rows and there is one fern per subdivision, all at
    the origin.  On a document in the typed domain the state holds the
    features of the document, the names the model reads are the string
    name fields of the document, and the resize that follows puts every
    fern on the anchor of its subdivision ([anchorFor]). *)
Theorem init_outcomes (fetchedMap : option Response) (fetchedCsv : option string) :
  let st := fst (init StringToNumber rand THREE_Color has_yearSelect topoFeature
                   fetchedMap fetchedCsv) in
  let resizes := snd (init StringToNumber rand THREE_Color has_yearSelect topoFeature
                        fetchedMap fetchedCsv) in
  reachable StringToNumber rand THREE_Color has_yearSelect path_centroid st /\
  (forall e, loadBoundaries topoFeature FILE_URL fetchedMap = Thrown e ->
     st = initial /\ resizes = false) /\
  (forall doc, loadBoundaries topoFeature FILE_URL fetchedMap = Returned doc ->
     resizes = true /\
     geojson st <> None /\
     anchors st = [] /\
     (fetchedCsv = None \/
      (exists text e, fetchedCsv = Some text /\ loadCSVRows text = Thrown e) ->
      subdivisionList st = [] /\ fernMeshes st = [] /\ yearList st = [] /\
      forall now, step StringToNumber rand THREE_Color now st = st) /\
     (forall text rows,
        fetchedCsv = Some text -> loadCSVRows text = Returned rows ->
        dataBySubdivision st = tableOf StringToNumber rows /\
        subdivisionList st =
          subdivisionList
            (fst (ingestRainRows StringToNumber rand THREE_Color has_yearSelect
                    rows initial)) /\
        yearList st =
          yearList
            (fst (ingestRainRows StringToNumber rand THREE_Color has_yearSelect
                    rows initial)) /\
        ferns_aligned st /\
        ferns_placed (fun _ p => p = {| vx := 0; vy := 0; vz := 0 |}) st) /\
     (typed_document doc = true ->
      geojson st = Some (featuresOf doc) /\
      (exists items,
         json_prop doc "features" = Returned (Some (JArray items)) /\
         featuresOf doc = map (fun f => {| feat_properties := propertiesOf f |}) items /\
         forall f fields ps n,
           In f items -> f = JObject fields ->
           entry_get "properties" fields = Some (JObject ps) ->
           In n NAME_FIELDS ->
           entry_get n (propertiesOf f) =
             match entry_get n ps with
             | Some (JString s) => Some s
             | _ => None
             end) /\
      forall w h,
        let st' := rebuildMap path_centroid w h st in
        anchors st' =
          anchors (rebuildAnchorsFromMap path_centroid w h
                     (setGeojson (featuresOf doc) initial)) /\
        forall i sub, subdivisionList st' !! i = Some sub ->
          exists ref mesh,
            fernMeshes st' !! i = Some ref /\
            heap st' !! ref = Some mesh /\
            userData_subdivision mesh = Some sub /\
            mesh_position mesh = anchorFor sub st')).
Proof.
  intros st resizes. subst st resizes. unfold init.
  destruct (loadBoundaries topoFeature FILE_URL fetchedMap) as [doc | e0].
  2:{ cbn [fst snd]. split; [apply reach_initial |].
      split; [intros e _; split; reflexivity | intros doc [=]]. }
  cbn [fst snd].
  set (s0 := setGeojson (featuresOf doc) initial).
  assert (Hreach0 : reachable StringToNumber rand THREE_Color has_yearSelect
                      path_centroid s0)
    by (apply reach_boundaries, reach_initial).
  set (s1 := match fetchedCsv with
             | Some text =>
                 match loadCSVRows text with
                 | Returned rows =>
                     fst (ingestRainRows StringToNumber rand THREE_Color
                            has_yearSelect rows s0)
                 | Thrown _ => s0
                 end
             | None => s0
             end).
  assert (Hreach1 : reachable StringToNumber rand THREE_Color has_yearSelect
                      path_centroid s1).
  { subst s1. destruct fetchedCsv as [text |]; [| exact Hreach0].
    destruct (loadCSVRows text) as [rows | e]; [| exact Hreach0].
    apply reach_ingest, Hreach0. }
  assert (Hmap1 : geojson s1 = Some (featuresOf doc) /\ anchors s1 = []).
  { subst s1. destruct fetchedCsv as [text |]; [| split; reflexivity].
    destruct (loadCSVRows text) as [rows | e]; [| split; reflexivity].
    apply (ingestRainRows_keeps_map StringToNumber rand THREE_Color has_yearSelect
             rows s0). }
  destruct Hmap1 as [Hgeo1 Hanch1].
  assert (Hsync : ferns_aligned s1 /\
                  ferns_placed (fun _ p => p = {| vx := 0; vy := 0; vz := 0 |}) s1 /\
                  shows_selection StringToNumber rand THREE_Color s1).
  { assert (Hempty : ferns_aligned s0 /\
                     ferns_placed (fun _ p => p = {| vx := 0; vy := 0; vz := 0 |}) s0 /\
                     shows_selection StringToNumber rand THREE_Color s0).
    { split; [| split].
      - unfold ferns_aligned. cbn. split; [reflexivity |].
        split; [reflexivity | constructor].
      - intros i sub Hi. cbn in Hi. discriminate Hi.
      - intros i sub ref mesh Hi. cbn in Hi. discriminate Hi. }
    subst s1. destruct fetchedCsv as [text |]; [| exact Hempty].
    destruct (loadCSVRows text) as [rows | e]; [| exact Hempty].
    destruct (ingestRainRows_sync StringToNumber rand THREE_Color has_yearSelect
                rows s0 eq_refl) as (Hal & Hpl & Hshow).
    split; [exact Hal |]. split; [| exact Hshow].
    eapply ferns_placed_impl; [| exact Hpl]. intros sub p ->. reflexivity. }
  split; [exact Hreach1 |].
  split; [intros e [=] |].
  intros doc' [= <-].
  split; [reflexivity |]. split; [rewrite Hgeo1; discriminate |].
  split; [exact Hanch1 |].
  split; [| split].
  - intros Hfail.
    assert (Hs1 : s1 = s0).
    { subst s1. destruct Hfail as [-> | (text & e & -> & ->)]; reflexivity. }
    rewrite Hs1.
    split; [reflexivity |]. split; [reflexivity |]. split; [reflexivity |].
    intros now. apply step_not_due. unfold tickDue. apply andb_false_r.
  - intros text rows Hcsv Hrows.
    assert (Hs1 : s1 = fst (ingestRainRows StringToNumber rand THREE_Color
                              has_yearSelect rows s0))
      by (subst s1; rewrite Hcsv, Hrows; reflexivity).
    destruct (ingestRainRows_lists StringToNumber rand THREE_Color has_yearSelect
                rows s0) as (Hd0 & Hs0 & Hy0).
    destruct (ingestRainRows_lists StringToNumber rand THREE_Color has_yearSelect
                rows initial) as (_ & Hsi & Hyi).
    rewrite <- Hs1 in Hd0, Hs0, Hy0.
    split; [exact Hd0 |].
    split; [rewrite Hs0, Hsi; reflexivity |].
    split; [rewrite Hy0, Hyi; reflexivity |].
    split; apply Hsync.
  - intros Htyped. split; [exact Hgeo1 |]. split.
    + unfold typed_document in Htyped. unfold featuresOf, json_prop.
      destruct doc as [| | | | | fields]; try discriminate Htyped.
      destruct (entry_get "features" fields) as [[| | | | items |] |];
        try discriminate Htyped.
      exists items. split; [reflexivity |]. split; [reflexivity |].
      intros f fs ps n Hf -> Hps Hn.
      rewrite forallb_forall in Htyped. specialize (Htyped _ Hf).
      cbn [typed_feature] in Htyped. apply andb_true_iff in Htyped.
      destruct Htyped as [_ Hprops]. rewrite Hps in Hprops.
      cbn [typed_properties] in Hprops. rewrite forallb_forall in Hprops.
      cbn [propertiesOf]. rewrite Hps.
      apply string_fields_get, Hprops, Hn.
    + intros w h.
      split.
      { rewrite (rebuildMap_anchors w h s1 _ Hgeo1).
        rewrite rebuildAnchorsFromMap_anchors. reflexivity. }
      destruct Hsync as (Hal & Hpl & Hshow).
      destruct (reachable_invariant StringToNumber rand THREE_Color has_yearSelect
                  path_centroid s1 Hreach1) as [Hsc _].
      destruct (rebuildMap_sync StringToNumber rand THREE_Color path_centroid
                  _ w h s1 Hsc Hal Hpl Hshow) as (_ & Hpl' & _).
      intros i sub Hi.
      destruct (Hpl' i sub Hi) as (ref & mesh & Href & Hmesh & Hus & _ & _ & Hpos).
      exists ref, mesh. split; [exact Href |]. split; [exact Hmesh |].
      split; [exact Hus |].
      destruct Hpos as (p0 & Hp0 & Hp). rewrite Hgeo1 in Hp.
      rewrite Hp, Hp0. unfold anchorFor. reflexivity.
Qed.
End StartupProofs.

(** ** Names that differ in letter case or outer white space *)

Lemma space_lower (c : ascii) : is_space c = true -> lower_char c = c.
Proof. destruct c as [[] [] [] [] [] [] [] []]; vm_compute; intros; congruence. Qed.

Lemma toLowerCase_idem (s : string) : toLowerCase (toLowerCase s) = toLowerCase s.
Proof.
  induction s as [| c s IH]; cbn [toLowerCase]; [reflexivity |].
  rewrite lower_char_idem, IH. reflexivity.
Qed.

Lemma append_cons (c : ascii) (s t : string) :
  String c s ++ t = String c (s ++ t).
Proof. reflexivity. Qed.

Lemma append_empty_r (s : string) : s ++ EmptyString = s.
Proof.
  induction s as [| c s IH]; [reflexivity |]. rewrite append_cons, IH. reflexivity.
Qed.

Lemma toLowerCase_app (s t : string) :
  toLowerCase (s ++ t) = toLowerCase s ++ toLowerCase t.
Proof.
  induction s as [| c s IH]; [reflexivity |].
  rewrite append_cons. cbn [toLowerCase]. rewrite IH. reflexivity.
Qed.

Lemma drop_punct_app (s t : string) :
  drop_punct (s ++ t) = drop_punct s ++ drop_punct t.
Proof.
  induction s as [| c s IH]; [reflexivity |].
  rewrite append_cons. cbn [drop_punct].
  destruct (is_kept c); rewrite ?append_cons, IH; reflexivity.
Qed.

Lemma append_snoc (s : string) (c : ascii) (t : string) :
  (s ++ String c EmptyString) ++ t = s ++ String c t.
Proof.
  induction s as [| d s IH]; [reflexivity |].
  rewrite !append_cons, IH. reflexivity.
Qed.

Lemma trim_after_run_start (x : string) :
  trim (drop_punct (collapse_from true x)) = trim (drop_punct (collapse_from false x)).
Proof.
  destruct x as [| d x]; [reflexivity |]. cbn [collapse_from].
  destruct (is_space d); reflexivity.
Qed.

Lemma norm_leading_space (c : ascii) (s : string) :
  is_space c = true -> norm (Some (String c s)) = norm (Some s).
Proof.
  intros Hc. unfold norm, collapse_spaces. cbv [from_option id]. cbn [toLowerCase].
  rewrite (space_lower c Hc). cbn [collapse_from]. rewrite Hc.
  change (trim (drop_punct (String " " (collapse_from true (toLowerCase s)))))
    with (trim (drop_punct (collapse_from true (toLowerCase s)))).
  apply trim_after_run_start.
Qed.

Lemma collapse_snoc (x : string) : forall (b : bool) (c : ascii),
  is_space c = true ->
  collapse_from b (x ++ String c EmptyString) = collapse_from b x \/
  collapse_from b (x ++ String c EmptyString) = collapse_from b x ++ " ".
Proof.
  induction x as [| d x IH]; intros b c Hc.
  - change (EmptyString ++ String c EmptyString) with (String c EmptyString).
    cbn [collapse_from]. rewrite Hc. destruct b; [left | right]; reflexivity.
  - rewrite append_cons. cbn [collapse_from].
    destruct (is_space d); [destruct b |].
    + apply IH, Hc.
    + destruct (IH true c Hc) as [-> | ->]; [left | right]; reflexivity.
    + destruct (IH false c Hc) as [-> | ->]; [left | right]; reflexivity.
Qed.

Lemma trim_end_snoc (y : string) : trim_end (y ++ " ") = trim_end y.
Proof.
  induction y as [| d y IH]; [reflexivity |].
  rewrite append_cons. cbn [trim_end]. rewrite IH. reflexivity.
Qed.

Lemma trim_snoc (y : string) : trim (y ++ " ") = trim y.
Proof.
  unfold trim. induction y as [| d y IH]; [reflexivity |].
  rewrite append_cons. cbn [trim_start]. destruct (is_space d); [exact IH |].
  cbn [trim_end]. rewrite trim_end_snoc. reflexivity.
Qed.

Lemma norm_trailing_space (s : string) (c : ascii) :
  is_space c = true -> norm (Some (s ++ String c EmptyString)) = norm (Some s).
Proof.
  intros Hc. unfold norm, collapse_spaces. cbv [from_option id].
  rewrite toLowerCase_app. cbn [toLowerCase]. rewrite (space_lower c Hc).
  destruct (collapse_snoc (toLowerCase s) false c Hc) as [-> | ->]; [reflexivity |].
  rewrite drop_punct_app.
  change (drop_punct " ") with " ". apply trim_snoc.
Qed.

Lemma norm_trailing_spaces (pad : string) : forall s,
  all_chars is_space pad = true -> norm (Some (s ++ pad)) = norm (Some s).
Proof.
  induction pad as [| c pad IH]; intros s; cbn [all_chars].
  - intros _. rewrite append_empty_r. reflexivity.
  - rewrite andb_true_iff. intros [Hc Hpad].
    rewrite <- append_snoc, IH by exact Hpad. apply norm_trailing_space, Hc.
Qed.

(** X26. [norm] does not see letter case or the white space around a
    name: a name padded with any white space on either side, and the same
    name in lower case, get the key of the name itself. *)
Theorem norm_ignores_case_and_outer_white_space (before s after : string) :
  all_chars is_space before = true ->
  all_chars is_space after = true ->
  norm (Some (before ++ s ++ after)) = norm (Some s) /\
  norm (Some (toLowerCase s)) = norm (Some s) /\
  topoKeyOf (before ++ toLowerCase s ++ after) = topoKeyOf s.
Proof.
  intros Hb Ha.
  assert (Hlead : forall t, norm (Some (before ++ t)) = norm (Some t)).
  { clear Ha. induction before as [| c b IH]; intros t; [reflexivity |].
    cbn [all_chars] in Hb. apply andb_true_iff in Hb. destruct Hb as [Hc Hb].
    rewrite append_cons, norm_leading_space by exact Hc. apply IH, Hb. }
  assert (Hlow : norm (Some (toLowerCase s)) = norm (Some s))
    by (unfold norm; cbv [from_option id]; rewrite toLowerCase_idem; reflexivity).
  split; [| split].
  - rewrite Hlead. apply norm_trailing_spaces, Ha.
  - exact Hlow.
  - unfold topoKeyOf. rewrite Hlead, norm_trailing_spaces by exact Ha.
    rewrite Hlow. reflexivity.
Qed.

Lemma norm_ignores_case_and_outer_white_space_witness :
  norm (Some ("  " ++ "Kerala" ++ " ")) = norm (Some "Kerala") /\
  norm (Some (toLowerCase "Kerala")) = norm (Some "Kerala") /\
  topoKeyOf ("  " ++ toLowerCase "Kerala" ++ " ") = topoKeyOf "Kerala".
Proof.
  apply norm_ignores_case_and_outer_white_space; reflexivity.
Defined.

(** ** Frames one tick apart *)

Section SpacedFrames.
Variable StringToNumber : string -> number.
Variable rand : nat -> Q.
Variable THREE_Color : string -> Q * Q * Q.

Lemma runFrames_keeps (nows : list Q) : forall st,
  yearList (runFrames StringToNumber rand THREE_Color nows st) = yearList st /\
  tickMs (runFrames StringToNumber rand THREE_Color nows st) = tickMs st.
Proof.
  induction nows as [| now nows IH]; intros st; [split; reflexivity |].
  unfold runFrames in *. cbn [fold_left].
  destruct (IH (step StringToNumber rand THREE_Color now st)) as [-> ->].
  destruct (tickDue now st) eqn:E.
  - destruct (step_due StringToNumber rand THREE_Color now st E)
      as (_ & _ & Hy & Ht & _). auto.
  - rewrite (step_not_due StringToNumber rand THREE_Color now st E). auto.
Qed.

(** X27. While a year is loaded, frames that are each at least
    [tickMs] after the previous advance all advance the month: after [n]
    such frames the month index has moved [n] places round the twelve
    months, and the year index has not moved. *)
Theorem spaced_frames_advance_one_month_each (nows : list Q) (st : App) :
  yearList st <> [] ->
  (0 <= monthIndex st < 12)%Z ->
  spaced (tickMs st) (lastTime st) nows ->
  advances StringToNumber rand THREE_Color nows st = length nows /\
  monthIndex (runFrames StringToNumber rand THREE_Color nows st)
  = ((monthIndex st + Z.of_nat (length nows)) mod 12)%Z /\
  yearIndex (runFrames StringToNumber rand THREE_Color nows st) = yearIndex st /\
  yearList (runFrames StringToNumber rand THREE_Color nows st) = yearList st.
Proof.
  intros Hy Hm Hsp.
  pose proof (advances_spaced StringToNumber rand THREE_Color nows st Hy Hsp) as Hadv.
  split; [exact Hadv |].
  split; [rewrite runFrames_monthIndex by exact Hm; rewrite Hadv; reflexivity |].
  split; [apply runFrames_yearIndex | apply runFrames_keeps].
Qed.
End SpacedFrames.

Lemma spaced_frames_advance_one_month_each_witness :
  let rows := [[("SUBDIVISION", "Kerala"); ("YEAR", "2000"); ("JAN", "12")]] in
  let rand := fun _ : nat => 0.5%Q in
  let color := fun _ : string => (1%Q, 1%Q, 1%Q) in
  let st := fst (ingestRainRows decimalToNumber rand color true rows initial) in
  let nows := [1200; 2500; 3700]%Q in
  monthIndex (runFrames decimalToNumber rand color nows st)
  = ((monthIndex st + Z.of_nat (length nows)) mod 12)%Z.
Proof.
  intros rows rand color st nows.
  destruct (ingestRainRows_lists decimalToNumber rand color true rows initial)
    as (_ & _ & Hy).
  destruct (ingestRainRows_keeps decimalToNumber rand color true rows initial)
    as (_ & Hm & Ht & Hl).
  fold st in Hy, Hm, Ht, Hl.
  apply (spaced_frames_advance_one_month_each decimalToNumber rand color nows st).
  - rewrite Hy. vm_compute. discriminate.
  - rewrite Hm. change (monthIndex initial) with 0%Z. lia.
  - rewrite Ht, Hl. vm_compute. repeat split; discriminate.
Defined.

Lemma init_outcomes_witness :
  let rand := fun _ : nat => 0.5%Q in
  let color := fun _ : string => (1%Q, 1%Q, 1%Q) in
  let centroid := fun (_ _ : Q) (_ : list Feature) (_ : Feature) => (400%Q, 300%Q) in
  let topo := fun (_ : json) (_ : option json) => @Thrown json LibraryError in
  let doc :=
    JObject
      [("type", JString "FeatureCollection");
       ("features",
        JArray
          [JObject
             [("type", JString "Feature");
              ("properties", JObject [("NAME_1", JString "Kerala")]);
              ("geometry",
               JObject
                 [("type", JString "Polygon");
                  ("coordinates",
                   JArray [JArray [JArray [JNumber 76; JNumber 8];
                                   JArray [JNumber 77; JNumber 8];
                                   JArray [JNumber 77; JNumber 12]]])])]])] in
  let resp := {| resp_ok := true; resp_status := 200; resp_json := Some doc |} in
  let text := "SUBDIVISION,YEAR,JAN" ++ newline ++ "Kerala,2000,12" in
  let st := fst (init decimalToNumber rand color true topo (Some resp) (Some text)) in
  typed_document doc = true /\
  featuresOf doc = [{| feat_properties := [("NAME_1", "Kerala")] |}] /\
  exists ref mesh,
    fernMeshes (rebuildMap centroid 800 600 st) !! 0%nat = Some ref /\
    heap (rebuildMap centroid 800 600 st) !! ref = Some mesh /\
    userData_subdivision mesh = Some "Kerala" /\
    mesh_position mesh = anchorFor "Kerala" (rebuildMap centroid 800 600 st).
Proof.
  intros rand color centroid topo doc resp text st.
  set (rows := [[("SUBDIVISION", "Kerala"); ("YEAR", "2000"); ("JAN", "12")]]).
  assert (Hrows : loadCSVRows text = Returned rows) by (vm_compute; reflexivity).
  assert (Htyped : typed_document doc = true) by reflexivity.
  split; [exact Htyped |]. split; [reflexivity |].
  pose proof (init_outcomes decimalToNumber rand color true centroid topo
                (Some resp) (Some text)) as H.
  cbv zeta in H. fold st in H. destruct H as (_ & _ & Hok).
  destruct (Hok doc eq_refl) as (_ & _ & _ & _ & Hcsv & Hresize).
  destruct (Hcsv text rows eq_refl Hrows) as (_ & Hsubs & _).
  destruct (Hresize Htyped) as (_ & _ & Hferns).
  destruct (Hferns 800%Q 600%Q) as (_ & Hplaced).
  apply Hplaced.
  destruct (rebuildMap_keeps_lists centroid 800%Q 600%Q st) as (_ & -> & _).
  rewrite Hsubs.
  destruct (ingestRainRows_lists decimalToNumber rand color true rows initial)
    as (_ & -> & _).
  vm_compute. reflexivity.
Defined.
